(** * Compliance assistant: sentence segmentation, obligation classification
      and export rows

    A shallow embedding of the decision logic of the Python package
    [compliance_assistant]:

    - [pdf_reader.py]        : [PDFReader.split_into_sentences]
    - [obligation_finder.py] : [ObligationFinder.contains_obligation_keyword],
                               [extract_obligations], [filter_obligations],
                               [process_sentences]
    - [excel_exporter.py]    : [ExcelExporter.create_obligation_dataframe]

    Python [str] values are modelled as lists of characters.  A character is
    one of the 256 code points U+0000..U+00FF, carried by the 8-bit type
    [ascii]; the character classes used by [str.isspace], [str.isalpha],
    [str.isupper], [str.lower] and by the regular-expression escapes [\s],
    [\w] and [\b] are the ones CPython's Unicode database assigns to those
    code points.  Python dictionaries are finite maps from string keys to
    [str] values, and a missing key on subscription is a [KeyError].

    Two facts of that range fail in the rest of Unicode: [str.lower] keeps
    the length of a text, and the cased characters are the letters.  The
    module [Wide] embeds the keyword search and the quality tests once more
    over an alphabet with U+0130, U+0307, U+2167, U+2177 and U+4E2D, and
    the properties that depend on either fact are stated there. *)

From Stdlib Require Import ZArith NArith QArith List Ascii String Bool Lia.
From Stdlib Require Import DecimalString DecimalNat DecimalFacts.
From stdpp Require Import base option list gmap strings fin_maps.

Open Scope bool_scope.
Open Scope list_scope.

(** Python [str]: a sequence of code points. *)
Abbreviation str := (list ascii).

(** A string literal of the source, as a [str]. *)
Definition lit (s : string) : str := list_ascii_of_string s.

(** ** Characters *)

Module Char.

Definition ord (c : ascii) : N := N_of_ascii c.
Definition chr (n : N) : ascii := ascii_of_N n.

Definition between (lo hi : N) (c : ascii) : bool :=
  (lo <=? ord c)%N && (ord c <=? hi)%N.
Definition code (n : N) (c : ascii) : bool := (ord c =? n)%N.

(** [str.isspace] on one character, also the class [\s] of [re] on [str]
    patterns: TAB LF VT FF CR, FS GS RS US, SPACE, NEL, NBSP. *)
Definition isspace (c : ascii) : bool :=
  between 9 13 c || between 28 32 c || code 133 c || code 160 c.

(** Code points with the Uppercase property: A-Z, U+00C0-U+00D6,
    U+00D8-U+00DE. *)
Definition isupper (c : ascii) : bool :=
  between 65 90 c || between 192 214 c || between 216 222 c.

(** Code points with the Lowercase property: a-z, U+00AA, U+00B5, U+00BA,
    U+00DF-U+00F6, U+00F8-U+00FF. *)
Definition islower (c : ascii) : bool :=
  between 97 122 c || code 170 c || code 181 c || code 186 c
  || between 223 246 c || between 248 255 c.

(** A cased character is an uppercase or a lowercase one (there is no
    titlecase character below U+0100). *)
Definition iscased (c : ascii) : bool := isupper c || islower c.

(** [str.isalpha] on one character: the letters (general category L);
    below U+0100 they are the cased characters, see [Wide.isalpha] for
    characters where the two differ. *)
Definition isalpha (c : ascii) : bool := isupper c || islower c.

(** decimal, digit or numeric characters: 0-9, superscript 2 3 1 and the
    vulgar fractions U+00BC-U+00BE. *)
Definition isnumeric (c : ascii) : bool :=
  between 48 57 c || code 178 c || code 179 c || code 185 c
  || between 188 190 c.

Definition isalnum (c : ascii) : bool := isalpha c || isnumeric c.

(** The class [\w] of [re]: alphanumeric or the underscore. *)
Definition isword (c : ascii) : bool := isalnum c || code 95 c.

(** [str.lower] on one character: every uppercase code point below U+0100
    has its lowercase partner 32 positions further. *)
Definition lower (c : ascii) : ascii :=
  if isupper c then chr (ord c + 32) else c.

End Char.

(** ** String methods *)

Module Str.

(** [len(s)] is a Python integer. *)
Definition len (s : str) : Z := Z.of_nat (length s).

(** [s.lower()]; character by character below U+0100, see
    [Wide.str_lower] for U+0130. *)
Definition lower (s : str) : str := map Char.lower s.

Fixpoint lstrip (s : str) : str :=
  match s with
  | [] => []
  | c :: r => if Char.isspace c then lstrip r else s
  end.

Definition rstrip (s : str) : str := rev (lstrip (rev s)).

(** [s.strip()]: leading and trailing whitespace removed. *)
Definition strip (s : str) : str := rstrip (lstrip s).

(** [s.isupper()]: all cased characters are uppercase and there is at
    least one cased character. *)
Definition isupper (s : str) : bool :=
  forallb (fun c => implb (Char.iscased c) (Char.isupper c)) s
  && existsb Char.iscased s.

(** [sum(c.isalpha() for c in s)]. *)
Fixpoint count_alpha (s : str) : Z :=
  match s with
  | [] => 0
  | c :: r => (if Char.isalpha c then 1 else 0) + count_alpha r
  end%Z.

(** [sep.join(parts)]. *)
Fixpoint join (sep : str) (parts : list str) : str :=
  match parts with
  | [] => []
  | [p] => p
  | p :: ps => p ++ sep ++ join sep ps
  end.

(** [s.startswith(prefix)]. *)
Fixpoint startswith (s prefix : str) : bool :=
  match prefix with
  | [] => true
  | k :: prefix' =>
      match s with
      | [] => false
      | c :: r => Ascii.eqb k c && startswith r prefix'
      end
  end.

(** [s.endswith(suffix)]. *)
Definition endswith (s suffix : str) : bool :=
  startswith (rev s) (rev suffix).

(** The scan of [s.split(sep)] for a separator that is not empty: the
    occurrences of [sep] are found from left to right, without overlap;
    [cur] is the text since the last one (kept in reverse) and [skip] counts
    the characters of the separator still to pass over. *)
Fixpoint split_from (sep : str) (skip : nat) (cur : str) (s : str) : list str :=
  match s with
  | [] => [rev cur]
  | c :: r =>
      match skip with
      | S k => split_from sep k cur r
      | O =>
          if startswith s sep
          then rev cur :: split_from sep (length sep - 1) [] r
          else split_from sep 0 (c :: cur) r
      end
  end.

(** [s.split(sep)], [sep] not empty (the source splits at [', ']). *)
Definition split (s sep : str) : list str := split_from sep 0 [] s.

End Str.

(** ** The regular expressions of the source *)

Module Re.

Definition head_char (s : str) : option ascii :=
  match s with [] => None | c :: _ => Some c end.

Definition opt_test (f : ascii -> bool) (o : option ascii) : bool :=
  match o with Some c => f c | None => false end.

(** *** [re.sub(r'\s+', repl, s)]

    Every maximal run of whitespace is replaced by [repl]; [in_run] tells
    that the previous character belonged to the run being replaced. *)
Fixpoint sub_ws_from (repl : str) (in_run : bool) (s : str) : str :=
  match s with
  | [] => []
  | c :: r =>
      if Char.isspace c
      then (if in_run then sub_ws_from repl true r
            else repl ++ sub_ws_from repl true r)
      else c :: sub_ws_from repl false r
  end.

Definition sub_ws (repl : str) (s : str) : str := sub_ws_from repl false s.

(** *** [re.split(r'(?<=[.!?])\s+(?=[A-Z])', s)] *)

(** the class [[.!?]] *)
Definition is_terminal (c : ascii) : bool :=
  existsb (Ascii.eqb c) (lit ".!?").

(** the class [[A-Z]] *)
Definition is_AZ (c : ascii) : bool := Char.between 65 90 c.

(** [\s+], greedy: the longest run of whitespace at the head of [s]. *)
Fixpoint ws_run (s : str) : nat :=
  match s with
  | [] => 0
  | c :: r => if Char.isspace c then S (ws_run r) else 0
  end.

(** The pattern tried at one position: [prev] is the character before the
    position (for the look-behind), [s] the text from the position on.
    The result is the length of the match.  A shorter whitespace run than
    the greedy one is followed by whitespace, never by [[A-Z]], so
    backtracking into [\s+] cannot succeed where the greedy run fails. *)
Definition sentence_break (prev : option ascii) (s : str) : option nat :=
  if opt_test is_terminal prev then
    let n := ws_run s in
    if (0 <? n)%nat && opt_test is_AZ (head_char (skipn n s))
    then Some n else None
  else None.

(** The scan of [re.split]: positions are tried from left to right; a
    match closes the current piece [cur] (kept in reverse) and the scan
    resumes after the matched text ([skip] counts the characters of the
    match still to pass over). *)
Fixpoint split_scan (skip : nat) (prev : option ascii) (cur : str)
         (s : str) : list str :=
  match s with
  | [] => [rev cur]
  | c :: r =>
      match skip with
      | S k => split_scan k (Some c) cur r
      | O =>
          match sentence_break prev s with
          | Some (S k) => rev cur :: split_scan k (Some c) [] r
          | _ => split_scan 0 (Some c) (c :: cur) r
          end
      end
  end.

Definition split_sentences (s : str) : list str := split_scan 0 None [] s.

(** *** [\b] + [re.escape(keyword)] + [\b], searched with [re.search] *)

(** [\b] between two neighbours; outside the string counts as non-word. *)
Definition word_boundary (before after : option ascii) : bool :=
  xorb (opt_test Char.isword before) (opt_test Char.isword after).

(** A literal matched at the head of [s]: what follows it.  The last
    character passed is returned too, for the closing [\b]. *)
Fixpoint match_literal (prev : option ascii) (l : str) (s : str)
  : option (option ascii * str) :=
  match l with
  | [] => Some (prev, s)
  | k :: l' =>
      match s with
      | [] => None
      | c :: r => if Ascii.eqb k c then match_literal (Some c) l' r else None
      end
  end.

Definition match_word_here (kw : str) (prev : option ascii) (s : str) : bool :=
  word_boundary prev (head_char s)
  && match match_literal prev kw s with
     | Some (last, rest) => word_boundary last (head_char rest)
     | None => false
     end.

(** [re.search]: the pattern is tried at every position. *)
Fixpoint search_word (kw : str) (prev : option ascii) (s : str) : bool :=
  match_word_here kw prev s
  || match s with
     | [] => false
     | c :: r => search_word kw (Some c) r
     end.

End Re.

(** ** [pdf_reader.py] *)

Module PDFReader.

(** The loop over the pieces: strip, keep the non-empty ones longer than
    10 characters. *)
Fixpoint keep_sentences (sentences : list str) (cleaned_sentences : list str)
  : list str :=
  match sentences with
  | [] => cleaned_sentences
  | sentence :: rest =>
      let sentence := Str.strip sentence in
      if negb (Nat.eqb (length sentence) 0) && (10 <? Str.len sentence)%Z
      then keep_sentences rest (cleaned_sentences ++ [sentence])
      else keep_sentences rest cleaned_sentences
  end.

Definition split_into_sentences (text : str) : list str :=
  let cleaned_text := Re.sub_ws (lit " ") (Str.strip text) in
  let sentences := Re.split_sentences cleaned_text in
  keep_sentences sentences [].

(** What opening and reading the file gives: the file is missing, the
    reading fails with some message, or the texts of the pages are there
    ([page.extract_text()] of each page, in order). *)
Inductive reading : Type :=
| NotFound
| Unreadable (message : str)
| Pages (texts : list str).

Inductive pdf_exn : Type :=
| FileNotFoundError (message : str)
| Exception (message : str).

(** [text += page_text + "\n"] for each page. *)
Fixpoint page_loop (texts : list str) (text : str) : str :=
  match texts with
  | [] => text
  | page_text :: rest => page_loop rest (text ++ page_text ++ ["010"%char])
  end.

Definition extract_text_from_pdf (pdf_path : str) (file : reading)
  : pdf_exn + str :=
  match file with
  | NotFound =>
      inl (FileNotFoundError (lit "PDF file not found: " ++ pdf_path))
  | Unreadable message =>
      inl (Exception (lit "Error reading PDF file: " ++ message))
  | Pages texts =>
      let text := page_loop texts [] in
      inr (Str.strip text)
  end.

Definition process_pdf (pdf_path : str) (file : reading)
  : pdf_exn + list str :=
  match extract_text_from_pdf pdf_path file with
  | inl e => inl e
  | inr text => inr (split_into_sentences text)
  end.

End PDFReader.

(** ** Dictionaries and exceptions *)

(** A Python [dict] with [str] keys and [str] values. *)
Abbreviation dict := (gmap string str).

Inductive exn : Type :=
| KeyError (key : string).

(** The outcome of a call: a value, or an exception that propagates. *)
Inductive result (A : Type) : Type :=
| Ok (a : A)
| Raise (e : exn).

Arguments Ok {A} a.
Arguments Raise {A} e.

Definition bind {A B : Type} (c : result A) (k : A -> result B) : result B :=
  match c with
  | Ok a => k a
  | Raise e => Raise e
  end.

Notation "'do' x <- c ; k" := (bind c (fun x => k))
  (at level 10, x name, c at level 100, k at level 200).

(** [d[key]] *)
Definition getitem (d : dict) (key : string) : result str :=
  match d !! key with
  | Some v => Ok v
  | None => Raise (KeyError key)
  end.

(** [d.get(key, default)] *)
Definition get (d : dict) (key : string) (default : str) : str :=
  match d !! key with
  | Some v => v
  | None => default
  end.

(** ** [obligation_finder.py] *)

Module ObligationFinder.

Definition OBLIGATION_KEYWORDS : list str :=
  [lit "must"; lit "shall"; lit "required"; lit "mandatory"].

(** [re.search(r'\b' + re.escape(keyword) + r'\b', sentence_lower)]; the
    escaped keyword matches the keyword itself, character by character. *)
Definition keyword_in (keyword : str) (sentence_lower : str) : bool :=
  Re.search_word keyword None sentence_lower.

(** The loop of [contains_obligation_keyword], with its early return. *)
Fixpoint any_keyword (keywords : list str) (sentence_lower : str) : bool :=
  match keywords with
  | [] => false
  | keyword :: rest =>
      if keyword_in keyword sentence_lower then true
      else any_keyword rest sentence_lower
  end.

Definition contains_obligation_keyword (sentence : str) : bool :=
  let sentence_lower := Str.lower sentence in
  any_keyword OBLIGATION_KEYWORDS sentence_lower.

(** The inner loop of [extract_obligations]: [found_keywords.append]. *)
Fixpoint find_keywords (keywords : list str) (sentence_lower : str)
         (found_keywords : list str) : list str :=
  match keywords with
  | [] => found_keywords
  | keyword :: rest =>
      if keyword_in keyword sentence_lower
      then find_keywords rest sentence_lower (found_keywords ++ [keyword])
      else find_keywords rest sentence_lower found_keywords
  end.

Definition make_obligation (sentence : str) (found_keywords : list str) : dict :=
  <["keywords" := Str.join (lit ", ") found_keywords]>
    (<["text" := Str.strip sentence]> ∅).

Fixpoint extract_loop (sentences : list str) (obligations : list dict)
  : list dict :=
  match sentences with
  | [] => obligations
  | sentence :: rest =>
      if contains_obligation_keyword sentence then
        let sentence_lower := Str.lower sentence in
        let found_keywords :=
          find_keywords OBLIGATION_KEYWORDS sentence_lower [] in
        let obligation := make_obligation sentence found_keywords in
        extract_loop rest (obligations ++ [obligation])
      else extract_loop rest obligations
  end.

Definition extract_obligations (sentences : list str) : list dict :=
  extract_loop sentences [].

(** Why a record is dropped by [filter_obligations]; one constructor per
    [continue] of the loop body, named after its log message. *)
Inductive rejection : Type :=
| TooShort
| AllCaps
| NonAlphabetic.

(** The three tests of the loop body, in the order of the source.  The
    last one is [alpha_chars < len(text) * 0.5]: the product is exact in
    binary floating point and Python compares an integer with a float
    exactly, so the test is [2 * alpha_chars < len(text)]. *)
Definition quality_check (text : str) (min_length : Z) : option rejection :=
  if (Str.len text <? min_length)%Z then Some TooShort
  else if Str.isupper text && (Str.len text <? 100)%Z then Some AllCaps
  else
    let alpha_chars := Str.count_alpha text in
    if (2 * alpha_chars <? Str.len text)%Z then Some NonAlphabetic
    else None.

Fixpoint filter_loop (obligations : list dict) (min_length : Z)
         (filtered : list dict) : result (list dict) :=
  match obligations with
  | [] => Ok filtered
  | obligation :: rest =>
      do text <- getitem obligation "text";
      match quality_check text min_length with
      | Some _ => filter_loop rest min_length filtered
      | None => filter_loop rest min_length (filtered ++ [obligation])
      end
  end.

Definition filter_obligations (obligations : list dict) (min_length : Z)
  : result (list dict) :=
  filter_loop obligations min_length [].

(** The default of the parameter [min_length]. *)
Definition default_min_length : Z := 20.

Definition process_sentences (sentences : list str) : result (list dict) :=
  let obligations := extract_obligations sentences in
  filter_obligations obligations default_min_length.

End ObligationFinder.

(** ** [os.path] on a POSIX system ([posixpath]) *)

Module OsPath.

(** [p.rfind(c) + 1]: the position after the last [c], 0 without one. *)
Fixpoint after_last (c : ascii) (p : str) : nat :=
  match p with
  | [] => 0
  | d :: r =>
      match after_last c r with
      | O => if Ascii.eqb d c then 1 else 0
      | S k => S (S k)
      end
  end.

(** [basename]: [i = p.rfind('/') + 1; return p[i:]]. *)
Definition basename (p : str) : str := skipn (after_last "/" p) p.

Fixpoint lstrip_sep (s : str) : str :=
  match s with
  | [] => []
  | c :: r => if Ascii.eqb c "/" then lstrip_sep r else s
  end.

(** [head.rstrip('/')]. *)
Definition rstrip_sep (s : str) : str := rev (lstrip_sep (rev s)).

(** [dirname]: the head up to the last slash, without its trailing
    slashes unless it is made of slashes only. *)
Definition dirname (p : str) : str :=
  let i := after_last "/" p in
  let head := firstn i p in
  if negb (Nat.eqb (length head) 0)
     && negb (forallb (fun c => Ascii.eqb c "/") head)
  then rstrip_sep head
  else head.

(** [splitext]: the extension starts at the last dot of the last
    component, unless only dots stand before that dot in the component. *)
Definition splitext (p : str) : str * str :=
  let sep1 := after_last "/" p in
  let dot1 := after_last "." p in
  if (sep1 <? dot1)%nat then
    if existsb (fun c => negb (Ascii.eqb c "."))
               (firstn (dot1 - 1 - sep1) (skipn sep1 p))
    then (firstn (dot1 - 1) p, skipn (dot1 - 1) p)
    else (p, [])
  else (p, []).

(** [join(a, b)]. *)
Definition join (a b : str) : str :=
  if Str.startswith b (lit "/") then b
  else if Nat.eqb (length a) 0 || Str.endswith a (lit "/") then a ++ b
  else a ++ lit "/" ++ b.

End OsPath.

(** ** [excel_exporter.py] *)

Module ExcelExporter.

(** [str(i)] for a non-negative integer. *)
Definition decimal (i : nat) : str :=
  lit (NilZero.string_of_uint (Nat.to_uint i)).

(** The format [{i:03d}]: decimal, padded with zeros on the left up to
    width 3. *)
Definition format_03d (i : nat) : str :=
  let digits := decimal i in
  repeat "0"%char (3 - length digits) ++ digits.

Definition make_row (i : nat) (text : str) (obligation : dict)
           (source_document : str) : dict :=
  <["ID" := lit "OBL-" ++ format_03d i]>
  (<["Obligation Text" := text]>
  (<["Source Document" := source_document]>
  (<["Keywords" := get obligation "keywords" []]>
  (<["Owner" := lit "Not Started"]>
  (<["Next Due Date" := lit "Not Started"]>
  (<["Status" := lit "Not Started"]> ∅)))))).

(** [for i, obligation in enumerate(obligations, 1)]; the data frame is
    the list of its rows. *)
Fixpoint rows_loop (obligations : list dict) (i : nat)
         (source_document : str) (data : list dict) : result (list dict) :=
  match obligations with
  | [] => Ok data
  | obligation :: rest =>
      do text <- getitem obligation "text";
      let row := make_row i text obligation source_document in
      rows_loop rest (S i) source_document (data ++ [row])
  end.

Definition create_obligation_dataframe (obligations : list dict)
           (source_document : str) : result (list dict) :=
  rows_loop obligations 1 source_document [].

(** The default of the parameter [output_dir]. *)
Definition default_output_dir : str := lit "output".

(** [generate_output_filename]; [timestamp] is
    [datetime.now().strftime('%Y%m%d_%H%M%S')]. *)
Definition generate_output_filename (source_document output_dir timestamp : str)
  : str :=
  let base_name := fst (OsPath.splitext (OsPath.basename source_document)) in
  let filename :=
    base_name ++ lit "_obligations_" ++ timestamp ++ lit ".xlsx" in
  let full_path := OsPath.join output_dir filename in
  full_path.

(** The inner loop of [create_summary_report]: a keyword that is not blank
    is counted under its stripped form,
    [keyword_counts.get(keyword.strip(), 0) + 1]. *)
Fixpoint count_keywords (keywords : list str) (keyword_counts : gmap str Z)
  : gmap str Z :=
  match keywords with
  | [] => keyword_counts
  | keyword :: rest =>
      if negb (Nat.eqb (length (Str.strip keyword)) 0)
      then
        let count :=
          match keyword_counts !! Str.strip keyword with
          | Some n => n
          | None => 0%Z
          end in
        count_keywords rest (<[Str.strip keyword := (count + 1)%Z]> keyword_counts)
      else count_keywords rest keyword_counts
  end.

(** The outer loop: [obligation.get('keywords', '').split(', ')]. *)
Fixpoint count_loop (obligations : list dict) (keyword_counts : gmap str Z)
  : gmap str Z :=
  match obligations with
  | [] => keyword_counts
  | obligation :: rest =>
      let keywords := Str.split (get obligation "keywords" []) (lit ", ") in
      count_loop rest (count_keywords keywords keyword_counts)
  end.

(** The summary dictionary, one field per key. *)
Record summary : Type := {
  total_obligations : Z;
  source_document : str;
  keyword_distribution : gmap str Z;
  extraction_timestamp : str
}.

(** [create_summary_report]; [now] is [datetime.now().isoformat()]. *)
Definition create_summary_report (obligations : list dict)
           (source_document : str) (now : str) : summary :=
  let keyword_counts := count_loop obligations ∅ in
  {| total_obligations := Z.of_nat (length obligations);
     source_document := source_document;
     keyword_distribution := keyword_counts;
     extraction_timestamp := now |}.

(** What [export_to_excel] can raise: the exception of the rows, or one of
    the file system or of the spreadsheet writer, known by its message. *)
Inductive export_exn : Type :=
| RowsError (e : exn)
| WriterError (message : str).

(** [export_to_excel].  [write output_dir output_path df] stands for
    [os.makedirs(output_dir, exist_ok=True)] followed by the writing and
    formatting of the sheet: it answers [None] when the file is written and
    the message of the exception otherwise (the handler of the source logs
    it and raises it again). *)
Definition export_to_excel (write : str -> str -> list dict -> option str)
           (obligations : list dict) (source_document output_path : str)
  : export_exn + str :=
  match create_obligation_dataframe obligations source_document with
  | Raise e => inl (RowsError e)
  | Ok df =>
      let output_dir := OsPath.dirname output_path in
      match write output_dir output_path df with
      | Some message => inl (WriterError message)
      | None => inr output_path
      end
  end.

End ExcelExporter.

(** ** [main.py] *)

Module ComplianceAssistant.

(** The exceptions that reach the handler of [process_document]. *)
Inductive exception : Type :=
| ReaderError (e : PDFReader.pdf_exn)
| ClassifierError (e : exn)
| ExportError (e : ExcelExporter.export_exn).

(** [str(e)]: the message of the exception; for a [KeyError], the key
    between quotes. *)
Definition str_of_exn (e : exn) : str :=
  match e with
  | KeyError key => lit "'" ++ lit key ++ lit "'"
  end.

Definition str_of (e : exception) : str :=
  match e with
  | ReaderError (PDFReader.FileNotFoundError message) => message
  | ReaderError (PDFReader.Exception message) => message
  | ClassifierError e => str_of_exn e
  | ExportError (ExcelExporter.RowsError e) => str_of_exn e
  | ExportError (ExcelExporter.WriterError message) => message
  end.

(** The summary of the report with the two entries [process_document]
    adds to it. *)
Record document_summary : Type := {
  report : ExcelExporter.summary;
  excel_output_path : str;
  total_sentences : Z
}.

(** The dictionary [process_document] returns. *)
Inductive outcome : Type :=
| Success (summary : document_summary) (obligations : list dict)
          (excel_path : str)
| Failure (error : str).

(** The handler: [except Exception as e]. *)
Definition failed (printed : list str) (e : exception) : list str * outcome :=
  let error_msg := lit "Error processing document: " ++ str_of e in
  (printed ++ [lit "ERROR: " ++ error_msg], Failure error_msg).

(** [process_document]: the lines it prints and what it returns.  [file]
    is what reading the document gives, [timestamp] and [now] are the two
    readings of the clock, [write] is the file system and the spreadsheet
    writer. *)
Definition process_document (pdf_path output_dir : str) (file : PDFReader.reading)
           (timestamp now : str)
           (write : str -> str -> list dict -> option str)
  : list str * outcome :=
  let printed :=
    [lit "Processing document: " ++ pdf_path;
     lit "Step 1: Extracting text from PDF..."] in
  match PDFReader.process_pdf pdf_path file with
  | inl e => failed printed (ReaderError e)
  | inr sentences =>
      let printed :=
        printed
        ++ [lit "Extracted " ++ ExcelExporter.decimal (length sentences)
                ++ lit " sentences";
            lit "Step 2: Finding compliance obligations..."] in
      match ObligationFinder.process_sentences sentences with
      | Raise e => failed printed (ClassifierError e)
      | Ok obligations =>
          let printed :=
            printed
            ++ [lit "Found " ++ ExcelExporter.decimal (length obligations)
                    ++ lit " compliance obligations";
                lit "Step 3: Exporting to Excel..."] in
          let source_document := OsPath.basename pdf_path in
          let output_path :=
            ExcelExporter.generate_output_filename source_document output_dir
                                                   timestamp in
          match ExcelExporter.export_to_excel write obligations source_document
                                              output_path with
          | inl e => failed printed (ExportError e)
          | inr excel_path =>
              let printed :=
                printed ++ [lit "Excel file created: " ++ excel_path] in
              let summary :=
                ExcelExporter.create_summary_report obligations source_document
                                                    now in
              (printed,
               Success {| report := summary;
                          excel_output_path := excel_path;
                          total_sentences := Z.of_nat (length sentences) |}
                       obligations excel_path)
          end
      end
  end.

End ComplianceAssistant.

(** ** Texts with characters above U+00FF

    [str.lower] keeps the length of a text over the code points below
    U+0100, and there a cased character is a letter.  Neither holds in all
    of Unicode.  The alphabet below adds to those code points the five that
    show it, and is closed under [str.lower]; the functions of
    [obligation_finder.py] that lower-case a sentence or classify its
    characters are embedded once more over it, clause by clause as above,
    with the classes CPython gives to the five characters. *)

Module Wide.

Inductive uchar : Type :=
| Latin1 (c : ascii)
| CapitalIDot       (* U+0130 LATIN CAPITAL LETTER I WITH DOT ABOVE, Lu *)
| CombiningDot      (* U+0307 COMBINING DOT ABOVE, Mn *)
| RomanEight        (* U+2167 ROMAN NUMERAL EIGHT, Nl, Uppercase *)
| SmallRomanEight   (* U+2177 SMALL ROMAN NUMERAL EIGHT, Nl, Lowercase *)
| CjkMiddle.        (* U+4E2D CJK UNIFIED IDEOGRAPH-4E2D, Lo *)

Abbreviation ustr := (list uchar).

(** A text of code points below U+0100, as a text over the alphabet. *)
Definition wide (s : str) : ustr := map Latin1 s.

Definition ord (c : uchar) : N :=
  match c with
  | Latin1 a => Char.ord a
  | CapitalIDot => 304
  | CombiningDot => 775
  | RomanEight => 8551
  | SmallRomanEight => 8567
  | CjkMiddle => 20013
  end.

Definition eqb (a b : uchar) : bool :=
  match a, b with
  | Latin1 x, Latin1 y => Ascii.eqb x y
  | CapitalIDot, CapitalIDot => true
  | CombiningDot, CombiningDot => true
  | RomanEight, RomanEight => true
  | SmallRomanEight, SmallRomanEight => true
  | CjkMiddle, CjkMiddle => true
  | _, _ => false
  end.

Definition isspace (c : uchar) : bool :=
  match c with
  | Latin1 a => Char.isspace a
  | _ => false
  end.

Definition isupper (c : uchar) : bool :=
  match c with
  | Latin1 a => Char.isupper a
  | CapitalIDot | RomanEight => true
  | _ => false
  end.

Definition islower (c : uchar) : bool :=
  match c with
  | Latin1 a => Char.islower a
  | SmallRomanEight => true
  | _ => false
  end.

Definition iscased (c : uchar) : bool := isupper c || islower c.

(** [str.isalpha]: the letters; the Roman numerals are cased and are not
    letters, the ideograph is a letter and is not cased. *)
Definition isalpha (c : uchar) : bool :=
  match c with
  | Latin1 a => Char.isalpha a
  | CapitalIDot | CjkMiddle => true
  | _ => false
  end.

(** The class [\w]: alphanumeric (letters and numeric characters) or the
    underscore; the combining mark is outside it. *)
Definition isword (c : uchar) : bool :=
  match c with
  | Latin1 a => Char.isword a
  | CombiningDot => false
  | _ => true
  end.

(** [str.lower] on one character: U+0130 becomes the two characters
    U+0069 U+0307. *)
Definition lower (c : uchar) : ustr :=
  match c with
  | Latin1 a => [Latin1 (Char.lower a)]
  | CapitalIDot => [Latin1 "i"%char; CombiningDot]
  | RomanEight => [SmallRomanEight]
  | _ => [c]
  end.

(** *** String methods *)

Definition len (s : ustr) : Z := Z.of_nat (length s).

Definition str_lower (s : ustr) : ustr := flat_map lower s.

Fixpoint lstrip (s : ustr) : ustr :=
  match s with
  | [] => []
  | c :: r => if isspace c then lstrip r else s
  end.

Definition rstrip (s : ustr) : ustr := rev (lstrip (rev s)).

Definition strip (s : ustr) : ustr := rstrip (lstrip s).

Definition str_isupper (s : ustr) : bool :=
  forallb (fun c => implb (iscased c) (isupper c)) s && existsb iscased s.

Fixpoint count_alpha (s : ustr) : Z :=
  match s with
  | [] => 0
  | c :: r => (if isalpha c then 1 else 0) + count_alpha r
  end%Z.

Fixpoint join (sep : ustr) (parts : list ustr) : ustr :=
  match parts with
  | [] => []
  | [p] => p
  | p :: ps => p ++ sep ++ join sep ps
  end.

(** *** [\b] + [re.escape(keyword)] + [\b], searched with [re.search] *)

Definition head_char (s : ustr) : option uchar :=
  match s with [] => None | c :: _ => Some c end.

Definition opt_test (f : uchar -> bool) (o : option uchar) : bool :=
  match o with Some c => f c | None => false end.

Definition word_boundary (before after : option uchar) : bool :=
  xorb (opt_test isword before) (opt_test isword after).

Fixpoint match_literal (prev : option uchar) (l : ustr) (s : ustr)
  : option (option uchar * ustr) :=
  match l with
  | [] => Some (prev, s)
  | k :: l' =>
      match s with
      | [] => None
      | c :: r => if eqb k c then match_literal (Some c) l' r else None
      end
  end.

Definition match_word_here (kw : ustr) (prev : option uchar) (s : ustr) : bool :=
  word_boundary prev (head_char s)
  && match match_literal prev kw s with
     | Some (last, rest) => word_boundary last (head_char rest)
     | None => false
     end.

Fixpoint search_word (kw : ustr) (prev : option uchar) (s : ustr) : bool :=
  match_word_here kw prev s
  || match s with
     | [] => false
     | c :: r => search_word kw (Some c) r
     end.

(** *** [obligation_finder.py] *)

Definition OBLIGATION_KEYWORDS : list ustr :=
  map wide ObligationFinder.OBLIGATION_KEYWORDS.

Definition keyword_in (keyword : ustr) (sentence_lower : ustr) : bool :=
  search_word keyword None sentence_lower.

Fixpoint any_keyword (keywords : list ustr) (sentence_lower : ustr) : bool :=
  match keywords with
  | [] => false
  | keyword :: rest =>
      if keyword_in keyword sentence_lower then true
      else any_keyword rest sentence_lower
  end.

Definition contains_obligation_keyword (sentence : ustr) : bool :=
  let sentence_lower := str_lower sentence in
  any_keyword OBLIGATION_KEYWORDS sentence_lower.

Fixpoint find_keywords (keywords : list ustr) (sentence_lower : ustr)
         (found_keywords : list ustr) : list ustr :=
  match keywords with
  | [] => found_keywords
  | keyword :: rest =>
      if keyword_in keyword sentence_lower
      then find_keywords rest sentence_lower (found_keywords ++ [keyword])
      else find_keywords rest sentence_lower found_keywords
  end.

Definition make_obligation (sentence : ustr) (found_keywords : list ustr)
  : gmap string ustr :=
  <["keywords" := join (wide (lit ", ")) found_keywords]>
    (<["text" := strip sentence]> ∅).

Fixpoint extract_loop (sentences : list ustr)
         (obligations : list (gmap string ustr)) : list (gmap string ustr) :=
  match sentences with
  | [] => obligations
  | sentence :: rest =>
      if contains_obligation_keyword sentence then
        let sentence_lower := str_lower sentence in
        let found_keywords :=
          find_keywords OBLIGATION_KEYWORDS sentence_lower [] in
        let obligation := make_obligation sentence found_keywords in
        extract_loop rest (obligations ++ [obligation])
      else extract_loop rest obligations
  end.

Definition extract_obligations (sentences : list ustr)
  : list (gmap string ustr) :=
  extract_loop sentences [].

(** The three tests of the loop body of [filter_obligations]. *)
Definition quality_check (text : ustr) (min_length : Z)
  : option ObligationFinder.rejection :=
  if (len text <? min_length)%Z then Some ObligationFinder.TooShort
  else if str_isupper text && (len text <? 100)%Z
       then Some ObligationFinder.AllCaps
  else
    let alpha_chars := count_alpha text in
    if (2 * alpha_chars <? len text)%Z then Some ObligationFinder.NonAlphabetic
    else None.

(** *** A whole word, in the words of the specification

    The keyword stands in the sentence itself, up to the case of its
    letters, and no word character stands directly before or after it. *)

Fixpoint same_ignoring_case (kw : ustr) (s : ustr) : option ustr :=
  match kw with
  | [] => Some s
  | k :: kw' =>
      match s with
      | [] => None
      | c :: r =>
          match lower c with
          | [c'] => if eqb c' k then same_ignoring_case kw' r else None
          | _ => None
          end
      end
  end.

Fixpoint whole_word_from (kw : ustr) (prev : option uchar) (s : ustr) : bool :=
  (negb (opt_test isword prev)
   && match same_ignoring_case kw s with
      | Some rest => negb (opt_test isword (head_char rest))
      | None => false
      end)
  || match s with
     | [] => false
     | c :: r => whole_word_from kw (Some c) r
     end.

Definition occurs_as_whole_word (kw sentence : ustr) : bool :=
  whole_word_from kw None sentence.

(** The sentences that [str.lower] maps character by character: those
    without U+0130. *)
Definition no_capital_i_dot (s : ustr) : Prop :=
  Forall (fun c => c <> CapitalIDot) s.

(** The character before the position reached after reading [s]. *)
Definition last_of (prev : option uchar) (s : ustr) : option uchar :=
  fold_left (fun _ c => Some c) s prev.

(** A keyword in a text as it stands, with no word character directly
    before it and none directly after it. *)
Definition occurs_whole (keyword text : ustr) : Prop :=
  exists pre post,
    text = pre ++ keyword ++ post
    /\ (forall pre' c, pre = pre' ++ [c] -> isword c = false)
    /\ (forall c post', post = c :: post' -> isword c = false).

End Wide.

(** * Definitions for the statements

    The predicates and relations in which the properties below are stated:
    the words of the specification, and the shape of the results of the
    loops of the source. *)

(** A case for each of the 256 code points. *)
Ltac each_char c :=
  destruct c as [[] [] [] [] [] [] [] []]; vm_compute; try reflexivity;
  try discriminate; auto.

(** A string of whitespace. *)
Definition all_space (s : str) : Prop :=
  Forall (fun c => Char.isspace c = true) s.

(** What one piece contributes to the result. *)
Definition kept_piece (piece : str) : list str :=
  let sentence := Str.strip piece in
  if negb (Nat.eqb (length sentence) 0) && (10 <? Str.len sentence)%Z
  then [sentence] else [].

(** The character before the position reached after reading [s]. *)
Definition last_of (prev : option ascii) (s : str) : option ascii :=
  fold_left (fun _ c => Some c) s prev.

(** A sentence boundary: a terminal mark [p], a non-empty run of whitespace
    [w], an upper-case letter [u] of A-Z. *)
Definition is_break (p : ascii) (w : str) (u : ascii) : Prop :=
  Re.is_terminal p = true /\ w <> [] /\ all_space w /\ Re.is_AZ u = true.

(** A text in which no boundary occurs. *)
Definition no_break (s : str) : Prop :=
  forall x p w u y, s = x ++ p :: w ++ u :: y -> ~ is_break p w u.

(** The pieces of a text, in the words of the specification.  A text
    without a boundary is one piece.  Otherwise the text up to and including
    the terminal mark of its first boundary is the first piece, the
    whitespace of the boundary belongs to no piece, and the pieces of the
    text from the capital letter on follow. *)
Inductive Segments : str -> list str -> Prop :=
| seg_whole (s : str) :
    no_break s -> Segments s [s]
| seg_break (x : str) (p : ascii) (w : str) (u : ascii) (y : str)
            (rest : list str) :
    is_break p w u -> no_break (x ++ [p]) ->
    Segments (u :: y) rest ->
    Segments (x ++ p :: w ++ u :: y) ((x ++ [p]) :: rest).

(** The reading of C3 in which the terminal mark is consumed with the
    whitespace: the sentences of a text with a boundary would be those of
    the text before the mark followed by those from the capital on. *)
Definition punctuation_consumed (x : str) (p : ascii) (w : str) (u : ascii)
           (y : str) : Prop :=
  PDFReader.split_into_sentences (x ++ p :: w ++ u :: y)
  = PDFReader.split_into_sentences x ++ PDFReader.split_into_sentences (u :: y).

(** An occurrence of the pattern [\b kw \b] in [t], read after [prev]. *)
Definition occurs_at (kw : str) (prev : option ascii) (t pre post : str) : Prop :=
  t = pre ++ kw ++ post
  /\ Re.word_boundary (last_of prev pre) (Re.head_char (kw ++ post)) = true
  /\ Re.word_boundary (last_of prev (pre ++ kw)) (Re.head_char post) = true.

(** A keyword made of word characters at both ends. *)
Definition wordy (kw : str) : Prop :=
  Re.opt_test Char.isword (Re.head_char kw) = true
  /\ Re.opt_test Char.isword (last_of None kw) = true.

(** Whole-word, case-insensitive occurrence, in the words of the
    specification: the keyword, up to the case of its letters, stands in the
    sentence between two places that are the start or the end of the
    sentence or a character that is not a word character (a letter, a digit
    or the underscore). *)
Definition ends_outside_word (pre : str) : Prop :=
  forall pre' c, pre = pre' ++ [c] -> Char.isword c = false.

Definition starts_outside_word (post : str) : Prop :=
  forall c post', post = c :: post' -> Char.isword c = false.

Definition whole_word_match (keyword sentence : str) : Prop :=
  exists pre mid post,
    sentence = pre ++ mid ++ post
    /\ Str.lower mid = keyword
    /\ ends_outside_word pre
    /\ starts_outside_word post.

(** A whole-word occurrence of a keyword in a text as it stands (the
    source searches the lower-cased sentence): the keyword is in the text
    between two places that are the start or the end of the text or a
    character that is not a word character. *)
Definition occurs_whole (keyword text : str) : Prop :=
  exists pre post,
    text = pre ++ keyword ++ post
    /\ ends_outside_word pre
    /\ starts_outside_word post.

(** The keywords of a list that occur in the sentence as whole words, in
    the order of the list. *)
Inductive Matched (sentence : str) : list str -> list str -> Prop :=
| matched_nil :
    Matched sentence [] []
| matched_hit (keyword : str) (keywords found : list str) :
    whole_word_match keyword sentence ->
    Matched sentence keywords found ->
    Matched sentence (keyword :: keywords) (keyword :: found)
| matched_miss (keyword : str) (keywords found : list str) :
    ~ whole_word_match keyword sentence ->
    Matched sentence keywords found ->
    Matched sentence (keyword :: keywords) found.

(** The record of a sentence with the keywords found in it. *)
Definition candidate_record (sentence : str) (found : list str) : dict :=
  {[ "text" := Str.strip sentence;
     "keywords" := Str.join (lit ", ") found ]}.

(** The candidate records of a list of sentences: a sentence in which no
    keyword of the fixed set occurs gives no record; any other gives one
    record, with its keywords in the order of the set. *)
Inductive Candidates : list str -> list dict -> Prop :=
| cand_nil :
    Candidates [] []
| cand_drop (sentence : str) (sentences : list str) (records : list dict) :
    Matched sentence
            [lit "must"; lit "shall"; lit "required"; lit "mandatory"] [] ->
    Candidates sentences records ->
    Candidates (sentence :: sentences) records
| cand_keep (sentence : str) (sentences : list str) (records : list dict)
            (found : list str) :
    Matched sentence
            [lit "must"; lit "shall"; lit "required"; lit "mandatory"] found ->
    found <> [] ->
    Candidates sentences records ->
    Candidates (sentence :: sentences)
               (candidate_record sentence found :: records).

(** The keywords found in one sentence, and its record if there is one. *)
Definition found_in (sentence : str) : list str :=
  List.filter (fun k => ObligationFinder.keyword_in k (Str.lower sentence))
              ObligationFinder.OBLIGATION_KEYWORDS.

Definition candidate_of (sentence : str) : list dict :=
  match found_in sentence with
  | [] => []
  | found => [candidate_record sentence found]
  end.

(** Half of the characters, as the specification words it: the count of
    alphabetic characters against 50% of the length. *)
Definition below_half_alphabetic (text : str) : Prop :=
  (inject_Z (Str.count_alpha text) < (50 # 100) * inject_Z (Str.len text))%Q.

(** The three tests in the words of the specification; the first one that
    fails decides. *)
Inductive Verdict (min_length : Z) (text : str)
  : option ObligationFinder.rejection -> Prop :=
| verdict_short :
    (Str.len text < min_length)%Z ->
    Verdict min_length text (Some ObligationFinder.TooShort)
| verdict_caps :
    ~ (Str.len text < min_length)%Z ->
    Str.isupper text = true -> (Str.len text < 100)%Z ->
    Verdict min_length text (Some ObligationFinder.AllCaps)
| verdict_alpha :
    ~ (Str.len text < min_length)%Z ->
    ~ (Str.isupper text = true /\ (Str.len text < 100)%Z) ->
    below_half_alphabetic text ->
    Verdict min_length text (Some ObligationFinder.NonAlphabetic)
| verdict_keep :
    ~ (Str.len text < min_length)%Z ->
    ~ (Str.isupper text = true /\ (Str.len text < 100)%Z) ->
    ~ below_half_alphabetic text ->
    Verdict min_length text None.

(** The records kept by the filter, in the words of the specification. *)
Inductive Filtered (min_length : Z) : list dict -> list dict -> Prop :=
| filtered_nil :
    Filtered min_length [] []
| filtered_drop (record : dict) (text : str) (why : ObligationFinder.rejection)
                (records kept : list dict) :
    record !! "text" = Some text ->
    Verdict min_length text (Some why) ->
    Filtered min_length records kept ->
    Filtered min_length (record :: records) kept
| filtered_keep (record : dict) (text : str) (records kept : list dict) :
    record !! "text" = Some text ->
    Verdict min_length text None ->
    Filtered min_length records kept ->
    Filtered min_length (record :: records) (record :: kept).

(** Whether the filter keeps a record. *)
Definition passes (min_length : Z) (record : dict) : bool :=
  match record !! "text" with
  | Some text =>
      match ObligationFinder.quality_check text min_length with
      | None => true
      | Some _ => false
      end
  | None => false
  end.

(** The records one sentence leaves in the result: none or one. *)
Definition survivors (sentence : str) : list dict :=
  List.filter (passes ObligationFinder.default_min_length) (candidate_of sentence).

(** A whole-word occurrence of a keyword, on the text given to the
    search. *)
Definition found_whole (kw t : str) : Prop :=
  exists pre post,
    t = pre ++ kw ++ post
    /\ Re.opt_test Char.isword (last_of None pre) = false
    /\ Re.opt_test Char.isword (Re.head_char post) = false.

(** The [text] values of a list of records: [r['text'] for r in records]. *)
Fixpoint texts_of (records : list dict) : result (list str) :=
  match records with
  | [] => Ok []
  | record :: rest =>
      do text <- getitem record "text";
      do texts <- texts_of rest;
      Ok (text :: texts)
  end.

(** The number a string of decimal digits stands for. *)
Definition value_of (digits : str) : option nat :=
  option_map Nat.of_uint (NilZero.uint_of_string (string_of_list_ascii digits)).

(** The rows of the obligations from position [i] on. *)
Fixpoint rows_from (i : nat) (source_document : str) (obligations : list dict)
  : list dict :=
  match obligations with
  | [] => []
  | obligation :: rest =>
      ExcelExporter.make_row i (get obligation "text" []) obligation
                             source_document
      :: rows_from (S i) source_document rest
  end.

(** The value of a column of a row. *)
Ltac row_lookup :=
  unfold ExcelExporter.make_row;
  repeat (rewrite lookup_insert_ne by discriminate);
  apply lookup_insert_eq.

(** The reading of C8 in which the values of Owner, Next Due Date and
    Status can be set by the caller: some call of the export would give a
    row in which one of them is not "Not Started". *)
Definition defaults_settable : Prop :=
  exists (obligations : list dict) (source_document : str)
         (rows : list dict) (row : dict) (column : string),
    ExcelExporter.create_obligation_dataframe obligations source_document = Ok rows
    /\ In row rows
    /\ In column ["Owner"; "Next Due Date"; "Status"]
    /\ row !! column <> Some (lit "Not Started").

(** The text the segmenter splits: the ends stripped, every run of
    whitespace made one space ([cleaned_text] in the source). *)
Definition normalize (text : str) : str :=
  Re.sub_ws (lit " ") (Str.strip text).

Definition starts_nonspace (s : str) : bool :=
  match s with
  | c :: _ => negb (Char.isspace c)
  | [] => false
  end.

(** A single-spaced text: every whitespace character of it is one space
    that stands between two characters that are not whitespace.
    [after_nonspace] tells that the text follows such a character. *)
Fixpoint tidy_from (after_nonspace : bool) (s : str) : bool :=
  match s with
  | [] => true
  | c :: r =>
      if Char.isspace c
      then Ascii.eqb c " " && after_nonspace && starts_nonspace r
           && tidy_from false r
      else tidy_from true r
  end.

Definition tidy (s : str) : Prop := tidy_from false s = true.

(** A text that does not end with whitespace. *)
Definition ends_nonspace (s : str) : Prop :=
  s = [] \/ exists s' d, s = s' ++ [d] /\ Char.isspace d = false.

(** Whether a keyword of the set is found, by the search of the source, in
    the lower-cased text of a record. *)
Definition mentions (keyword : str) (record : dict) : bool :=
  bool_decide (keyword ∈ ObligationFinder.OBLIGATION_KEYWORDS)
  && ObligationFinder.keyword_in keyword (Str.lower (get record "text" [])).

(** A whitespace character made a space. *)
Definition squash (c : ascii) : ascii :=
  if Char.isspace c then " "%char else c.

(** * Properties *)

(** ** Facts about the character classes

    Each one is checked on the 256 code points. *)

Lemma isspace_lower (c : ascii) : Char.isspace (Char.lower c) = Char.isspace c.
Proof. each_char c. Qed.

Lemma isword_lower (c : ascii) : Char.isword (Char.lower c) = Char.isword c.
Proof. each_char c. Qed.

Lemma space_not_word (c : ascii) : Char.isspace c = true -> Char.isword c = false.
Proof. each_char c. Qed.

Lemma terminal_not_space (c : ascii) :
  Re.is_terminal c = true -> Char.isspace c = false.
Proof. each_char c. Qed.

Lemma terminal_not_AZ (c : ascii) : Re.is_terminal c = true -> Re.is_AZ c = false.
Proof. each_char c. Qed.

Lemma AZ_not_space (c : ascii) : Re.is_AZ c = true -> Char.isspace c = false.
Proof. each_char c. Qed.

Lemma space_not_AZ (c : ascii) : Char.isspace c = true -> Re.is_AZ c = false.
Proof. each_char c. Qed.

(** ** Facts about [strip] *)

Lemma lstrip_split (s : str) :
  exists ws, s = ws ++ Str.lstrip s /\ all_space ws.
Proof.
  induction s as [|c r [ws [E A]]]; simpl.
  - exists []. split; [reflexivity | constructor].
  - destruct (Char.isspace c) eqn:Hc.
    + exists (c :: ws). split.
      * simpl. f_equal. exact E.
      * constructor; assumption.
    + exists []. split; [reflexivity | constructor].
Qed.

Lemma rstrip_split (s : str) :
  exists ws, s = Str.rstrip s ++ ws /\ all_space ws.
Proof.
  unfold Str.rstrip.
  destruct (lstrip_split (rev s)) as [ws [E A]].
  exists (rev ws). split.
  - rewrite <- rev_app_distr, <- E, rev_involutive. reflexivity.
  - apply List.Forall_rev. exact A.
Qed.

Lemma lstrip_head (c : ascii) (r : str) :
  Char.isspace c = false -> Str.lstrip (c :: r) = c :: r.
Proof. simpl. intros ->. reflexivity. Qed.

Lemma lstrip_idem (s : str) : Str.lstrip (Str.lstrip s) = Str.lstrip s.
Proof.
  induction s as [|c r IH]; simpl; [reflexivity|].
  destruct (Char.isspace c) eqn:Hc; [exact IH|].
  simpl. rewrite Hc. reflexivity.
Qed.

Lemma lstrip_snoc (s : str) (c : ascii) :
  Char.isspace c = false -> Str.lstrip (s ++ [c]) = Str.lstrip s ++ [c].
Proof.
  intros Hc. induction s as [|d r IH]; simpl.
  - rewrite Hc. reflexivity.
  - destruct (Char.isspace d); [exact IH | reflexivity].
Qed.

Lemma rstrip_cons (c : ascii) (r : str) :
  Char.isspace c = false -> Str.rstrip (c :: r) = c :: Str.rstrip r.
Proof.
  intros Hc. unfold Str.rstrip. simpl.
  rewrite lstrip_snoc by exact Hc.
  rewrite rev_app_distr. reflexivity.
Qed.

Lemma rstrip_snoc (s : str) (c : ascii) :
  Char.isspace c = false -> Str.rstrip (s ++ [c]) = s ++ [c].
Proof.
  intros Hc. unfold Str.rstrip. rewrite rev_app_distr. simpl.
  rewrite Hc. simpl. rewrite rev_involutive. reflexivity.
Qed.

Lemma rstrip_idem (s : str) : Str.rstrip (Str.rstrip s) = Str.rstrip s.
Proof.
  unfold Str.rstrip. rewrite rev_involutive, lstrip_idem. reflexivity.
Qed.

(** Stripping on the right leaves a string stripped on the left as it is
    on the left. *)
Lemma lstrip_rstrip (s : str) :
  Str.lstrip s = s -> Str.lstrip (Str.rstrip s) = Str.rstrip s.
Proof.
  destruct s as [|c r]; [reflexivity|].
  simpl. destruct (Char.isspace c) eqn:Hc.
  - intros E. exfalso.
    destruct (lstrip_split r) as [ws [E' _]].
    rewrite E in E'. apply (f_equal (@length ascii)) in E'.
    rewrite length_app in E'. simpl in E'. lia.
  - intros _. rewrite rstrip_cons by exact Hc. simpl. rewrite Hc. reflexivity.
Qed.

Lemma strip_idem (s : str) : Str.strip (Str.strip s) = Str.strip s.
Proof.
  unfold Str.strip.
  rewrite (lstrip_rstrip (Str.lstrip s)) by apply lstrip_idem.
  apply rstrip_idem.
Qed.

Lemma strip_nil : Str.strip [] = [].
Proof. reflexivity. Qed.

(** ** Segmentation: the loop over the pieces *)

Lemma keep_sentences_flat (pieces acc : list str) :
  PDFReader.keep_sentences pieces acc = acc ++ flat_map kept_piece pieces.
Proof.
  revert acc. induction pieces as [|p ps IH]; intros acc; simpl.
  - rewrite app_nil_r. reflexivity.
  - unfold kept_piece at 1.
    destruct (negb (length (Str.strip p) =? 0)%nat && (10 <? Str.len (Str.strip p))%Z);
      rewrite IH; [rewrite <- app_assoc|]; reflexivity.
Qed.

Lemma keep_sentences_app (a b : list str) :
  PDFReader.keep_sentences (a ++ b) [] =
  PDFReader.keep_sentences a [] ++ PDFReader.keep_sentences b [].
Proof. rewrite !keep_sentences_flat. simpl. apply flat_map_app. Qed.

(** C6. Every sentence returned by [split_into_sentences] is its own
    [strip] (it has no leading and no trailing whitespace) and is longer
    than 10 characters; so no piece whose stripped length is 10 or less is
    in the result. *)
Theorem split_into_sentences_trimmed_long (text sentence : str) :
  In sentence (PDFReader.split_into_sentences text) ->
  Str.strip sentence = sentence /\ (10 < Str.len sentence)%Z
  /\ (10 < Str.len (Str.strip sentence))%Z.
Proof.
  unfold PDFReader.split_into_sentences. rewrite keep_sentences_flat. simpl.
  intros H. apply in_flat_map in H. destruct H as [piece [_ H]].
  unfold kept_piece in H.
  destruct (negb (length (Str.strip piece) =? 0)%nat
            && (10 <? Str.len (Str.strip piece))%Z) eqn:E; [|contradiction].
  destruct H as [<- | []].
  apply andb_prop in E. destruct E as [_ E]. apply Z.ltb_lt in E.
  rewrite strip_idem. auto.
Qed.

Lemma split_into_sentences_trimmed_long_witness :
  In (lit "This is a longer sentence that should be kept.")
     (PDFReader.split_into_sentences
        (lit "Short. This is a longer sentence that should be kept."))
  /\ Str.strip (lit "This is a longer sentence that should be kept.")
     = lit "This is a longer sentence that should be kept."
  /\ (10 < Str.len (lit "This is a longer sentence that should be kept."))%Z.
Proof.
  assert (H : In (lit "This is a longer sentence that should be kept.")
                 (PDFReader.split_into_sentences
                    (lit "Short. This is a longer sentence that should be kept.")))
    by (vm_compute; left; reflexivity).
  split; [exact H|].
  destruct (split_into_sentences_trimmed_long _ _ H) as [A [B _]].
  split; [exact A | exact B].
Defined.

(** ** Segmentation: the split *)

Lemma last_of_snoc (prev : option ascii) (s : str) (c : ascii) :
  last_of prev (s ++ [c]) = Some c.
Proof. unfold last_of. rewrite fold_left_app. reflexivity. Qed.

Lemma ws_run_le (s : str) : Re.ws_run s <= length s.
Proof.
  induction s as [|c r IH]; simpl; [lia|].
  destruct (Char.isspace c); simpl; lia.
Qed.

Lemma ws_run_app (w r : str) :
  all_space w -> Re.opt_test Char.isspace (Re.head_char r) = false ->
  Re.ws_run (w ++ r) = length w.
Proof.
  intros A H. induction A as [|c w Hc A IH]; simpl.
  - destruct r as [|d r]; simpl in *; [reflexivity|]. rewrite H. reflexivity.
  - rewrite Hc, IH. reflexivity.
Qed.

Lemma ws_run_firstn (s : str) : all_space (firstn (Re.ws_run s) s).
Proof.
  induction s as [|c r IH]; simpl; [constructor|].
  destruct (Char.isspace c) eqn:Hc; simpl; constructor; assumption.
Qed.

(** A non-space character ends the run in front of it, whatever follows. *)
Lemma ws_run_stop (s : str) (p : ascii) (t : str) :
  Char.isspace p = false -> Re.ws_run (s ++ p :: t) = Re.ws_run s.
Proof.
  intros Hp. induction s as [|c r IH]; simpl.
  - rewrite Hp. reflexivity.
  - destruct (Char.isspace c); [rewrite IH|]; reflexivity.
Qed.

Lemma head_skipn_app (n : nat) (s : str) (p : ascii) (t : str) :
  n <= length s ->
  Re.head_char (skipn n (s ++ p :: t)) = Re.head_char (skipn n (s ++ [p])).
Proof.
  revert s. induction n as [|n IH]; intros s Hn.
  - destruct s; reflexivity.
  - destruct s as [|c r]; simpl in *; [lia|]. apply IH. lia.
Qed.

(** The pattern sees the text only up to the first non-space character
    after the position. *)
Lemma sentence_break_stop (prev : option ascii) (s : str) (p : ascii) (t : str) :
  Char.isspace p = false ->
  Re.sentence_break prev (s ++ p :: t) = Re.sentence_break prev (s ++ [p]).
Proof.
  intros Hp. unfold Re.sentence_break.
  destruct (Re.opt_test Re.is_terminal prev); [|reflexivity].
  rewrite !ws_run_stop by exact Hp.
  rewrite head_skipn_app by apply ws_run_le. reflexivity.
Qed.

Lemma sentence_break_run (prev : option ascii) (s : str) (n : nat) :
  Re.sentence_break prev s = Some n -> n = Re.ws_run s /\ 0 < n.
Proof.
  unfold Re.sentence_break.
  destruct (Re.opt_test Re.is_terminal prev); [|discriminate].
  destruct (0 <? Re.ws_run s)%nat eqn:E; simpl; [|discriminate].
  destruct (Re.opt_test Re.is_AZ (Re.head_char (skipn (Re.ws_run s) s)));
    [|discriminate].
  intros [= <-]. apply Nat.ltb_lt in E. auto.
Qed.

(** A match of the pattern is a boundary, and conversely. *)
Lemma sentence_break_Some (prev : option ascii) (s : str) (n : nat) :
  Re.sentence_break prev s = Some n ->
  Re.opt_test Re.is_terminal prev = true /\
  exists w u y, s = w ++ u :: y /\ w <> [] /\ all_space w
                /\ Re.is_AZ u = true /\ n = length w.
Proof.
  unfold Re.sentence_break.
  destruct (Re.opt_test Re.is_terminal prev); [|discriminate].
  destruct (0 <? Re.ws_run s)%nat eqn:E; simpl; [|discriminate].
  destruct (skipn (Re.ws_run s) s) as [|u y] eqn:Es; simpl; [discriminate|].
  destruct (Re.is_AZ u) eqn:Hu; [|discriminate].
  intros [= <-]. split; [reflexivity|].
  exists (firstn (Re.ws_run s) s), u, y. apply Nat.ltb_lt in E.
  repeat split.
  - rewrite <- Es. symmetry. apply firstn_skipn.
  - intros Hnil. apply (f_equal (@length ascii)) in Hnil.
    rewrite length_firstn in Hnil. pose proof (ws_run_le s). simpl in Hnil. lia.
  - apply ws_run_firstn.
  - exact Hu.
  - rewrite length_firstn. pose proof (ws_run_le s). lia.
Qed.

Lemma sentence_break_intro (prev : option ascii) (w : str) (u : ascii) (y : str) :
  Re.opt_test Re.is_terminal prev = true -> w <> [] -> all_space w ->
  Re.is_AZ u = true ->
  Re.sentence_break prev (w ++ u :: y) = Some (length w).
Proof.
  intros Hp Hw A Hu. unfold Re.sentence_break. rewrite Hp.
  rewrite ws_run_app by (simpl; auto using AZ_not_space).
  rewrite skipn_app, skipn_all, Nat.sub_diag. simpl. rewrite Hu.
  destruct w; [contradiction|]. reflexivity.
Qed.

(** Passing over the rest of a match. *)
Lemma split_scan_skip (w : str) (prev : option ascii) (cur r : str) :
  Re.split_scan (length w) prev cur (w ++ r)
  = Re.split_scan 0 (last_of prev w) cur r.
Proof.
  revert prev. induction w as [|c w IH]; intros prev; simpl.
  - destruct r; reflexivity.
  - apply IH.
Qed.

(** The two steps of the scan. *)
Lemma split_scan_no_match (prev : option ascii) (cur : str) (c : ascii) (r : str) :
  Re.sentence_break prev (c :: r) = None ->
  Re.split_scan 0 prev cur (c :: r) = Re.split_scan 0 (Some c) (c :: cur) r.
Proof. simpl. intros E. unfold Re.split_scan in *. simpl. rewrite E. reflexivity. Qed.

Lemma split_scan_match (prev : option ascii) (cur w : str) (u : ascii) (y : str) :
  Re.opt_test Re.is_terminal prev = true -> w <> [] -> all_space w ->
  Re.is_AZ u = true ->
  Re.split_scan 0 prev cur (w ++ u :: y)
  = rev cur :: Re.split_scan 0 (last_of prev w) [] (u :: y).
Proof.
  intros Hp Hw A Hu.
  pose proof (sentence_break_intro prev w u y Hp Hw A Hu) as E.
  destruct w as [|c w]; [contradiction|].
  change ((c :: w) ++ u :: y) with (c :: (w ++ u :: y)) in *.
  cbn [Re.split_scan]. rewrite E. cbn [length].
  rewrite split_scan_skip. reflexivity.
Qed.

Lemma split_scan_nonspace (prev : option ascii) (cur : str) (c : ascii) (r : str) :
  Char.isspace c = false ->
  Re.split_scan 0 prev cur (c :: r) = Re.split_scan 0 (Some c) (c :: cur) r.
Proof.
  intros Hc. apply split_scan_no_match. unfold Re.sentence_break.
  simpl. rewrite Hc. simpl. destruct (Re.opt_test Re.is_terminal prev); reflexivity.
Qed.

(** The scan of the text up to a boundary does not depend on what comes
    after it, and the scan resumes afresh at the capital letter. *)
Lemma split_scan_break (p : ascii) (w : str) (u : ascii) (y : str) :
  is_break p w u ->
  forall (s : str) (skip : nat) (prev : option ascii) (cur : str),
    skip <= Re.ws_run s ->
    Re.split_scan skip prev cur (s ++ p :: w ++ u :: y)
    = Re.split_scan skip prev cur (s ++ [p]) ++ Re.split_scan 0 None [] (u :: y).
Proof.
  intros (Hp & Hw & A & Hu).
  pose proof (terminal_not_space p Hp) as Hps.
  pose proof (AZ_not_space u Hu) as Hus.
  induction s as [|c r IH]; intros skip prev cur Hskip.
  - simpl in Hskip. assert (skip = 0) as -> by lia. cbn [app].
    rewrite (split_scan_nonspace prev cur p (w ++ u :: y)) by exact Hps.
    rewrite (split_scan_nonspace prev cur p []) by exact Hps.
    rewrite split_scan_match by (simpl; auto).
    rewrite (split_scan_nonspace _ [] u y) by exact Hus.
    rewrite (split_scan_nonspace None [] u y) by exact Hus.
    reflexivity.
  - destruct skip as [|k].
    + change ((c :: r) ++ p :: w ++ u :: y) with (c :: (r ++ p :: w ++ u :: y)).
      change ((c :: r) ++ [p]) with (c :: (r ++ [p])).
      cbn [Re.split_scan].
      change (c :: (r ++ p :: w ++ u :: y)) with ((c :: r) ++ p :: w ++ u :: y).
      rewrite (sentence_break_stop prev (c :: r) p (w ++ u :: y)) by exact Hps.
      change ((c :: r) ++ [p]) with (c :: (r ++ [p])).
      destruct (Re.sentence_break prev (c :: r ++ [p])) as [[|k]|] eqn:E.
      * apply IH. lia.
      * apply sentence_break_run in E. destruct E as [E _].
        change (c :: r ++ [p]) with ((c :: r) ++ [p]) in E.
        rewrite ws_run_stop in E by exact Hps.
        simpl in E. destruct (Char.isspace c); [|discriminate].
        injection E as E. simpl. f_equal. apply IH. lia.
      * apply IH. lia.
    + simpl in Hskip. destruct (Char.isspace c) eqn:Hc; [|lia].
      simpl. apply IH. lia.
Qed.

Lemma split_sentences_break (x : str) (p : ascii) (w : str) (u : ascii) (y : str) :
  is_break p w u ->
  Re.split_sentences (x ++ p :: w ++ u :: y)
  = Re.split_sentences (x ++ [p]) ++ Re.split_sentences (u :: y).
Proof.
  intros H. unfold Re.split_sentences. apply split_scan_break; [exact H | lia].
Qed.

(** Without a boundary the text is one piece. *)
Lemma split_scan_whole (s t : str) :
  no_break (t ++ s) ->
  Re.split_scan 0 (last_of None t) (rev t) s = [t ++ s].
Proof.
  revert t. induction s as [|c r IH]; intros t H.
  - simpl. rewrite rev_involutive, app_nil_r. reflexivity.
  - destruct (Re.sentence_break (last_of None t) (c :: r)) as [n|] eqn:E.
    + exfalso. apply sentence_break_Some in E.
      destruct E as [Ht (w & u & y & Es & Hw & A & Hu & _)].
      destruct (rev t) as [|p t'] eqn:Et.
      * apply (f_equal (@rev ascii)) in Et. rewrite rev_involutive in Et.
        subst t. discriminate Ht.
      * apply (f_equal (@rev ascii)) in Et. rewrite rev_involutive in Et.
        simpl in Et. subst t. rewrite last_of_snoc in Ht. simpl in Ht.
        apply (H (rev t') p w u y).
        -- rewrite <- app_assoc. simpl. rewrite Es. reflexivity.
        -- repeat split; assumption.
    + rewrite split_scan_no_match by exact E.
      specialize (IH (t ++ [c])).
      rewrite last_of_snoc, rev_app_distr, <- app_assoc in IH.
      apply IH. exact H.
Qed.

Lemma split_sentences_whole (s : str) :
  no_break s -> Re.split_sentences s = [s].
Proof. intros H. apply (split_scan_whole s []). exact H. Qed.

(** A text has no boundary, or it has a first one. *)
Lemma first_break (s : str) :
  no_break s \/
  exists x p w u y, s = x ++ p :: w ++ u :: y /\ is_break p w u
                    /\ no_break (x ++ [p]).
Proof.
  induction s as [|c r IH].
  - left. intros x p w u y E. destruct x; discriminate E.
  - destruct (Re.sentence_break (Some c) r) as [n|] eqn:E.
    + right. apply sentence_break_Some in E.
      destruct E as [Hc (w & u & y & Es & Hw & A & Hu & _)].
      exists [], c, w, u, y. simpl. repeat split; try assumption.
      * rewrite Es. reflexivity.
      * intros x p w' u' y' E'. apply (f_equal (@length ascii)) in E'.
        rewrite length_app in E'. simpl in E'. rewrite length_app in E'.
        simpl in E'. lia.
    + assert (Hhead : forall w u y, r = w ++ u :: y -> ~ is_break c w u).
      { intros w u y -> (Hc & Hw & A & Hu).
        rewrite sentence_break_intro in E by assumption. discriminate E. }
      destruct IH as [IH | (x & p & w & u & y & -> & Hb & Hx)].
      * left. intros x p w u y E'. destruct x as [|d x]; simpl in E'.
        -- injection E' as -> ->. apply Hhead with (y := y). reflexivity.
        -- injection E' as -> ->. apply (IH x p w u y). reflexivity.
      * right. exists (c :: x), p, w, u, y. repeat split; try apply Hb.
        intros x' p' w' u' y' E'. destruct x' as [|d x']; simpl in E'.
        -- injection E' as -> E'. intros Hb'.
           apply (Hhead w' u' (y' ++ w ++ u :: y)); [|exact Hb'].
           assert (x ++ p :: w ++ u :: y = (x ++ [p]) ++ w ++ u :: y) as ->
               by (rewrite <- app_assoc; reflexivity).
           rewrite E', <- app_assoc. reflexivity.
        -- injection E' as -> E'. apply (Hx x' p' w' u' y'). exact E'.
Qed.

Lemma Segments_split (s : str) : Segments s (Re.split_sentences s).
Proof.
  remember (length s) as n eqn:En. revert s En.
  induction n as [n IH] using lt_wf_ind. intros s ->.
  destruct (first_break s) as [H | (x & p & w & u & y & -> & Hb & Hx)].
  - rewrite split_sentences_whole by exact H. constructor. exact H.
  - rewrite split_sentences_break by exact Hb.
    rewrite (split_sentences_whole (x ++ [p])) by exact Hx.
    simpl. constructor; try assumption.
    apply (IH (length (u :: y))); [|reflexivity].
    rewrite !length_app. simpl. rewrite length_app. simpl. lia.
Qed.

Lemma Segments_unique (s : str) (l : list str) :
  Segments s l -> l = Re.split_sentences s.
Proof.
  induction 1 as [s H | x p w u y rest Hb Hx _ IH].
  - symmetry. apply split_sentences_whole. exact H.
  - rewrite split_sentences_break by exact Hb.
    rewrite (split_sentences_whole (x ++ [p])) by exact Hx.
    simpl. f_equal. exact IH.
Qed.

(** C3 (as amended). For every input text, the whitespace-normalised text
    is cut exactly at the boundaries where a terminal mark (. ! ?) is
    followed by whitespace and then a letter of A-Z: its pieces are the ones
    [Segments] describes and no others.  At a boundary only the whitespace
    is dropped; the terminal mark is the last character of the piece before
    the cut, the capital letter is the first of the next.  The sentences
    returned are the pieces, stripped, that are longer than 10. *)
Theorem split_into_sentences_boundaries (text : str) :
  let cleaned_text := Re.sub_ws (lit " ") (Str.strip text) in
  exists pieces,
    Segments cleaned_text pieces
    /\ (forall l, Segments cleaned_text l -> l = pieces)
    /\ PDFReader.split_into_sentences text = flat_map kept_piece pieces.
Proof.
  intros cleaned_text. exists (Re.split_sentences cleaned_text).
  split; [apply Segments_split|]. split; [apply Segments_unique|].
  unfold PDFReader.split_into_sentences. fold cleaned_text.
  apply keep_sentences_flat.
Qed.

(** C3, counterexample: in "This is sentence one. This is sentence two!"
    the full stop of the boundary is kept, at the end of the first
    sentence. *)
Lemma split_keeps_terminal_punctuation :
  is_break "."%char (lit " ") "T"%char
  /\ PDFReader.split_into_sentences
       (lit "This is sentence one" ++ "."%char :: lit " "
            ++ "T"%char :: lit "his is sentence two!")
     = [lit "This is sentence one."; lit "This is sentence two!"]
  /\ ~ punctuation_consumed (lit "This is sentence one") "."%char (lit " ")
                            "T"%char (lit "his is sentence two!").
Proof.
  split; [|split].
  - repeat split; try reflexivity; [discriminate|].
    constructor; [reflexivity | constructor].
  - vm_compute. reflexivity.
  - unfold punctuation_consumed. vm_compute. discriminate.
Qed.

(** ** Keyword search *)

Lemma last_of_app (prev : option ascii) (a b : str) :
  last_of prev (a ++ b) = last_of (last_of prev a) b.
Proof. unfold last_of. apply fold_left_app. Qed.

Lemma last_of_cons_any (x y : option ascii) (c : ascii) (r : str) :
  last_of x (c :: r) = last_of y (c :: r).
Proof. reflexivity. Qed.

Lemma match_literal_spec (l s : str) (prev last : option ascii) (rest : str) :
  Re.match_literal prev l s = Some (last, rest)
  <-> s = l ++ rest /\ last = last_of prev l.
Proof.
  revert s prev. induction l as [|k l IH]; intros s prev; simpl.
  - split.
    + intros [= <- <-]. auto.
    + intros [-> ->]. reflexivity.
  - destruct s as [|c r].
    + split; [discriminate | intros [E _]; discriminate E].
    + destruct (Ascii.eqb k c) eqn:Ek.
      * apply Ascii.eqb_eq in Ek. subst c. rewrite IH. split.
        -- intros [-> ->]. auto.
        -- intros [[= ->] ->]. auto.
      * apply Ascii.eqb_neq in Ek. split; [discriminate|].
        intros [[= <- _] _]. contradiction.
Qed.

Lemma match_word_here_spec (kw : str) (prev : option ascii) (t : str) :
  Re.match_word_here kw prev t = true <-> exists post, occurs_at kw prev t [] post.
Proof.
  unfold Re.match_word_here, occurs_at. split.
  - intros H. apply andb_prop in H. destruct H as [H1 H2].
    destruct (Re.match_literal prev kw t) as [[last rest]|] eqn:E; [|discriminate].
    apply match_literal_spec in E. destruct E as [-> ->].
    exists rest. simpl. auto.
  - intros [post (-> & H1 & H2)]. simpl in *. rewrite H1. simpl.
    destruct (Re.match_literal prev kw (kw ++ post)) as [[last rest]|] eqn:E.
    + apply match_literal_spec in E. destruct E as [E ->].
      apply app_inv_head in E. subst rest. exact H2.
    + assert (E' : Re.match_literal prev kw (kw ++ post)
                   = Some (last_of prev kw, post))
        by (apply match_literal_spec; auto).
      rewrite E in E'. discriminate E'.
Qed.

Lemma search_word_spec (kw : str) (t : str) (prev : option ascii) :
  Re.search_word kw prev t = true <-> exists pre post, occurs_at kw prev t pre post.
Proof.
  revert prev. induction t as [|c r IH]; intros prev.
  - simpl. rewrite orb_false_r, match_word_here_spec. split.
    + intros [post H]. exists [], post. exact H.
    + intros (pre & post & H). destruct pre as [|d pre].
      * exists post. exact H.
      * destruct H as [E _]. discriminate E.
  - simpl. rewrite orb_true_iff, match_word_here_spec, IH. split.
    + intros [[post H] | (pre & post & (E & H1 & H2))].
      * exists [], post. exact H.
      * exists (c :: pre), post. subst r. repeat split; assumption.
    + intros (pre & post & (E & H1 & H2)). destruct pre as [|d pre].
      * left. exists post. repeat split; assumption.
      * right. simpl in E. injection E as <- ->.
        exists pre, post. repeat split; assumption.
Qed.

Lemma wordy_nonempty (kw : str) : wordy kw -> kw <> [].
Proof. intros [H _] ->. discriminate H. Qed.

Lemma word_boundary_left (x : option ascii) (y : option ascii) :
  Re.opt_test Char.isword y = true ->
  Re.word_boundary x y = negb (Re.opt_test Char.isword x).
Proof. unfold Re.word_boundary. intros ->. apply xorb_true_r. Qed.

Lemma word_boundary_right (x : option ascii) (y : option ascii) :
  Re.opt_test Char.isword x = true ->
  Re.word_boundary x y = negb (Re.opt_test Char.isword y).
Proof. unfold Re.word_boundary. intros ->. apply xorb_true_l. Qed.

Lemma occurs_at_wordy (kw : str) (prev : option ascii) (t pre post : str) :
  wordy kw ->
  occurs_at kw prev t pre post
  <-> t = pre ++ kw ++ post
      /\ Re.opt_test Char.isword (last_of prev pre) = false
      /\ Re.opt_test Char.isword (Re.head_char post) = false.
Proof.
  intros Hk. pose proof (wordy_nonempty kw Hk) as Hne.
  destruct Hk as [Hh Hl]. unfold occurs_at.
  assert (E1 : Re.head_char (kw ++ post) = Re.head_char kw)
    by (destruct kw; [contradiction | reflexivity]).
  assert (E2 : last_of prev (pre ++ kw) = last_of None kw)
    by (rewrite last_of_app; destruct kw; [contradiction | reflexivity]).
  rewrite E1, E2, word_boundary_left, word_boundary_right by assumption.
  rewrite !negb_true_iff. reflexivity.
Qed.

Lemma ends_outside_word_last (pre : str) :
  ends_outside_word pre <-> Re.opt_test Char.isword (last_of None pre) = false.
Proof.
  unfold ends_outside_word. destruct (rev pre) as [|c q] eqn:E.
  - apply (f_equal (@rev ascii)) in E. rewrite rev_involutive in E. subst pre.
    simpl. split; [reflexivity|]. intros _ pre' c E. destruct pre'; discriminate E.
  - apply (f_equal (@rev ascii)) in E. rewrite rev_involutive in E. simpl in E.
    subst pre. rewrite last_of_snoc. simpl. split.
    + intros H. apply (H (rev q)). reflexivity.
    + intros H pre' d E. apply app_inj_tail in E. destruct E as [_ <-]. exact H.
Qed.

Lemma starts_outside_word_head (post : str) :
  starts_outside_word post <-> Re.opt_test Char.isword (Re.head_char post) = false.
Proof.
  unfold starts_outside_word. destruct post as [|c r]; simpl.
  - split; [reflexivity | discriminate].
  - split.
    + intros H. apply (H c r). reflexivity.
    + intros H d r' [= <- <-]. exact H.
Qed.

Lemma lower_last_of (s : str) :
  Re.opt_test Char.isword (last_of None (Str.lower s))
  = Re.opt_test Char.isword (last_of None s).
Proof.
  destruct (rev s) as [|c q] eqn:E;
    apply (f_equal (@rev ascii)) in E; rewrite rev_involutive in E; subst s.
  - reflexivity.
  - simpl. unfold Str.lower. rewrite map_app. simpl.
    rewrite !last_of_snoc. simpl. apply isword_lower.
Qed.

Lemma lower_head (s : str) :
  Re.opt_test Char.isword (Re.head_char (Str.lower s))
  = Re.opt_test Char.isword (Re.head_char s).
Proof. destruct s; [reflexivity | apply isword_lower]. Qed.

(** The search of the source finds exactly the whole-word, case-insensitive
    occurrences. *)
Lemma keyword_in_spec (keyword sentence : str) :
  wordy keyword ->
  ObligationFinder.keyword_in keyword (Str.lower sentence) = true
  <-> whole_word_match keyword sentence.
Proof.
  intros Hk. unfold ObligationFinder.keyword_in, whole_word_match.
  rewrite search_word_spec. split.
  - intros (pre & post & H). apply occurs_at_wordy in H; [|exact Hk].
    destruct H as (E & H1 & H2). unfold Str.lower in E.
    apply map_eq_app in E. destruct E as (pre0 & r0 & -> & <- & E).
    apply map_eq_app in E. destruct E as (mid0 & post0 & -> & <- & <-).
    exists pre0, mid0, post0. repeat split.
    + apply ends_outside_word_last. rewrite <- lower_last_of. exact H1.
    + apply starts_outside_word_head. rewrite <- lower_head. exact H2.
  - intros (pre & mid & post & -> & <- & H1 & H2).
    exists (Str.lower pre), (Str.lower post). apply occurs_at_wordy; [exact Hk|].
    repeat split.
    + unfold Str.lower. rewrite !map_app. reflexivity.
    + rewrite lower_last_of. apply ends_outside_word_last. exact H1.
    + rewrite lower_head. apply starts_outside_word_head. exact H2.
Qed.

Lemma keywords_wordy (keyword : str) :
  In keyword ObligationFinder.OBLIGATION_KEYWORDS -> wordy keyword.
Proof.
  simpl. intros [<- | [<- | [<- | [<- | []]]]]; split; reflexivity.
Qed.

(** The search of the source on the text it is given. *)
Lemma keyword_in_occurs (keyword text : str) :
  wordy keyword ->
  ObligationFinder.keyword_in keyword text = true <-> occurs_whole keyword text.
Proof.
  intros Hk. unfold ObligationFinder.keyword_in, occurs_whole.
  rewrite search_word_spec. split.
  - intros (pre & post & H). apply occurs_at_wordy in H; [|exact Hk].
    destruct H as (E & H1 & H2). exists pre, post. repeat split.
    + exact E.
    + apply ends_outside_word_last. exact H1.
    + apply starts_outside_word_head. exact H2.
  - intros (pre & post & E & H1 & H2). exists pre, post.
    apply occurs_at_wordy; [exact Hk|]. repeat split.
    + exact E.
    + apply ends_outside_word_last. exact H1.
    + apply starts_outside_word_head. exact H2.
Qed.

(** ** Step A: the keyword match *)

Section KeywordLoops.

Variable sentence_lower : str.

Let hit (keyword : str) : bool :=
  ObligationFinder.keyword_in keyword sentence_lower.

Lemma any_keyword_existsb (keywords : list str) :
  ObligationFinder.any_keyword keywords sentence_lower = existsb hit keywords.
Proof.
  induction keywords as [|k ks IH]; simpl; [reflexivity|].
  unfold hit at 1. destruct (ObligationFinder.keyword_in k sentence_lower);
    [reflexivity | exact IH].
Qed.

Lemma find_keywords_filter (keywords found : list str) :
  ObligationFinder.find_keywords keywords sentence_lower found
  = found ++ List.filter hit keywords.
Proof.
  revert found. induction keywords as [|k ks IH]; intros found; simpl.
  - rewrite app_nil_r. reflexivity.
  - unfold hit at 1. destruct (ObligationFinder.keyword_in k sentence_lower).
    + rewrite IH, <- app_assoc. reflexivity.
    + apply IH.
Qed.

Lemma existsb_filter_nil (keywords : list str) :
  existsb hit keywords = false <-> List.filter hit keywords = [].
Proof.
  induction keywords as [|k ks IH]; simpl; [tauto|].
  destruct (hit k); simpl; [|exact IH]. split; discriminate.
Qed.

End KeywordLoops.

Lemma Matched_filter (sentence : str) (keywords found : list str) :
  (forall k, In k keywords -> wordy k) ->
  Matched sentence keywords found
  <-> found = List.filter
                (fun k => ObligationFinder.keyword_in k (Str.lower sentence))
                keywords.
Proof.
  intros Hw. split.
  - induction 1 as [|k ks found Hk _ IH|k ks found Hk _ IH]; simpl.
    + reflexivity.
    + apply keyword_in_spec in Hk; [|apply Hw; left; reflexivity].
      rewrite Hk. f_equal. apply IH. intros k' Hk'. apply Hw. right. exact Hk'.
    + destruct (ObligationFinder.keyword_in k (Str.lower sentence)) eqn:E.
      * exfalso. apply Hk. apply keyword_in_spec; [|exact E].
        apply Hw. left. reflexivity.
      * apply IH. intros k' Hk'. apply Hw. right. exact Hk'.
  - intros ->. induction keywords as [|k ks IH]; simpl; [constructor|].
    assert (Hks : forall k', In k' ks -> wordy k')
      by (intros k' Hk'; apply Hw; right; exact Hk').
    destruct (ObligationFinder.keyword_in k (Str.lower sentence)) eqn:E.
    + apply matched_hit; [|apply IH; exact Hks].
      apply keyword_in_spec; [apply Hw; left; reflexivity | exact E].
    + apply matched_miss; [|apply IH; exact Hks].
      intros Hk. apply keyword_in_spec in Hk; [|apply Hw; left; reflexivity].
      rewrite E in Hk. discriminate Hk.
Qed.

Lemma make_obligation_record (sentence : str) (found : list str) :
  ObligationFinder.make_obligation sentence found = candidate_record sentence found.
Proof.
  unfold ObligationFinder.make_obligation, candidate_record.
  rewrite insert_empty. apply insert_insert_ne. discriminate.
Qed.

Lemma extract_loop_flat (sentences : list str) (obligations : list dict) :
  ObligationFinder.extract_loop sentences obligations
  = obligations ++ flat_map candidate_of sentences.
Proof.
  revert obligations. induction sentences as [|s ss IH]; intros obligations;
    cbn [ObligationFinder.extract_loop flat_map].
  - rewrite app_nil_r. reflexivity.
  - unfold ObligationFinder.contains_obligation_keyword.
    rewrite any_keyword_existsb, find_keywords_filter, make_obligation_record.
    cbn [app]. unfold candidate_of. fold (found_in s).
    destruct (existsb _ _) eqn:E.
    + rewrite IH, <- app_assoc.
      destruct (found_in s) eqn:F; [|reflexivity].
      exfalso. apply existsb_filter_nil in F. rewrite E in F. discriminate F.
    + apply existsb_filter_nil in E. fold (found_in s) in E.
      rewrite E. apply IH.
Qed.

Lemma extract_obligations_flat (sentences : list str) :
  ObligationFinder.extract_obligations sentences = flat_map candidate_of sentences.
Proof. apply extract_loop_flat. Qed.

(** On sentences of code points below U+0100, where [str.lower] maps
    character by character: a keyword of the set must, shall, required,
    mandatory counts when it occurs in the sentence as a whole word,
    whatever the case of its letters; a sentence without such an occurrence
    gives no record, any other gives the record of its stripped text with
    the keywords that occur, in the order of the set, joined by a comma and
    a space.  [extract_obligations] returns these records and no others.
    (With U+0130 in the sentence this fails: see the sentences with
    characters above U+00FF below.) *)
Lemma extract_obligations_candidates_latin1 (sentences : list str)
      (records : list dict) :
  ObligationFinder.OBLIGATION_KEYWORDS
  = [lit "must"; lit "shall"; lit "required"; lit "mandatory"]
  /\ (Candidates sentences records
      <-> ObligationFinder.extract_obligations sentences = records).
Proof.
  split; [reflexivity|].
  rewrite extract_obligations_flat. split.
  - induction 1 as [|s ss records Hm _ IH|s ss records found Hm Hne _ IH]; simpl.
    + reflexivity.
    + apply Matched_filter in Hm; [|apply keywords_wordy].
      unfold candidate_of, found_in. change ObligationFinder.OBLIGATION_KEYWORDS
        with [lit "must"; lit "shall"; lit "required"; lit "mandatory"].
      rewrite <- Hm. exact IH.
    + apply Matched_filter in Hm; [|apply keywords_wordy].
      unfold candidate_of, found_in. change ObligationFinder.OBLIGATION_KEYWORDS
        with [lit "must"; lit "shall"; lit "required"; lit "mandatory"].
      rewrite <- Hm. destruct found; [contradiction|]. simpl. f_equal. exact IH.
  - intros <-. induction sentences as [|s ss IH]; simpl; [constructor|].
    assert (Hm : Matched s [lit "must"; lit "shall"; lit "required"; lit "mandatory"]
                         (found_in s))
      by (apply Matched_filter; [apply keywords_wordy | reflexivity]).
    unfold candidate_of. destruct (found_in s) as [|k found] eqn:F.
    + simpl. apply cand_drop; assumption.
    + simpl. apply cand_keep; [exact Hm | discriminate | exact IH].
Qed.

(** ** Step B: the quality filter *)

Lemma below_half_alphabetic_Z (text : str) :
  below_half_alphabetic text <-> (2 * Str.count_alpha text < Str.len text)%Z.
Proof.
  unfold below_half_alphabetic, Qlt. simpl. lia.
Qed.

Lemma Verdict_functional (min_length : Z) (text : str)
      (v v' : option ObligationFinder.rejection) :
  Verdict min_length text v -> Verdict min_length text v' -> v = v'.
Proof.
  destruct 1; destruct 1; try reflexivity; try contradiction;
    try lia; exfalso; tauto.
Qed.

Lemma quality_check_Verdict (text : str) (min_length : Z) :
  Verdict min_length text (ObligationFinder.quality_check text min_length).
Proof.
  unfold ObligationFinder.quality_check.
  destruct (Z.ltb_spec (Str.len text) min_length) as [H1|H1].
  { constructor. exact H1. }
  assert (N1 : ~ (Str.len text < min_length)%Z) by lia.
  destruct (Str.isupper text) eqn:Hu;
    destruct (Z.ltb_spec (Str.len text) 100) as [H2|H2]; cbn [andb].
  { constructor; auto. }
  all: assert (N2 : ~ (Str.isupper text = true /\ (Str.len text < 100)%Z))
    by (intros [A B]; try lia; congruence).
  all: destruct (Z.ltb_spec (2 * Str.count_alpha text) (Str.len text)) as [H3|H3].
  all: constructor; try assumption; rewrite below_half_alphabetic_Z; lia.
Qed.

Lemma quality_check_verdict (text : str) (min_length : Z)
      (v : option ObligationFinder.rejection) :
  ObligationFinder.quality_check text min_length = v <-> Verdict min_length text v.
Proof.
  split.
  - intros <-. apply quality_check_Verdict.
  - intros H. eapply Verdict_functional; [apply quality_check_Verdict | exact H].
Qed.

Lemma filter_loop_spec (min_length : Z) (obligations filtered out : list dict) :
  ObligationFinder.filter_loop obligations min_length filtered = Ok out
  <-> exists kept, out = filtered ++ kept /\ Filtered min_length obligations kept.
Proof.
  revert filtered out. induction obligations as [|ob rest IH]; intros filtered out.
  - simpl. split.
    + intros [= <-]. exists []. rewrite app_nil_r. split; [reflexivity|constructor].
    + intros (kept & -> & H). inversion H. rewrite app_nil_r. reflexivity.
  - cbn [ObligationFinder.filter_loop]. unfold getitem.
    destruct (ob !! "text") as [text|] eqn:Et; cbn [bind].
    + destruct (ObligationFinder.quality_check text min_length) as [why|] eqn:Eq;
        rewrite IH; apply quality_check_verdict in Eq.
      * split.
        -- intros (kept & -> & H). exists kept. split; [reflexivity|].
           eapply filtered_drop; eassumption.
        -- intros (kept & -> & H). exists kept. split; [reflexivity|].
           inversion H as [|? t ? ? ? Et' Hv Hf|? t ? ? Et' Hv Hf]; subst.
           ++ exact Hf.
           ++ rewrite Et in Et'. injection Et' as <-.
              apply quality_check_verdict in Eq, Hv. congruence.
      * split.
        -- intros (kept & -> & H). exists (ob :: kept).
           rewrite <- app_assoc. split; [reflexivity|].
           eapply filtered_keep; eassumption.
        -- intros (kept & -> & H).
           inversion H as [|? t ? ? ? Et' Hv Hf|? t ? ? Et' Hv Hf]; subst.
           ++ rewrite Et in Et'. injection Et' as <-.
              apply quality_check_verdict in Eq, Hv. congruence.
           ++ exists kept0. rewrite <- app_assoc. split; [reflexivity | exact Hf].
    + split; [discriminate|]. intros (kept & _ & H).
      inversion H; congruence.
Qed.

Lemma filter_obligations_Filtered (obligations kept : list dict) (min_length : Z) :
  ObligationFinder.filter_obligations obligations min_length = Ok kept
  <-> Filtered min_length obligations kept.
Proof.
  unfold ObligationFinder.filter_obligations. rewrite filter_loop_spec. split.
  - intros (k & -> & H). exact H.
  - intros H. exists kept. split; [reflexivity | exact H].
Qed.

(** C2. The filter applies three tests to the text of each record, in
    order, the first failing one dropping the record: the length below the
    minimum (20 when the caller gives none); else the whole text upper-case
    and shorter than 100; else fewer alphabetic characters than 50% of the
    length.  A record that passes the three is kept.  [filter_obligations]
    returns exactly the records [Filtered] describes. *)
Theorem filter_obligations_three_tests (obligations kept : list dict)
        (min_length : Z) (text : str) (v : option ObligationFinder.rejection) :
  ObligationFinder.default_min_length = 20%Z
  /\ (ObligationFinder.quality_check text min_length = v
      <-> Verdict min_length text v)
  /\ (ObligationFinder.filter_obligations obligations min_length = Ok kept
      <-> Filtered min_length obligations kept).
Proof.
  split; [reflexivity|]. split; [apply quality_check_verdict|].
  apply filter_obligations_Filtered.
Qed.

Lemma Filtered_sublist (min_length : Z) (records kept : list dict) :
  Filtered min_length records kept -> sublist kept records.
Proof.
  induction 1; [constructor | apply sublist_cons | apply sublist_skip]; assumption.
Qed.

Lemma Filtered_total (min_length : Z) (records : list dict) :
  (forall record, In record records -> is_Some (record !! "text")) ->
  exists kept, Filtered min_length records kept.
Proof.
  induction records as [|r rs IH]; intros H.
  - exists []. constructor.
  - destruct IH as [kept Hk]; [intros r' Hr'; apply H; right; exact Hr'|].
    destruct (H r) as [text Et]; [left; reflexivity|].
    pose proof (quality_check_Verdict text min_length) as Hv.
    destruct (ObligationFinder.quality_check text min_length) as [why|].
    + exists kept. eapply filtered_drop; eassumption.
    + exists (r :: kept). eapply filtered_keep; eassumption.
Qed.

(** C9. The filter returns a subsequence of its input: the records it
    keeps are records of the input, unchanged, in the order of the input.
    (A record is a dictionary with a text; on such a list the filter
    returns.) *)
Theorem filter_obligations_sublist (obligations : list dict) (min_length : Z) :
  (forall record, In record obligations -> is_Some (record !! "text")) ->
  exists kept,
    ObligationFinder.filter_obligations obligations min_length = Ok kept
    /\ sublist kept obligations.
Proof.
  intros H. destruct (Filtered_total min_length obligations H) as [kept Hk].
  exists kept. split.
  - apply filter_obligations_Filtered. exact Hk.
  - eapply Filtered_sublist. exact Hk.
Qed.

Lemma filter_obligations_sublist_witness :
  exists kept,
    ObligationFinder.filter_obligations
      [candidate_record (lit "Short") [lit "must"];
       candidate_record (lit "TITLE: SECURITY REQUIREMENTS") [lit "required"];
       candidate_record
         (lit "This is a proper obligation that must be followed by all users.")
         [lit "must"]] 20
    = Ok kept
    /\ sublist kept
         [candidate_record (lit "Short") [lit "must"];
          candidate_record (lit "TITLE: SECURITY REQUIREMENTS") [lit "required"];
          candidate_record
            (lit "This is a proper obligation that must be followed by all users.")
            [lit "must"]].
Proof.
  apply filter_obligations_sublist.
  intros record [<- | [<- | [<- | []]]]; vm_compute; eauto.
Defined.

(** ** Sentences with characters above U+00FF

    The embedding over the wider alphabet agrees with the one over the code
    points below U+0100 on the texts they share. *)

Lemma wide_eqb_eq (a b : Wide.uchar) : Wide.eqb a b = true <-> a = b.
Proof.
  destruct a as [x| | | | |], b as [y| | | | |]; cbn [Wide.eqb];
    try (split; intros H; (reflexivity || discriminate H)).
  rewrite Ascii.eqb_eq. split; [intros ->; reflexivity | intros [= ->]; reflexivity].
Qed.

Lemma wide_cons (c : ascii) (s : str) :
  Wide.wide (c :: s) = Wide.Latin1 c :: Wide.wide s.
Proof. reflexivity. Qed.

Lemma wide_app (s t : str) : Wide.wide (s ++ t) = Wide.wide s ++ Wide.wide t.
Proof. apply map_app. Qed.

Lemma wide_lower (s : str) : Wide.str_lower (Wide.wide s) = Wide.wide (Str.lower s).
Proof.
  induction s as [|c r IH]; [reflexivity|].
  rewrite wide_cons. unfold Wide.str_lower in *. cbn [flat_map Wide.lower app].
  rewrite IH. reflexivity.
Qed.

Lemma wide_opt_isword (p : option ascii) :
  Wide.opt_test Wide.isword (option_map Wide.Latin1 p)
  = Re.opt_test Char.isword p.
Proof. destruct p; reflexivity. Qed.

Lemma wide_head_char (s : str) :
  Wide.head_char (Wide.wide s) = option_map Wide.Latin1 (Re.head_char s).
Proof. destruct s; reflexivity. Qed.

Lemma wide_word_boundary (p q : option ascii) :
  Wide.word_boundary (option_map Wide.Latin1 p) (option_map Wide.Latin1 q)
  = Re.word_boundary p q.
Proof.
  unfold Wide.word_boundary, Re.word_boundary. rewrite !wide_opt_isword.
  reflexivity.
Qed.

Lemma wide_match_literal (kw : str) (prev : option ascii) (s : str) :
  Wide.match_literal (option_map Wide.Latin1 prev) (Wide.wide kw) (Wide.wide s)
  = option_map (fun found => (option_map Wide.Latin1 (fst found),
                              Wide.wide (snd found)))
               (Re.match_literal prev kw s).
Proof.
  revert prev s. induction kw as [|k kw IH]; intros prev s; [reflexivity|].
  destruct s as [|c r]; [reflexivity|].
  rewrite !wide_cons. cbn [Wide.match_literal Re.match_literal Wide.eqb].
  destruct (Ascii.eqb k c); [|reflexivity].
  apply (IH (Some c) r).
Qed.

Lemma wide_match_word_here (kw : str) (prev : option ascii) (s : str) :
  Wide.match_word_here (Wide.wide kw) (option_map Wide.Latin1 prev) (Wide.wide s)
  = Re.match_word_here kw prev s.
Proof.
  unfold Wide.match_word_here, Re.match_word_here.
  rewrite wide_match_literal, wide_head_char, wide_word_boundary.
  destruct (Re.match_literal prev kw s) as [[last rest]|]; cbn [option_map fst snd];
    [|reflexivity].
  rewrite wide_head_char, wide_word_boundary. reflexivity.
Qed.

Lemma wide_search_word (kw : str) (prev : option ascii) (s : str) :
  Wide.search_word (Wide.wide kw) (option_map Wide.Latin1 prev) (Wide.wide s)
  = Re.search_word kw prev s.
Proof.
  revert prev. induction s as [|c r IH]; intros prev.
  - change (Wide.wide []) with (@nil Wide.uchar).
    cbn [Wide.search_word Re.search_word].
    rewrite <- wide_match_word_here. reflexivity.
  - rewrite wide_cons. cbn [Wide.search_word Re.search_word].
    rewrite <- (IH (Some c)), <- wide_match_word_here. reflexivity.
Qed.

Lemma wide_keyword_in (keyword sentence_lower : str) :
  Wide.keyword_in (Wide.wide keyword) (Wide.wide sentence_lower)
  = ObligationFinder.keyword_in keyword sentence_lower.
Proof. apply (wide_search_word keyword None sentence_lower). Qed.

Lemma wide_any_keyword (keywords : list str) (sentence_lower : str) :
  Wide.any_keyword (map Wide.wide keywords) (Wide.wide sentence_lower)
  = ObligationFinder.any_keyword keywords sentence_lower.
Proof.
  induction keywords as [|k ks IH]; [reflexivity|].
  cbn [map Wide.any_keyword ObligationFinder.any_keyword].
  rewrite wide_keyword_in, IH. reflexivity.
Qed.

Lemma wide_contains_obligation_keyword (sentence : str) :
  Wide.contains_obligation_keyword (Wide.wide sentence)
  = ObligationFinder.contains_obligation_keyword sentence.
Proof.
  unfold Wide.contains_obligation_keyword,
    ObligationFinder.contains_obligation_keyword, Wide.OBLIGATION_KEYWORDS.
  cbv zeta. rewrite wide_lower. apply wide_any_keyword.
Qed.

Lemma wide_find_keywords (keywords : list str) (sentence_lower : str)
      (found_keywords : list str) :
  Wide.find_keywords (map Wide.wide keywords) (Wide.wide sentence_lower)
                     (map Wide.wide found_keywords)
  = map Wide.wide
        (ObligationFinder.find_keywords keywords sentence_lower found_keywords).
Proof.
  revert found_keywords. induction keywords as [|k ks IH]; intros found_keywords;
    [reflexivity|].
  cbn [map Wide.find_keywords ObligationFinder.find_keywords].
  rewrite wide_keyword_in.
  destruct (ObligationFinder.keyword_in k sentence_lower); [|apply IH].
  rewrite <- IH, map_app. reflexivity.
Qed.

Lemma wide_lstrip (s : str) : Wide.lstrip (Wide.wide s) = Wide.wide (Str.lstrip s).
Proof.
  induction s as [|c r IH]; [reflexivity|].
  rewrite wide_cons. cbn [Wide.lstrip Str.lstrip Wide.isspace].
  destruct (Char.isspace c); [exact IH | reflexivity].
Qed.

Lemma wide_strip (s : str) : Wide.strip (Wide.wide s) = Wide.wide (Str.strip s).
Proof.
  unfold Wide.strip, Str.strip, Wide.rstrip, Str.rstrip.
  rewrite wide_lstrip. unfold Wide.wide at 1. rewrite <- map_rev.
  fold (Wide.wide (rev (Str.lstrip s))). rewrite wide_lstrip.
  unfold Wide.wide. rewrite map_rev. reflexivity.
Qed.

Lemma wide_join (sep : str) (parts : list str) :
  Wide.join (Wide.wide sep) (map Wide.wide parts)
  = Wide.wide (Str.join sep parts).
Proof.
  induction parts as [|p ps IH]; [reflexivity|].
  destruct ps as [|q ps]; [reflexivity|].
  change (Wide.join (Wide.wide sep) (map Wide.wide (p :: q :: ps)))
    with (Wide.wide p ++ Wide.wide sep
          ++ Wide.join (Wide.wide sep) (map Wide.wide (q :: ps))).
  rewrite IH.
  change (Str.join sep (p :: q :: ps)) with (p ++ sep ++ Str.join sep (q :: ps)).
  rewrite !wide_app. reflexivity.
Qed.

Lemma wide_make_obligation (sentence : str) (found_keywords : list str) :
  Wide.make_obligation (Wide.wide sentence) (map Wide.wide found_keywords)
  = Wide.wide <$> ObligationFinder.make_obligation sentence found_keywords.
Proof.
  unfold Wide.make_obligation, ObligationFinder.make_obligation.
  rewrite !fmap_insert, fmap_empty, wide_strip.
  rewrite wide_join. reflexivity.
Qed.

Lemma wide_extract_loop (sentences : list str) (obligations : list dict) :
  Wide.extract_loop (map Wide.wide sentences) (map (fmap Wide.wide) obligations)
  = map (fmap Wide.wide) (ObligationFinder.extract_loop sentences obligations).
Proof.
  revert obligations. induction sentences as [|s ss IH]; intros obligations;
    [reflexivity|].
  cbn [map Wide.extract_loop ObligationFinder.extract_loop].
  rewrite wide_contains_obligation_keyword.
  destruct (ObligationFinder.contains_obligation_keyword s); [|apply IH].
  cbv zeta. rewrite <- IH, map_app. cbn [map].
  rewrite wide_lower. unfold Wide.OBLIGATION_KEYWORDS.
  rewrite (wide_find_keywords _ _ []), wide_make_obligation. reflexivity.
Qed.

(** On sentences of code points below U+0100 the two embeddings of
    [extract_obligations] give the same records. *)
Lemma wide_extract_obligations (sentences : list str) :
  Wide.extract_obligations (map Wide.wide sentences)
  = map (fmap Wide.wide) (ObligationFinder.extract_obligations sentences).
Proof. apply (wide_extract_loop sentences []). Qed.

Lemma wide_len (s : str) : Wide.len (Wide.wide s) = Str.len s.
Proof. unfold Wide.len, Str.len, Wide.wide. rewrite length_map. reflexivity. Qed.

Lemma wide_isupper (s : str) : Wide.str_isupper (Wide.wide s) = Str.isupper s.
Proof.
  unfold Wide.str_isupper, Str.isupper. f_equal.
  - induction s as [|c r IH]; [reflexivity|].
    rewrite wide_cons. cbn [forallb]. rewrite IH. reflexivity.
  - induction s as [|c r IH]; [reflexivity|].
    rewrite wide_cons. cbn [existsb]. rewrite IH. reflexivity.
Qed.

Lemma wide_count_alpha (s : str) : Wide.count_alpha (Wide.wide s) = Str.count_alpha s.
Proof.
  induction s as [|c r IH]; [reflexivity|].
  rewrite wide_cons. cbn [Wide.count_alpha Str.count_alpha Wide.isalpha].
  rewrite IH. reflexivity.
Qed.

(** On texts of code points below U+0100 the two embeddings of the quality
    tests give the same verdict. *)
Lemma wide_quality_check (text : str) (min_length : Z) :
  Wide.quality_check (Wide.wide text) min_length
  = ObligationFinder.quality_check text min_length.
Proof.
  unfold Wide.quality_check, ObligationFinder.quality_check.
  rewrite wide_len, wide_isupper, wide_count_alpha. reflexivity.
Qed.

(** *** Sentences without U+0130: the search finds the whole words *)

Lemma lower_one (c : Wide.uchar) :
  c <> Wide.CapitalIDot ->
  exists c', Wide.lower c = [c'] /\ Wide.isword c' = Wide.isword c.
Proof.
  intros Hc. destruct c as [a| | | | |].
  - exists (Wide.Latin1 (Char.lower a)). split; [reflexivity | apply isword_lower].
  - contradiction.
  - eexists. split; reflexivity.
  - eexists. split; reflexivity.
  - eexists. split; reflexivity.
  - eexists. split; reflexivity.
Qed.

Lemma str_lower_cons (c : Wide.uchar) (s : Wide.ustr) :
  Wide.str_lower (c :: s) = Wide.lower c ++ Wide.str_lower s.
Proof. reflexivity. Qed.

Lemma head_lower (s : Wide.ustr) :
  Wide.no_capital_i_dot s ->
  Wide.opt_test Wide.isword (Wide.head_char (Wide.str_lower s))
  = Wide.opt_test Wide.isword (Wide.head_char s).
Proof.
  intros Hs. destruct s as [|c r]; [reflexivity|].
  inversion Hs as [|? ? Hc Hr]; subst.
  destruct (lower_one c Hc) as (c' & E & Hw).
  rewrite str_lower_cons, E. exact Hw.
Qed.

Lemma last_default {A : Type} (l : list A) (x d d' : A) :
  List.last (x :: l) d = List.last (x :: l) d'.
Proof.
  revert x. induction l as [|y l IH]; intros x; [reflexivity|].
  change (List.last (y :: l) d = List.last (y :: l) d'). apply IH.
Qed.

Lemma same_ignoring_case_lower (kw : Wide.ustr) (p : option Wide.uchar)
      (s : Wide.ustr) :
  Wide.no_capital_i_dot s ->
  match Wide.same_ignoring_case kw s with
  | Some rest =>
      Wide.no_capital_i_dot rest
      /\ Wide.match_literal p kw (Wide.str_lower s)
         = Some (List.last (map Some kw) p, Wide.str_lower rest)
  | None => Wide.match_literal p kw (Wide.str_lower s) = None
  end.
Proof.
  revert p s. induction kw as [|k kw IH]; intros p s Hs.
  - split; [exact Hs | reflexivity].
  - destruct s as [|c r]; [reflexivity|].
    inversion Hs as [|? ? Hc Hr]; subst.
    destruct (lower_one c Hc) as (c' & E & _).
    rewrite str_lower_cons. cbn [Wide.same_ignoring_case]. rewrite E.
    cbn [app Wide.match_literal].
    destruct (Wide.eqb c' k) eqn:Ek.
    + apply wide_eqb_eq in Ek. subst c'.
      rewrite (proj2 (wide_eqb_eq k k) eq_refl).
      specialize (IH (Some k) r Hr).
      destruct (Wide.same_ignoring_case kw r) as [rest|]; [|exact IH].
      destruct IH as [Hrest IH]. split; [exact Hrest|]. rewrite IH.
      do 2 f_equal. destruct kw as [|k' kw']; [reflexivity|].
      cbn [map]. rewrite (last_default _ _ (Some k) p). reflexivity.
    + destruct (Wide.eqb k c') eqn:Ek'; [|reflexivity].
      apply wide_eqb_eq in Ek'. subst c'.
      rewrite (proj2 (wide_eqb_eq k k) eq_refl) in Ek. discriminate Ek.
Qed.

Lemma match_word_here_lower (kw : Wide.ustr) (prev prev' : option Wide.uchar)
      (s : Wide.ustr) :
  Wide.opt_test Wide.isword (Wide.head_char kw) = true ->
  (forall p, Wide.opt_test Wide.isword (List.last (map Some kw) p) = true) ->
  Wide.no_capital_i_dot s ->
  Wide.opt_test Wide.isword prev' = Wide.opt_test Wide.isword prev ->
  Wide.match_word_here kw prev' (Wide.str_lower s)
  = negb (Wide.opt_test Wide.isword prev)
    && match Wide.same_ignoring_case kw s with
       | Some rest => negb (Wide.opt_test Wide.isword (Wide.head_char rest))
       | None => false
       end.
Proof.
  intros Hh Hl Hs Hp. unfold Wide.match_word_here.
  pose proof (same_ignoring_case_lower kw prev' s Hs) as H.
  destruct (Wide.same_ignoring_case kw s) as [rest|].
  - destruct H as [Hrest H]. rewrite H.
    assert (Hhead : Wide.opt_test Wide.isword
                      (Wide.head_char (Wide.str_lower s)) = true).
    { destruct kw as [|k kw']; [discriminate Hh|].
      destruct (Wide.str_lower s) as [|d t]; [discriminate H|].
      cbn [Wide.match_literal] in H.
      destruct (Wide.eqb k d) eqn:E; [|discriminate H].
      apply wide_eqb_eq in E. subst d. exact Hh. }
    unfold Wide.word_boundary.
    rewrite Hhead, Hl, Hp, (head_lower rest Hrest).
    destruct (Wide.opt_test Wide.isword prev),
      (Wide.opt_test Wide.isword (Wide.head_char rest)); reflexivity.
  - rewrite H, !andb_false_r. reflexivity.
Qed.

Lemma search_word_lower (kw : Wide.ustr) (s : Wide.ustr)
      (prev prev' : option Wide.uchar) :
  Wide.opt_test Wide.isword (Wide.head_char kw) = true ->
  (forall p, Wide.opt_test Wide.isword (List.last (map Some kw) p) = true) ->
  Wide.no_capital_i_dot s ->
  Wide.opt_test Wide.isword prev' = Wide.opt_test Wide.isword prev ->
  Wide.search_word kw prev' (Wide.str_lower s) = Wide.whole_word_from kw prev s.
Proof.
  intros Hh Hl. revert prev prev'.
  induction s as [|c r IH]; intros prev prev' Hs Hp.
  - cbn [Wide.whole_word_from].
    rewrite <- (match_word_here_lower kw prev prev' [] Hh Hl Hs Hp).
    reflexivity.
  - cbn [Wide.whole_word_from].
    rewrite <- (match_word_here_lower kw prev prev' (c :: r) Hh Hl Hs Hp).
    inversion Hs as [|? ? Hc Hr]; subst.
    destruct (lower_one c Hc) as (c' & E & Hw).
    rewrite str_lower_cons, E. cbn [app Wide.search_word]. f_equal.
    apply IH; [exact Hr | exact Hw].
Qed.

(** On a sentence without U+0130 the search of the source, on the
    lower-cased sentence, finds a keyword exactly when the keyword stands
    in the sentence as a whole word. *)
Lemma keyword_in_whole_word (keyword sentence : Wide.ustr) :
  In keyword Wide.OBLIGATION_KEYWORDS ->
  Wide.no_capital_i_dot sentence ->
  Wide.keyword_in keyword (Wide.str_lower sentence)
  = Wide.occurs_as_whole_word keyword sentence.
Proof.
  intros Hk Hs.
  unfold Wide.OBLIGATION_KEYWORDS, ObligationFinder.OBLIGATION_KEYWORDS in Hk.
  cbn [map In] in Hk.
  destruct Hk as [<- | [<- | [<- | [<- | []]]]];
    (apply search_word_lower;
     [reflexivity | intros p; reflexivity | exact Hs | reflexivity]).
Qed.

Lemma wide_no_capital_i_dot (s : str) : Wide.no_capital_i_dot (Wide.wide s).
Proof.
  unfold Wide.no_capital_i_dot, Wide.wide. apply List.Forall_forall.
  intros c Hc. apply in_map_iff in Hc. destruct Hc as (a & <- & _). discriminate.
Qed.

(** Below U+0100 the whole words of [Wide.occurs_as_whole_word] are those
    of [whole_word_match]. *)
Lemma occurs_as_whole_word_latin1 (keyword sentence : str) :
  In keyword ObligationFinder.OBLIGATION_KEYWORDS ->
  Wide.occurs_as_whole_word (Wide.wide keyword) (Wide.wide sentence) = true
  <-> whole_word_match keyword sentence.
Proof.
  intros Hk.
  rewrite <- keyword_in_whole_word;
    [|apply in_map; exact Hk | apply wide_no_capital_i_dot].
  rewrite wide_lower, wide_keyword_in.
  apply keyword_in_spec, keywords_wordy, Hk.
Qed.

(** *** The search on the lower-cased sentence, with any character *)

Lemma wide_match_literal_spec (l s : Wide.ustr) (prev last : option Wide.uchar)
      (rest : Wide.ustr) :
  Wide.match_literal prev l s = Some (last, rest)
  <-> s = l ++ rest /\ last = Wide.last_of prev l.
Proof.
  revert s prev. induction l as [|k l IH]; intros s prev.
  - cbn [Wide.match_literal app Wide.last_of fold_left]. split.
    + intros [= <- <-]. auto.
    + intros [-> ->]. reflexivity.
  - destruct s as [|c r].
    + split; [discriminate | intros [E _]; discriminate E].
    + cbn [Wide.match_literal]. destruct (Wide.eqb k c) eqn:Ek.
      * apply wide_eqb_eq in Ek. subst c. rewrite IH. split.
        -- intros [-> ->]. auto.
        -- intros [[= ->] ->]. auto.
      * split; [discriminate|]. intros [[= -> _] _].
        rewrite (proj2 (wide_eqb_eq k k) eq_refl) in Ek. discriminate Ek.
Qed.

Lemma wide_match_word_here_spec (kw : Wide.ustr) (prev : option Wide.uchar)
      (t : Wide.ustr) :
  Wide.opt_test Wide.isword (Wide.head_char kw) = true ->
  Wide.opt_test Wide.isword (Wide.last_of None kw) = true ->
  Wide.match_word_here kw prev t = true
  <-> exists post,
        t = kw ++ post
        /\ Wide.opt_test Wide.isword prev = false
        /\ Wide.opt_test Wide.isword (Wide.head_char post) = false.
Proof.
  intros Hh Hl. destruct kw as [|k kw]; [discriminate Hh|].
  unfold Wide.match_word_here, Wide.word_boundary. split.
  - intros H. apply andb_prop in H. destruct H as [H1 H2].
    destruct (Wide.match_literal prev (k :: kw) t) as [[last rest]|] eqn:E;
      [|discriminate H2].
    apply wide_match_literal_spec in E. destruct E as [-> ->].
    exists rest. split; [reflexivity|].
    change (Wide.last_of prev (k :: kw)) with (Wide.last_of None (k :: kw)) in H2.
    change (Wide.head_char ((k :: kw) ++ rest)) with (Wide.head_char (k :: kw)) in H1.
    rewrite Hh in H1. rewrite Hl in H2.
    destruct (Wide.opt_test Wide.isword prev); [discriminate H1|].
    destruct (Wide.opt_test Wide.isword (Wide.head_char rest));
      [discriminate H2|]. split; reflexivity.
  - intros (post & -> & H1 & H2).
    assert (E : Wide.match_literal prev (k :: kw) ((k :: kw) ++ post)
                = Some (Wide.last_of prev (k :: kw), post))
      by (apply wide_match_literal_spec; auto).
    rewrite E.
    change (Wide.last_of prev (k :: kw)) with (Wide.last_of None (k :: kw)).
    change (Wide.head_char ((k :: kw) ++ post)) with (Wide.head_char (k :: kw)).
    rewrite Hh, Hl, H1, H2. reflexivity.
Qed.

Lemma wide_search_word_spec (kw : Wide.ustr) (t : Wide.ustr)
      (prev : option Wide.uchar) :
  Wide.opt_test Wide.isword (Wide.head_char kw) = true ->
  Wide.opt_test Wide.isword (Wide.last_of None kw) = true ->
  Wide.search_word kw prev t = true
  <-> exists pre post,
        t = pre ++ kw ++ post
        /\ Wide.opt_test Wide.isword (Wide.last_of prev pre) = false
        /\ Wide.opt_test Wide.isword (Wide.head_char post) = false.
Proof.
  intros Hh Hl. revert prev. induction t as [|c r IH]; intros prev.
  - cbn [Wide.search_word].
    rewrite orb_false_r, (wide_match_word_here_spec kw prev [] Hh Hl). split.
    + intros (post & E & H1 & H2). exists [], post. auto.
    + intros (pre & post & E & H1 & H2). destruct pre as [|d pre].
      * exists post. auto.
      * discriminate E.
  - cbn [Wide.search_word].
    rewrite orb_true_iff, (wide_match_word_here_spec kw prev (c :: r) Hh Hl), IH.
    split.
    + intros [(post & E & H1 & H2) | (pre & post & E & H1 & H2)].
      * exists [], post. auto.
      * exists (c :: pre), post. subst r. auto.
    + intros (pre & post & E & H1 & H2). destruct pre as [|d pre].
      * left. exists post. auto.
      * right. cbn [app] in E. injection E as <- ->.
        exists pre, post. auto.
Qed.

Lemma wide_last_outside (pre : Wide.ustr) :
  Wide.opt_test Wide.isword (Wide.last_of None pre) = false
  <-> forall pre' c, pre = pre' ++ [c] -> Wide.isword c = false.
Proof.
  destruct (rev pre) as [|c q] eqn:E;
    apply (f_equal (@rev Wide.uchar)) in E; rewrite rev_involutive in E; subst pre.
  - split; [|reflexivity]. intros _ pre' c E. destruct pre'; discriminate E.
  - cbn [rev]. unfold Wide.last_of. rewrite fold_left_app. cbn [fold_left Wide.opt_test].
    split.
    + intros H pre' d E. apply app_inj_tail in E. destruct E as [_ <-]. exact H.
    + intros H. apply (H (rev q)). reflexivity.
Qed.

Lemma wide_head_outside (post : Wide.ustr) :
  Wide.opt_test Wide.isword (Wide.head_char post) = false
  <-> forall c post', post = c :: post' -> Wide.isword c = false.
Proof.
  destruct post as [|c r]; cbn [Wide.head_char Wide.opt_test].
  - split; [discriminate | reflexivity].
  - split.
    + intros H d r' [= <- <-]. exact H.
    + intros H. apply (H c r). reflexivity.
Qed.

Lemma wide_keyword_in_occurs (keyword text : Wide.ustr) :
  In keyword Wide.OBLIGATION_KEYWORDS ->
  Wide.keyword_in keyword text = true <-> Wide.occurs_whole keyword text.
Proof.
  intros Hk. unfold Wide.keyword_in, Wide.occurs_whole.
  rewrite wide_search_word_spec.
  - split; intros (pre & post & E & H1 & H2); exists pre, post;
      (split; [exact E|]); (split; [apply wide_last_outside | apply wide_head_outside]);
      assumption.
  - unfold Wide.OBLIGATION_KEYWORDS, ObligationFinder.OBLIGATION_KEYWORDS in Hk.
    cbn [map In] in Hk. destruct Hk as [<- | [<- | [<- | [<- | []]]]]; reflexivity.
  - unfold Wide.OBLIGATION_KEYWORDS, ObligationFinder.OBLIGATION_KEYWORDS in Hk.
    cbn [map In] in Hk. destruct Hk as [<- | [<- | [<- | [<- | []]]]]; reflexivity.
Qed.

Lemma wide_any_keyword_existsb (keywords : list Wide.ustr)
      (sentence_lower : Wide.ustr) :
  Wide.any_keyword keywords sentence_lower
  = existsb (fun keyword => Wide.keyword_in keyword sentence_lower) keywords.
Proof.
  induction keywords as [|k ks IH]; [reflexivity|].
  cbn [Wide.any_keyword existsb].
  destruct (Wide.keyword_in k sentence_lower); [reflexivity | exact IH].
Qed.

(** C1, where the code departs from it.  The sentence is
    [İmust be followed by all the users.], with U+0130 (a letter and a word
    character) directly before [must]: no keyword stands in it as a whole
    word.  [str.lower] turns U+0130 into [i] followed by the combining mark
    U+0307, which is not a word character, so the pattern [\bmust\b] of
    [contains_obligation_keyword] (written "to avoid partial matches")
    matches after the mark: [extract_obligations] returns a record with
    the keyword [must], and the quality tests keep it. *)
Theorem extract_obligations_partial_match :
  Wide.extract_obligations
    [Wide.CapitalIDot :: Wide.wide (lit "must be followed by all the users.")]
  = [ {[ "text" := Wide.CapitalIDot
                   :: Wide.wide (lit "must be followed by all the users.");
         "keywords" := Wide.wide (lit "must") ]} ]
  /\ Forall (fun keyword =>
               Wide.occurs_as_whole_word
                 keyword
                 (Wide.CapitalIDot
                  :: Wide.wide (lit "must be followed by all the users."))
               = false)
            Wide.OBLIGATION_KEYWORDS
  /\ Wide.isword Wide.CapitalIDot = true
  /\ Wide.str_lower
       (Wide.CapitalIDot :: Wide.wide (lit "must be followed by all the users."))
     = Wide.Latin1 "i"%char :: Wide.CombiningDot
       :: Wide.wide (lit "must be followed by all the users.")
  /\ Wide.isword Wide.CombiningDot = false
  /\ Wide.quality_check
       (Wide.CapitalIDot :: Wide.wide (lit "must be followed by all the users."))
       ObligationFinder.default_min_length
     = None.
Proof.
  split; [vm_compute; reflexivity|].
  split; [repeat constructor|].
  repeat split.
Qed.

(** ** The all-caps test *)

Lemma str_isupper_has_upper (text : Wide.ustr) :
  Wide.str_isupper text = true ->
  exists c, In c text /\ Wide.isupper c = true /\ Wide.iscased c = true.
Proof.
  unfold Wide.str_isupper. intros H. apply andb_prop in H. destruct H as [Hall Hex].
  apply existsb_exists in Hex. destruct Hex as [c [Hin Hc]].
  exists c. split; [exact Hin|]. split; [|exact Hc].
  rewrite forallb_forall in Hall. specialize (Hall c Hin).
  rewrite Hc in Hall. exact Hall.
Qed.

Lemma all_caps_is_upper (text : Wide.ustr) (min_length : Z) :
  Wide.quality_check text min_length = Some ObligationFinder.AllCaps ->
  Wide.str_isupper text = true.
Proof.
  unfold Wide.quality_check.
  destruct (Wide.len text <? min_length)%Z; [discriminate|].
  destruct (Wide.str_isupper text); [reflexivity|]. cbn [andb].
  destruct (2 * Wide.count_alpha text <? Wide.len text)%Z; discriminate.
Qed.

Lemma count_alpha_none (text : Wide.ustr) :
  (forall c, In c text -> Wide.isalpha c = false) -> Wide.count_alpha text = 0%Z.
Proof.
  induction text as [|c r IH]; intros H; [reflexivity|].
  cbn [Wide.count_alpha]. rewrite (H c) by (left; reflexivity).
  rewrite IH; [reflexivity|]. intros d Hd. apply H. right. exact Hd.
Qed.

(** C10 as it stands fails: a text of twenty-five Roman numerals U+2167,
    which are upper-case and are not alphabetic, is rejected by the all-caps
    test although it has no alphabetic character at all. *)
Theorem all_caps_without_letter :
  Wide.quality_check (List.repeat Wide.RomanEight 25)
                     ObligationFinder.default_min_length
  = Some ObligationFinder.AllCaps
  /\ Forall (fun c => Wide.isalpha c = false) (List.repeat Wide.RomanEight 25)
  /\ Wide.count_alpha (List.repeat Wide.RomanEight 25) = 0%Z.
Proof.
  split; [reflexivity|]. split; [repeat constructor | reflexivity].
Qed.

(** C10, amended.  The all-caps test rejects only a text with at least one
    cased character, an upper-case one, which need not be alphabetic.  A
    text made of uncased characters only is never rejected by it, whatever
    its length.  The alphabetic-ratio test may still reject such a text: it
    does when the text has no alphabetic character, is not empty and is not
    shorter than the minimum (digits, punctuation, spaces); a text of
    uncased letters is kept. *)
Theorem all_caps_needs_cased_character (text : Wide.ustr) (min_length : Z) :
  (Wide.quality_check text min_length = Some ObligationFinder.AllCaps ->
   exists c, In c text /\ Wide.isupper c = true /\ Wide.iscased c = true)
  /\ ((forall c, In c text -> Wide.iscased c = false) ->
      Wide.str_isupper text = false
      /\ Wide.quality_check text min_length <> Some ObligationFinder.AllCaps
      /\ ((forall c, In c text -> Wide.isalpha c = false) ->
          (min_length <= Wide.len text)%Z -> text <> [] ->
          Wide.quality_check text min_length
          = Some ObligationFinder.NonAlphabetic))
  /\ (exists letters,
        (forall c, In c letters -> Wide.iscased c = false)
        /\ Wide.quality_check letters ObligationFinder.default_min_length = None).
Proof.
  split; [|split].
  - intros H. apply all_caps_is_upper, str_isupper_has_upper in H. exact H.
  - intros Hun.
    assert (Hup : Wide.str_isupper text = false).
    { destruct (Wide.str_isupper text) eqn:E; [|reflexivity].
      apply str_isupper_has_upper in E. destruct E as (c & Hin & _ & Hc).
      rewrite (Hun c Hin) in Hc. discriminate Hc. }
    split; [exact Hup|]. split.
    + intros H. apply all_caps_is_upper in H. rewrite Hup in H. discriminate H.
    + intros Hal Hlen Hne. unfold Wide.quality_check.
      destruct (Z.ltb_spec (Wide.len text) min_length) as [?|_]; [lia|].
      rewrite Hup, count_alpha_none by exact Hal. cbn [andb].
      change (2 * 0)%Z with 0%Z.
      destruct (Z.ltb_spec 0 (Wide.len text)) as [_|H0]; [reflexivity|].
      destruct text; [contradiction|]. unfold Wide.len in H0. simpl in H0. lia.
  - exists (List.repeat Wide.CjkMiddle 25). split; [|reflexivity].
    intros c Hc. apply repeat_spec in Hc. subst c. reflexivity.
Qed.

Lemma all_caps_needs_cased_character_witness :
  Wide.str_isupper (Wide.wide (lit "123-456-789 / 000-111-222")) = false
  /\ Wide.quality_check (Wide.wide (lit "123-456-789 / 000-111-222")) 20
     <> Some ObligationFinder.AllCaps
  /\ Wide.quality_check (Wide.wide (lit "123-456-789 / 000-111-222")) 20
     = Some ObligationFinder.NonAlphabetic.
Proof.
  destruct (proj1 (proj2 (all_caps_needs_cased_character
                            (Wide.wide (lit "123-456-789 / 000-111-222")) 20)))
    as (A & B & C).
  - intros c Hc. vm_compute in Hc.
    repeat (destruct Hc as [<- | Hc]; [reflexivity|]). contradiction.
  - split; [exact A|]. split; [exact B|].
    apply C; [|vm_compute; discriminate | discriminate].
    intros c Hc. vm_compute in Hc.
    repeat (destruct Hc as [<- | Hc]; [reflexivity|]). contradiction.
Defined.

(** ** The classifier: [process_sentences] *)

Lemma filter_loop_filter (min_length : Z) (obligations filtered : list dict) :
  (forall record, In record obligations -> is_Some (record !! "text")) ->
  ObligationFinder.filter_loop obligations min_length filtered
  = Ok (filtered ++ List.filter (passes min_length) obligations).
Proof.
  revert filtered. induction obligations as [|ob rest IH]; intros filtered H.
  - simpl. rewrite app_nil_r. reflexivity.
  - cbn [ObligationFinder.filter_loop List.filter]. unfold getitem, passes.
    destruct (H ob) as [text Et]; [left; reflexivity|]. rewrite Et. cbn [bind].
    assert (Hrest : forall record, In record rest -> is_Some (record !! "text"))
      by (intros r Hr; apply H; right; exact Hr).
    destruct (ObligationFinder.quality_check text min_length).
    + apply IH. exact Hrest.
    + rewrite IH by exact Hrest. rewrite <- app_assoc. reflexivity.
Qed.

Lemma filter_flat_map {A B : Type} (p : B -> bool) (f : A -> list B) (l : list A) :
  List.filter p (flat_map f l) = flat_map (fun x => List.filter p (f x)) l.
Proof.
  induction l as [|x l IH]; simpl; [reflexivity|].
  rewrite List.filter_app, IH. reflexivity.
Qed.

Lemma candidate_record_text (sentence : str) (found : list str) :
  candidate_record sentence found !! "text" = Some (Str.strip sentence).
Proof. unfold candidate_record. apply lookup_insert_eq. Qed.

Lemma candidate_record_keywords (sentence : str) (found : list str) :
  candidate_record sentence found !! "keywords"
  = Some (Str.join (lit ", ") found).
Proof.
  unfold candidate_record. rewrite lookup_insert_ne by discriminate.
  apply lookup_singleton_eq.
Qed.

Lemma candidate_of_text (sentence : str) (record : dict) :
  In record (candidate_of sentence) -> record !! "text" = Some (Str.strip sentence).
Proof.
  unfold candidate_of. destruct (found_in sentence); [contradiction|].
  intros [<- | []]. apply candidate_record_text.
Qed.

Lemma process_sentences_flat (sentences : list str) :
  ObligationFinder.process_sentences sentences = Ok (flat_map survivors sentences).
Proof.
  unfold ObligationFinder.process_sentences, ObligationFinder.filter_obligations.
  rewrite extract_obligations_flat, filter_loop_filter.
  - rewrite filter_flat_map. reflexivity.
  - intros record H. apply in_flat_map in H. destruct H as [s [_ H]].
    rewrite (candidate_of_text s record H). eexists. reflexivity.
Qed.

Lemma process_sentences_one (sentence : str) :
  ObligationFinder.process_sentences [sentence] = Ok (survivors sentence).
Proof. rewrite process_sentences_flat. simpl. rewrite app_nil_r. reflexivity. Qed.

(** C7. Segmentation and classification return on every input: the
    segmenter is a total function to lists of sentences, the classifier
    never raises (the only operation of it that can, the subscription
    [obligation['text']], finds its key in every record it is given), the
    empty text has no sentence and the empty list no record. *)
Theorem segment_and_classify_total :
  (forall text : str, exists sentences : list str,
      PDFReader.split_into_sentences text = sentences)
  /\ (forall sentences : list str, exists records : list dict,
         ObligationFinder.process_sentences sentences = Ok records)
  /\ PDFReader.split_into_sentences [] = []
  /\ ObligationFinder.process_sentences [] = Ok [].
Proof.
  split; [intros text; eexists; reflexivity|].
  split; [intros sentences; eexists; apply process_sentences_flat|].
  split; [reflexivity|]. reflexivity.
Qed.

(** C5. The records come out in the order of the sentences: when sentence
    [i] stands before sentence [j] and each of them leaves a record, the
    record of [i] stands before the record of [j] in the result; the
    records of the first [i] sentences are the first [p] records. *)
Theorem process_sentences_order (sentences : list str) (i j : nat)
        (si sj : str) (ri rj : dict) :
  i < j ->
  sentences !! i = Some si -> sentences !! j = Some sj ->
  ObligationFinder.process_sentences [si] = Ok [ri] ->
  ObligationFinder.process_sentences [sj] = Ok [rj] ->
  exists records p q,
    ObligationFinder.process_sentences sentences = Ok records
    /\ p < q
    /\ records !! p = Some ri /\ records !! q = Some rj
    /\ ObligationFinder.process_sentences (take i sentences) = Ok (take p records)
    /\ ObligationFinder.process_sentences (take j sentences) = Ok (take q records).
Proof.
  intros Hij Hi Hj Hri Hrj.
  rewrite process_sentences_one in Hri, Hrj.
  injection Hri as Hri. injection Hrj as Hrj.
  pose proof (take_drop_middle sentences j sj Hj) as Ej.
  assert (Hi' : take j sentences !! i = Some si)
    by (rewrite lookup_take_lt by exact Hij; exact Hi).
  pose proof (take_drop_middle (take j sentences) i si Hi') as Ei.
  rewrite take_take, Nat.min_l in Ei by lia.
  set (a := take i sentences) in *.
  set (b := drop (S i) (take j sentences)) in *.
  set (c := drop (S j) sentences) in *.
  exists (flat_map survivors sentences),
         (length (flat_map survivors a)),
         (length (flat_map survivors (take j sentences))).
  rewrite !process_sentences_flat.
  assert (Etj : flat_map survivors (take j sentences)
                = flat_map survivors a ++ ri :: flat_map survivors b).
  { rewrite <- Ei, flat_map_app. simpl. rewrite Hri. reflexivity. }
  assert (Es : flat_map survivors sentences
               = flat_map survivors (take j sentences)
                 ++ rj :: flat_map survivors c).
  { rewrite <- Ej at 1. rewrite flat_map_app. simpl. rewrite Hrj. reflexivity. }
  split; [reflexivity|]. split.
  { rewrite Etj, length_app. simpl. lia. }
  split.
  { rewrite Es, Etj, <- app_assoc. apply list_lookup_middle. reflexivity. }
  split.
  { rewrite Es. apply list_lookup_middle. reflexivity. }
  split.
  - rewrite Es, Etj, <- app_assoc, take_app_length. reflexivity.
  - rewrite Es, take_app_length. reflexivity.
Qed.

Lemma process_sentences_order_witness :
  exists records p q,
    ObligationFinder.process_sentences
      [lit "Users must comply with all security policies.";
       lit "This is just information.";
       lit "The system shall encrypt all data in transit."] = Ok records
    /\ p < q
    /\ records !! p
       = Some (candidate_record
                 (lit "Users must comply with all security policies.")
                 [lit "must"])
    /\ records !! q
       = Some (candidate_record
                 (lit "The system shall encrypt all data in transit.")
                 [lit "shall"])
    /\ ObligationFinder.process_sentences
         (take 0 [lit "Users must comply with all security policies.";
                  lit "This is just information.";
                  lit "The system shall encrypt all data in transit."])
       = Ok (take p records)
    /\ ObligationFinder.process_sentences
         (take 2 [lit "Users must comply with all security policies.";
                  lit "This is just information.";
                  lit "The system shall encrypt all data in transit."])
       = Ok (take q records).
Proof.
  apply (process_sentences_order
           [lit "Users must comply with all security policies.";
            lit "This is just information.";
            lit "The system shall encrypt all data in transit."]
           0 2
           (lit "Users must comply with all security policies.")
           (lit "The system shall encrypt all data in transit.")).
  - lia.
  - reflexivity.
  - reflexivity.
  - vm_compute. reflexivity.
  - vm_compute. reflexivity.
Defined.

(** ** Re-running the classifier on its own texts *)

Lemma search_word_found (kw t : str) :
  wordy kw -> Re.search_word kw None t = true <-> found_whole kw t.
Proof.
  intros Hk. rewrite search_word_spec. unfold found_whole.
  split; intros (pre & post & H); exists pre, post;
    apply (occurs_at_wordy kw None t pre post Hk); exact H.
Qed.

Lemma found_whole_cons_space (kw t : str) (c : ascii) :
  wordy kw -> Char.isspace c = true ->
  found_whole kw (c :: t) <-> found_whole kw t.
Proof.
  intros Hk Hc. pose proof (space_not_word c Hc) as Hnw. split.
  - intros (pre & post & E & H1 & H2). destruct pre as [|d pre].
    + exfalso. destruct Hk as [Hh _]. destruct kw as [|k kw]; [discriminate Hh|].
      simpl in E, Hh. injection E as <- _. congruence.
    + simpl in E. injection E as <- ->. exists pre, post.
      split; [reflexivity|]. split; [|exact H2].
      destruct pre; [reflexivity | exact H1].
  - intros (pre & post & -> & H1 & H2). exists (c :: pre), post.
    split; [reflexivity|]. split; [|exact H2].
    destruct pre; [exact Hnw | exact H1].
Qed.

Lemma found_whole_snoc_space (kw t : str) (c : ascii) :
  wordy kw -> Char.isspace c = true ->
  found_whole kw (t ++ [c]) <-> found_whole kw t.
Proof.
  intros Hk Hc. pose proof (space_not_word c Hc) as Hnw. split.
  - intros (pre & post & E & H1 & H2).
    destruct (rev post) as [|d post'] eqn:Ep;
      apply (f_equal (@rev ascii)) in Ep; rewrite rev_involutive in Ep;
      simpl in Ep; subst post.
    + exfalso. rewrite app_nil_r in E. destruct Hk as [_ Hl].
      destruct (rev kw) as [|l kw'] eqn:Ek;
        apply (f_equal (@rev ascii)) in Ek; rewrite rev_involutive in Ek;
        simpl in Ek; subst kw.
      * discriminate Hl.
      * rewrite last_of_snoc in Hl. simpl in Hl.
        rewrite app_assoc in E. apply app_inj_tail in E. destruct E as [_ <-].
        congruence.
    + rewrite !app_assoc in E. apply app_inj_tail in E. destruct E as [-> <-].
      exists pre, (rev post'). rewrite <- app_assoc.
      split; [reflexivity|]. split; [exact H1|].
      destruct (rev post'); [reflexivity | exact H2].
  - intros (pre & post & -> & H1 & H2). exists pre, (post ++ [c]).
    rewrite <- !app_assoc. split; [reflexivity|]. split; [exact H1|].
    destruct post; [exact Hnw | exact H2].
Qed.

Lemma found_whole_spaces (kw t before after : str) :
  wordy kw -> all_space before -> all_space after ->
  found_whole kw (before ++ t ++ after) <-> found_whole kw t.
Proof.
  intros Hk Hb Ha. induction Hb as [|c before Hc _ IH].
  - simpl. clear -Hk Ha. revert t. induction Ha as [|c after Hc _ IH]; intros t.
    + rewrite app_nil_r. reflexivity.
    + change (c :: after) with ([c] ++ after). rewrite app_assoc, IH.
      apply found_whole_snoc_space; assumption.
  - simpl. rewrite found_whole_cons_space by assumption. exact IH.
Qed.

Lemma strip_split (s : str) :
  exists before after,
    s = before ++ Str.strip s ++ after /\ all_space before /\ all_space after.
Proof.
  destruct (lstrip_split s) as [before [E1 A1]].
  destruct (rstrip_split (Str.lstrip s)) as [after [E2 A2]].
  exists before, after. unfold Str.strip. rewrite <- E2. auto.
Qed.

Lemma all_space_lower (s : str) : all_space s -> all_space (Str.lower s).
Proof.
  induction 1 as [|c s Hc _ IH]; simpl; constructor.
  - rewrite isspace_lower. exact Hc.
  - exact IH.
Qed.

(** Stripping a sentence changes nothing to the keywords found in it. *)
Lemma keyword_in_strip (keyword sentence : str) :
  wordy keyword ->
  ObligationFinder.keyword_in keyword (Str.lower (Str.strip sentence))
  = ObligationFinder.keyword_in keyword (Str.lower sentence).
Proof.
  intros Hk. unfold ObligationFinder.keyword_in.
  destruct (strip_split sentence) as (before & after & E & Hb & Ha).
  apply eq_true_iff_eq. rewrite !search_word_found by exact Hk.
  rewrite E at 2. unfold Str.lower. rewrite !map_app.
  symmetry. apply found_whole_spaces; [exact Hk | |]; apply all_space_lower; assumption.
Qed.

Lemma found_in_strip (sentence : str) :
  found_in (Str.strip sentence) = found_in sentence.
Proof.
  unfold found_in. apply filter_ext_in. intros k Hk.
  apply keyword_in_strip, keywords_wordy. exact Hk.
Qed.

Lemma survivors_strip (sentence : str) :
  survivors (Str.strip sentence) = survivors sentence.
Proof.
  unfold survivors, candidate_of. rewrite found_in_strip.
  unfold candidate_record. rewrite strip_idem. reflexivity.
Qed.

Lemma survivors_at_most_one (sentence : str) :
  survivors sentence = []
  \/ exists record, survivors sentence = [record]
                    /\ record !! "text" = Some (Str.strip sentence).
Proof.
  unfold survivors, candidate_of. destruct (found_in sentence) as [|k found].
  - left. reflexivity.
  - simpl. destruct (passes _ _); [right | left; reflexivity].
    eexists. split; [reflexivity | apply candidate_record_text].
Qed.

Lemma texts_of_app (a b : list dict) (ta tb : list str) :
  texts_of a = Ok ta -> texts_of b = Ok tb -> texts_of (a ++ b) = Ok (ta ++ tb).
Proof.
  revert ta. induction a as [|r a IH]; intros ta; simpl.
  - intros [= <-] H. exact H.
  - destruct (getitem r "text") as [text|]; simpl; [|discriminate].
    destruct (texts_of a) as [ta'|]; simpl; [|discriminate].
    intros [= <-] Hb. rewrite (IH ta') by auto. reflexivity.
Qed.

(** C4. Classifying the texts of the records the classifier returned gives
    the same records again. *)
Theorem process_sentences_idempotent (sentences : list str) :
  exists records texts,
    ObligationFinder.process_sentences sentences = Ok records
    /\ texts_of records = Ok texts
    /\ ObligationFinder.process_sentences texts = Ok records.
Proof.
  exists (flat_map survivors sentences).
  assert (H : exists texts,
             texts_of (flat_map survivors sentences) = Ok texts
             /\ flat_map survivors texts = flat_map survivors sentences).
  { induction sentences as [|s ss (texts & Ht & Hs)].
    - exists []. split; reflexivity.
    - simpl. destruct (survivors_at_most_one s) as [E | (r & E & Er)]; rewrite E.
      + exists texts. split; assumption.
      + exists (Str.strip s :: texts). split.
        * apply (texts_of_app [r] _ [Str.strip s] texts); [|exact Ht].
          simpl. unfold getitem. rewrite Er. reflexivity.
        * simpl. rewrite survivors_strip, E, Hs. reflexivity. }
  destruct H as (texts & Ht & Hs). exists texts.
  rewrite !process_sentences_flat, Hs. auto.
Qed.

(** ** The export rows *)

Lemma decimal_nonempty (n : nat) : ExcelExporter.decimal n <> [].
Proof.
  unfold ExcelExporter.decimal, lit.
  destruct (Nat.to_uint n); simpl; discriminate.
Qed.

Lemma value_of_decimal (n : nat) : value_of (ExcelExporter.decimal n) = Some n.
Proof.
  unfold value_of, ExcelExporter.decimal, lit.
  rewrite string_of_list_ascii_of_string.
  pose proof (Unsigned.of_to n) as E.
  destruct (Nat.to_uint n) as [|d|d|d|d|d|d|d|d|d|d] eqn:Ed;
    [rewrite <- E; reflexivity | ..];
    rewrite NilZero.usu by discriminate; simpl; rewrite E; reflexivity.
Qed.

Lemma value_of_zero (digits : str) :
  digits <> [] -> value_of ("0"%char :: digits) = value_of digits.
Proof.
  intros Hne. unfold value_of. destruct digits as [|c r]; [contradiction|].
  cbn [string_of_list_ascii NilZero.uint_of_string NilEmpty.uint_of_string].
  destruct (uint_of_char c (NilEmpty.uint_of_string (string_of_list_ascii r)));
    reflexivity.
Qed.

Lemma value_of_zeros (k : nat) (digits : str) :
  digits <> [] -> value_of (repeat "0"%char k ++ digits) = value_of digits.
Proof.
  intros Hne. induction k as [|k IH]; [reflexivity|].
  simpl. rewrite value_of_zero; [exact IH|].
  destruct k; simpl; [exact Hne | discriminate].
Qed.

Lemma decimal_length_small (n : nat) :
  n < 1000 -> length (ExcelExporter.decimal n) <= 3.
Proof.
  intros H.
  assert (Hall : forallb (fun k => length (ExcelExporter.decimal k) <=? 3)
                         (List.seq 0 1000) = true) by (vm_compute; reflexivity).
  rewrite forallb_forall in Hall. apply Nat.leb_le, Hall, in_seq. lia.
Qed.

(** The number of an identifier: at least three digits, exactly three below
    1000, standing for [n]. *)
Lemma format_03d_spec (n : nat) :
  3 <= length (ExcelExporter.format_03d n)
  /\ (n < 1000 -> length (ExcelExporter.format_03d n) = 3)
  /\ value_of (ExcelExporter.format_03d n) = Some n.
Proof.
  unfold ExcelExporter.format_03d. cbv zeta.
  rewrite length_app, repeat_length. split; [lia|]. split.
  - intros H. apply decimal_length_small in H. lia.
  - rewrite value_of_zeros by apply decimal_nonempty. apply value_of_decimal.
Qed.

Lemma rows_loop_rows (obligations : list dict) (i : nat) (source : str)
      (data : list dict) :
  (forall record, In record obligations -> is_Some (record !! "text")) ->
  ExcelExporter.rows_loop obligations i source data
  = Ok (data ++ rows_from i source obligations).
Proof.
  revert i data. induction obligations as [|ob rest IH]; intros i data H.
  - simpl. rewrite app_nil_r. reflexivity.
  - cbn [ExcelExporter.rows_loop rows_from]. unfold getitem, get.
    destruct (H ob) as [text Et]; [left; reflexivity|]. rewrite Et. cbn [bind].
    rewrite IH by (intros r Hr; apply H; right; exact Hr).
    rewrite <- app_assoc. reflexivity.
Qed.

Lemma rows_loop_Ok (obligations : list dict) (i : nat) (source : str)
      (data rows : list dict) :
  ExcelExporter.rows_loop obligations i source data = Ok rows ->
  rows = data ++ rows_from i source obligations.
Proof.
  revert i data. induction obligations as [|ob rest IH]; intros i data.
  - simpl. intros [= <-]. rewrite app_nil_r. reflexivity.
  - cbn [ExcelExporter.rows_loop rows_from]. unfold getitem, get.
    destruct (ob !! "text") as [text|]; cbn [bind]; [|discriminate].
    intros H. apply IH in H. rewrite H, <- app_assoc. reflexivity.
Qed.

Lemma rows_from_lookup (obligations : list dict) (i k : nat) (source : str)
      (ob : dict) :
  obligations !! k = Some ob ->
  rows_from i source obligations !! k
  = Some (ExcelExporter.make_row (i + k) (get ob "text" []) ob source).
Proof.
  revert i k. induction obligations as [|o rest IH]; intros i k H.
  - destruct k; discriminate H.
  - destruct k as [|k]; simpl in *.
    + injection H as ->. rewrite Nat.add_0_r. reflexivity.
    + rewrite (IH (S i) k H). replace (i + S k) with (S i + k) by lia.
      reflexivity.
Qed.

Lemma rows_from_length (obligations : list dict) (i : nat) (source : str) :
  length (rows_from i source obligations) = length obligations.
Proof.
  revert i. induction obligations as [|o rest IH]; intros i; simpl;
    [reflexivity | rewrite IH; reflexivity].
Qed.

Lemma rows_from_In (obligations : list dict) (i : nat) (source : str) (row : dict) :
  In row (rows_from i source obligations) ->
  exists n text ob, row = ExcelExporter.make_row n text ob source.
Proof.
  revert i. induction obligations as [|o rest IH]; intros i; simpl.
  - contradiction.
  - intros [<- | H]; [eauto | eapply IH; exact H].
Qed.

(** C8 (as amended). The rows of an export are numbered from 1 in row
    order, afresh at each export: row [k] (counting from 0) has the
    identifier OBL- followed by [k + 1] in decimal, padded with zeros to
    three digits; it holds the text of the obligation, its keyword string
    (the empty string when there is none) and the label of the source
    document.  Owner, Next Due Date and Status hold the fixed value
    "Not Started" in every row. *)
Theorem create_obligation_dataframe_rows (obligations : list dict)
        (source_document : str) (k : nat) (obligation : dict) (text : str) :
  (forall record, In record obligations -> is_Some (record !! "text")) ->
  obligations !! k = Some obligation ->
  obligation !! "text" = Some text ->
  exists rows row number,
    ExcelExporter.create_obligation_dataframe obligations source_document = Ok rows
    /\ length rows = length obligations
    /\ rows !! k = Some row
    /\ row !! "ID" = Some (lit "OBL-" ++ number)
    /\ value_of number = Some (S k)
    /\ 3 <= length number
    /\ (S k < 1000 -> length number = 3)
    /\ row !! "Obligation Text" = Some text
    /\ row !! "Keywords" = Some (get obligation "keywords" [])
    /\ row !! "Source Document" = Some source_document
    /\ row !! "Owner" = Some (lit "Not Started")
    /\ row !! "Next Due Date" = Some (lit "Not Started")
    /\ row !! "Status" = Some (lit "Not Started").
Proof.
  intros Hall Hk Ht.
  destruct (format_03d_spec (S k)) as (Hlen & Hlen3 & Hval).
  exists (rows_from 1 source_document obligations),
         (ExcelExporter.make_row (S k) text obligation source_document),
         (ExcelExporter.format_03d (S k)).
  split; [apply (rows_loop_rows obligations 1 source_document [] Hall)|].
  split; [apply rows_from_length|].
  split.
  { rewrite (rows_from_lookup obligations 1 k source_document obligation Hk).
    unfold get. rewrite Ht. reflexivity. }
  split; [row_lookup|].
  split; [exact Hval|]. split; [exact Hlen|]. split; [exact Hlen3|].
  repeat split; row_lookup.
Qed.

Lemma create_obligation_dataframe_rows_witness :
  exists rows row number,
    ExcelExporter.create_obligation_dataframe
      [candidate_record (lit "Users must comply") [lit "must"];
       candidate_record (lit "Data shall be encrypted") [lit "shall"]]
      (lit "test.pdf") = Ok rows
    /\ length rows = 2
    /\ rows !! 1 = Some row
    /\ row !! "ID" = Some (lit "OBL-" ++ number)
    /\ value_of number = Some 2
    /\ 3 <= length number
    /\ (2 < 1000 -> length number = 3)
    /\ row !! "Obligation Text" = Some (lit "Data shall be encrypted")
    /\ row !! "Keywords"
       = Some (get (candidate_record (lit "Data shall be encrypted") [lit "shall"])
                   "keywords" [])
    /\ row !! "Source Document" = Some (lit "test.pdf")
    /\ row !! "Owner" = Some (lit "Not Started")
    /\ row !! "Next Due Date" = Some (lit "Not Started")
    /\ row !! "Status" = Some (lit "Not Started").
Proof.
  apply (create_obligation_dataframe_rows
           [candidate_record (lit "Users must comply") [lit "must"];
            candidate_record (lit "Data shall be encrypted") [lit "shall"]]
           (lit "test.pdf") 1
           (candidate_record (lit "Data shall be encrypted") [lit "shall"])
           (lit "Data shall be encrypted")).
  - intros record [<- | [<- | []]]; vm_compute; eauto.
  - reflexivity.
  - vm_compute. reflexivity.
Defined.

(** C8, counterexample: the export has no parameter for these values and
    reads none from the records; even a record that carries an Owner and a
    Status is exported with "Not Started". *)
Lemma export_defaults_not_settable :
  (exists row,
      ExcelExporter.create_obligation_dataframe
        [<["Owner" := lit "Alice"]>
           (<["Status" := lit "Done"]>
              (candidate_record (lit "Users must comply") [lit "must"]))]
        (lit "test.pdf") = Ok [row]
      /\ row !! "Owner" = Some (lit "Not Started")
      /\ row !! "Status" = Some (lit "Not Started"))
  /\ ~ defaults_settable.
Proof.
  split.
  - eexists. split; [vm_compute; reflexivity|]. split; vm_compute; reflexivity.
  - intros (obligations & source & rows & row & column & Hrows & Hin & Hcol & Hne).
    apply rows_loop_Ok in Hrows. simpl in Hrows. subst rows.
    apply rows_from_In in Hin. destruct Hin as (n & text & ob & ->).
    apply Hne. simpl in Hcol.
    destruct Hcol as [<- | [<- | [<- | []]]]; row_lookup.
Qed.

(** ** The examples of the specification *)

Example segment_empty : PDFReader.split_into_sentences (lit "") = [].
Proof. reflexivity. Qed.

Example segment_three :
  PDFReader.split_into_sentences
    (lit "This is sentence one. This is sentence two! Is this sentence three?")
  = [lit "This is sentence one."; lit "This is sentence two!";
     lit "Is this sentence three?"].
Proof. vm_compute. reflexivity. Qed.

Example segment_short :
  PDFReader.split_into_sentences
    (lit "Short. This is a longer sentence that should be kept.")
  = [lit "This is a longer sentence that should be kept."].
Proof. vm_compute. reflexivity. Qed.

Example classify_must :
  ObligationFinder.process_sentences
    [lit "Users must comply with all security policies."]
  = Ok [candidate_record (lit "Users must comply with all security policies.")
                         [lit "must"]].
Proof. vm_compute. reflexivity. Qed.

Example classify_information :
  ObligationFinder.process_sentences [lit "This is just information."] = Ok [].
Proof. vm_compute. reflexivity. Qed.

Example classify_title :
  ObligationFinder.process_sentences [lit "TITLE: SECURITY REQUIREMENTS"] = Ok [].
Proof. vm_compute. reflexivity. Qed.

Example check_all_caps :
  ObligationFinder.quality_check (lit "ALL USERS MUST COMPLY NOW") 20
  = Some ObligationFinder.AllCaps.
Proof. vm_compute. reflexivity. Qed.

Example classify_numbers :
  ObligationFinder.extract_obligations [lit "123-456-789 must be updated"]
  = [candidate_record (lit "123-456-789 must be updated") [lit "must"]]
  /\ ObligationFinder.quality_check (lit "123-456-789 must be updated") 20
     = Some ObligationFinder.NonAlphabetic
  /\ ObligationFinder.process_sentences [lit "123-456-789 must be updated"]
     = Ok [].
Proof. repeat split; vm_compute; reflexivity. Qed.

Example keywords_in_declaration_order :
  ObligationFinder.extract_obligations
    [lit "It is Mandatory and REQUIRED that you shall, must_do mustard."]
  = [candidate_record
       (lit "It is Mandatory and REQUIRED that you shall, must_do mustard.")
       [lit "shall"; lit "required"; lit "mandatory"]].
Proof. vm_compute. reflexivity. Qed.

Example identifiers :
  map ExcelExporter.format_03d [1; 2; 42; 999; 1000]
  = [lit "001"; lit "002"; lit "042"; lit "999"; lit "1000"].
Proof. vm_compute. reflexivity. Qed.

(** * Further properties of the classifier *)

(** X1. [contains_obligation_keyword] answers whether some keyword of the
    set occurs in the lower-cased sentence, [sentence.lower()], with no word
    character directly before it and none directly after it.  The sentence
    is any text over the wider alphabet, U+0130 included. *)
Theorem contains_obligation_keyword_whole_word (sentence : Wide.ustr) :
  Wide.contains_obligation_keyword sentence = true
  <-> exists keyword,
        In keyword [Wide.wide (lit "must"); Wide.wide (lit "shall");
                    Wide.wide (lit "required"); Wide.wide (lit "mandatory")]
        /\ Wide.occurs_whole keyword (Wide.str_lower sentence).
Proof.
  unfold Wide.contains_obligation_keyword. cbv zeta.
  rewrite wide_any_keyword_existsb, existsb_exists.
  change Wide.OBLIGATION_KEYWORDS
    with [Wide.wide (lit "must"); Wide.wide (lit "shall");
          Wide.wide (lit "required"); Wide.wide (lit "mandatory")].
  split; intros (k & Hin & H); exists k; (split; [exact Hin|]).
  - apply wide_keyword_in_occurs; [exact Hin | exact H].
  - apply wide_keyword_in_occurs; [exact Hin | exact H].
Qed.

Lemma filter_loop_Ok_inv (min_length : Z) (obligations filtered out : list dict) :
  ObligationFinder.filter_loop obligations min_length filtered = Ok out ->
  (forall record, In record obligations -> is_Some (record !! "text"))
  /\ out = filtered ++ List.filter (passes min_length) obligations.
Proof.
  revert filtered. induction obligations as [|ob rest IH]; intros filtered.
  - simpl. intros [= <-]. rewrite app_nil_r. split; [intros r []|reflexivity].
  - cbn [ObligationFinder.filter_loop List.filter]. unfold getitem, passes.
    destruct (ob !! "text") as [text|] eqn:Et; cbn [bind]; [|discriminate].
    destruct (ObligationFinder.quality_check text min_length); intros H;
      apply IH in H; destruct H as [Hall ->].
    + split; [|reflexivity].
      intros record [<- | Hr]; [eexists; exact Et | auto].
    + split; [|rewrite <- app_assoc; reflexivity].
      intros record [<- | Hr]; [eexists; exact Et | auto].
Qed.

Lemma filter_obligations_Ok_inv (obligations kept : list dict) (min_length : Z) :
  ObligationFinder.filter_obligations obligations min_length = Ok kept ->
  (forall record, In record obligations -> is_Some (record !! "text"))
  /\ kept = List.filter (passes min_length) obligations.
Proof. apply filter_loop_Ok_inv. Qed.

Lemma filter_loop_raises (min_length : Z) (obligations filtered : list dict)
      (e : exn) :
  ObligationFinder.filter_loop obligations min_length filtered = Raise e ->
  e = KeyError "text"
  /\ exists record, In record obligations /\ record !! "text" = None.
Proof.
  revert filtered. induction obligations as [|ob rest IH]; intros filtered.
  - discriminate.
  - cbn [ObligationFinder.filter_loop]. unfold getitem.
    destruct (ob !! "text") as [text|] eqn:Et; cbn [bind].
    + destruct (ObligationFinder.quality_check text min_length); intros H;
        apply IH in H; destruct H as [-> (record & Hr & Hn)];
        (split; [reflexivity | exists record; split; [right; exact Hr | exact Hn]]).
    + intros [= <-]. split; [reflexivity|]. exists ob. split; [left; reflexivity | exact Et].
Qed.

(** X2. The filter raises exactly when a record of its input has no
    [text]: the exception is [KeyError('text')], and nothing is returned,
    whatever the records before the faulty one. *)
Theorem filter_obligations_KeyError (obligations : list dict) (min_length : Z) :
  (exists record, In record obligations /\ record !! "text" = None)
  <-> ObligationFinder.filter_obligations obligations min_length
      = Raise (KeyError "text").
Proof.
  unfold ObligationFinder.filter_obligations. split.
  - intros (r & Hr & Hn).
    destruct (ObligationFinder.filter_loop obligations min_length []) as [out|e] eqn:E.
    + apply filter_loop_Ok_inv in E. destruct E as [Hall _].
      destruct (Hall r Hr) as [t Ht]. congruence.
    + apply filter_loop_raises in E. destruct E as [-> _]. reflexivity.
  - intros H. apply filter_loop_raises in H. apply H.
Qed.

Lemma passes_max (m m' : Z) (record : dict) :
  passes (Z.max m m') record = passes m record && passes m' record.
Proof.
  unfold passes. destruct (record !! "text") as [text|]; [|reflexivity].
  unfold ObligationFinder.quality_check.
  destruct (Z.ltb_spec (Str.len text) (Z.max m m'));
    destruct (Z.ltb_spec (Str.len text) m);
    destruct (Z.ltb_spec (Str.len text) m'); try lia;
    destruct (Str.isupper text && (Str.len text <? 100)%Z);
    destruct (2 * Str.count_alpha text <? Str.len text)%Z; reflexivity.
Qed.

Lemma filter_filter_andb {A : Type} (p q : A -> bool) (l : list A) :
  List.filter q (List.filter p l) = List.filter (fun x => p x && q x) l.
Proof.
  induction l as [|x l IH]; simpl; [reflexivity|].
  destruct (p x); simpl; [destruct (q x); rewrite IH; reflexivity | exact IH].
Qed.

Lemma filter_sublist_bool {A : Type} (p : A -> bool) (l : list A) :
  sublist (List.filter p l) l.
Proof.
  induction l as [|x l IH]; simpl; [constructor|].
  destruct (p x); [apply sublist_skip | apply sublist_cons]; exact IH.
Qed.

(** X3. Filtering what the filter kept, with another minimum, is filtering
    once with the larger of the two minima.  So the filter is idempotent,
    and a larger minimum keeps a subsequence of what a smaller one keeps. *)
Theorem filter_obligations_twice (obligations kept : list dict) (m m' : Z) :
  ObligationFinder.filter_obligations obligations m = Ok kept ->
  exists kept',
    ObligationFinder.filter_obligations kept m' = Ok kept'
    /\ ObligationFinder.filter_obligations obligations (Z.max m m') = Ok kept'
    /\ sublist kept' kept
    /\ (m' <= m -> kept' = kept)%Z.
Proof.
  intros H. apply filter_obligations_Ok_inv in H. destruct H as [Hall ->].
  exists (List.filter (passes m') (List.filter (passes m) obligations)).
  unfold ObligationFinder.filter_obligations. split; [|split; [|split]].
  - rewrite filter_loop_filter; [reflexivity|].
    intros r Hr. apply List.filter_In in Hr. apply Hall, Hr.
  - rewrite filter_loop_filter by exact Hall. simpl.
    rewrite filter_filter_andb. f_equal. apply filter_ext. intros r.
    apply passes_max.
  - apply filter_sublist_bool.
  - intros Hle. rewrite filter_filter_andb.
    apply filter_ext. intros r. rewrite <- passes_max.
    rewrite Z.max_l by lia. reflexivity.
Qed.

Lemma filter_obligations_twice_witness :
  exists kept',
    ObligationFinder.filter_obligations
      [candidate_record
         (lit "This is a proper obligation that must be followed by all users.")
         [lit "must"]] 70 = Ok kept'
    /\ ObligationFinder.filter_obligations
         [candidate_record (lit "Users must comply with it.") [lit "must"];
          candidate_record
            (lit "This is a proper obligation that must be followed by all users.")
            [lit "must"]] (Z.max 30 70) = Ok kept'
    /\ sublist kept'
         [candidate_record
            (lit "This is a proper obligation that must be followed by all users.")
            [lit "must"]]
    /\ (70 <= 30 -> kept'
        = [candidate_record
             (lit "This is a proper obligation that must be followed by all users.")
             [lit "must"]])%Z.
Proof.
  apply (filter_obligations_twice
           [candidate_record (lit "Users must comply with it.") [lit "must"];
            candidate_record
              (lit "This is a proper obligation that must be followed by all users.")
              [lit "must"]]).
  vm_compute. reflexivity.
Defined.

Lemma join_nonempty (sep : str) (parts : list str) :
  parts <> [] -> Forall (fun p => p <> []) parts -> Str.join sep parts <> [].
Proof.
  intros Hne Hall. destruct Hall as [|p ps Hp _]; [contradiction|].
  simpl. destruct ps; [exact Hp|].
  destruct p; [contradiction | discriminate].
Qed.

Lemma found_in_keywords (sentence : str) :
  Forall (fun k => In k ObligationFinder.OBLIGATION_KEYWORDS) (found_in sentence).
Proof.
  apply List.Forall_forall. intros k Hk. apply List.filter_In in Hk. apply Hk.
Qed.

Lemma survivors_inv (sentence : str) (record : dict) :
  In record (survivors sentence) ->
  record = candidate_record sentence (found_in sentence)
  /\ found_in sentence <> []
  /\ ObligationFinder.quality_check (Str.strip sentence)
                                    ObligationFinder.default_min_length = None.
Proof.
  unfold survivors, candidate_of. intros H. apply List.filter_In in H.
  destruct H as [Hin Hp].
  destruct (found_in sentence) as [|k found] eqn:F; [contradiction|].
  destruct Hin as [<- | []]. split; [reflexivity|]. split; [discriminate|].
  unfold passes in Hp. rewrite candidate_record_text in Hp.
  destruct (ObligationFinder.quality_check _ _); [discriminate | reflexivity].
Qed.

(** X4. What every record returned by the classifier is: the record of one
    of the sentences, with the stripped sentence as text and a non-empty
    keyword string; the text has at least 20 characters, at least half of
    them alphabetic, and is not an upper-case text shorter than 100. *)
Theorem process_sentences_records (sentences : list str) (records : list dict)
        (record : dict) :
  ObligationFinder.process_sentences sentences = Ok records ->
  In record records ->
  exists sentence text keywords,
    In sentence sentences
    /\ record = {[ "text" := text; "keywords" := keywords ]}
    /\ text = Str.strip sentence
    /\ Str.strip text = text
    /\ keywords <> []
    /\ (20 <= Str.len text)%Z
    /\ (Str.len text <= 2 * Str.count_alpha text)%Z
    /\ (Str.isupper text = true -> 100 <= Str.len text)%Z.
Proof.
  rewrite process_sentences_flat. intros [= <-] Hin.
  apply in_flat_map in Hin. destruct Hin as (s & Hs & Hr).
  apply survivors_inv in Hr. destruct Hr as (-> & Hne & Hq).
  exists s, (Str.strip s), (Str.join (lit ", ") (found_in s)).
  split; [exact Hs|]. split; [reflexivity|]. split; [reflexivity|].
  split; [apply strip_idem|]. split.
  { apply join_nonempty; [exact Hne|].
    eapply List.Forall_impl; [|apply found_in_keywords].
    simpl. intros k [<- | [<- | [<- | [<- | []]]]]; discriminate. }
  unfold ObligationFinder.quality_check, ObligationFinder.default_min_length in Hq.
  destruct (Z.ltb_spec (Str.len (Str.strip s)) 20); [discriminate|].
  destruct (Str.isupper (Str.strip s)) eqn:Hu;
    destruct (Z.ltb_spec (Str.len (Str.strip s)) 100); simpl in Hq;
    try discriminate;
    destruct (Z.ltb_spec (2 * Str.count_alpha (Str.strip s)) (Str.len (Str.strip s)));
    try discriminate; repeat split; try lia; discriminate.
Qed.

Lemma process_sentences_records_witness :
  exists sentence text keywords,
    In sentence [lit "  Users must comply with all security policies. "]
    /\ candidate_record (lit "  Users must comply with all security policies. ")
                        [lit "must"]
       = {[ "text" := text; "keywords" := keywords ]}
    /\ text = Str.strip sentence
    /\ Str.strip text = text
    /\ keywords <> []
    /\ (20 <= Str.len text)%Z
    /\ (Str.len text <= 2 * Str.count_alpha text)%Z
    /\ (Str.isupper text = true -> 100 <= Str.len text)%Z.
Proof.
  apply (process_sentences_records
           [lit "  Users must comply with all security policies. "]
           [candidate_record (lit "  Users must comply with all security policies. ")
                             [lit "must"]]).
  - vm_compute. reflexivity.
  - left. reflexivity.
Defined.

(** X5. Classifying a list of sentences in two parts gives the records of
    the whole list: no sentence influences the record of another, and there
    are never more records than sentences. *)
Theorem process_sentences_app (first second : list str) :
  exists records1 records2,
    ObligationFinder.process_sentences first = Ok records1
    /\ ObligationFinder.process_sentences second = Ok records2
    /\ ObligationFinder.process_sentences (first ++ second)
       = Ok (records1 ++ records2)
    /\ length records1 <= length first.
Proof.
  exists (flat_map survivors first), (flat_map survivors second).
  rewrite !process_sentences_flat, flat_map_app.
  repeat split. induction first as [|s ss IH]; simpl; [lia|].
  rewrite length_app.
  destruct (survivors_at_most_one s) as [-> | (r & -> & _)]; simpl; lia.
Qed.

(** ** Further properties of the export *)

Lemma rows_loop_raises (obligations : list dict) (i : nat) (source : str)
      (data : list dict) (e : exn) :
  ExcelExporter.rows_loop obligations i source data = Raise e ->
  e = KeyError "text"
  /\ exists record, In record obligations /\ record !! "text" = None.
Proof.
  revert i data. induction obligations as [|ob rest IH]; intros i data.
  - discriminate.
  - cbn [ExcelExporter.rows_loop]. unfold getitem.
    destruct (ob !! "text") as [text|] eqn:Et; cbn [bind].
    + intros H. apply IH in H. destruct H as [-> (record & Hr & Hn)].
      split; [reflexivity|]. exists record. split; [right; exact Hr | exact Hn].
    + intros [= <-]. split; [reflexivity|].
      exists ob. split; [left; reflexivity | exact Et].
Qed.

Lemma rows_loop_Ok_text (obligations : list dict) (i : nat) (source : str)
      (data rows : list dict) :
  ExcelExporter.rows_loop obligations i source data = Ok rows ->
  forall record, In record obligations -> is_Some (record !! "text").
Proof.
  revert i data. induction obligations as [|ob rest IH]; intros i data.
  - intros _ r [].
  - cbn [ExcelExporter.rows_loop]. unfold getitem.
    destruct (ob !! "text") as [text|] eqn:Et; cbn [bind]; [|discriminate].
    intros H record [<- | Hr]; [eexists; exact Et|].
    eapply IH; eassumption.
Qed.

Lemma value_of_inj_format (n m : nat) :
  ExcelExporter.format_03d n = ExcelExporter.format_03d m -> n = m.
Proof.
  intros H. apply (f_equal value_of) in H.
  destruct (format_03d_spec n) as (_ & _ & En).
  destruct (format_03d_spec m) as (_ & _ & Em).
  congruence.
Qed.

(** X6. The export raises exactly when an obligation has no [text]
    ([KeyError('text')]; a missing [keywords] never raises).  When it
    returns, there is one row per obligation and no two rows have the same
    identifier. *)
Theorem create_obligation_dataframe_identifiers (obligations : list dict)
        (source_document : str) :
  ((exists record, In record obligations /\ record !! "text" = None)
   <-> ExcelExporter.create_obligation_dataframe obligations source_document
       = Raise (KeyError "text"))
  /\ (forall rows,
         ExcelExporter.create_obligation_dataframe obligations source_document
         = Ok rows ->
         length rows = length obligations
         /\ forall i j row_i row_j,
             rows !! i = Some row_i -> rows !! j = Some row_j ->
             row_i !! "ID" = row_j !! "ID" -> i = j).
Proof.
  unfold ExcelExporter.create_obligation_dataframe. split; [split|].
  - intros (r & Hr & Hn).
    destruct (ExcelExporter.rows_loop obligations 1 source_document [])
      as [rows|e] eqn:E.
    + destruct (rows_loop_Ok_text _ _ _ _ _ E r Hr) as [t Ht]. congruence.
    + apply rows_loop_raises in E. destruct E as [-> _]. reflexivity.
  - intros H. apply rows_loop_raises in H. apply H.
  - intros rows H. apply rows_loop_Ok in H. simpl in H. subst rows.
    split; [apply rows_from_length|].
    intros i j ri rj Hi Hj Hid.
    assert (Hi' : is_Some (obligations !! i)).
    { apply lookup_lt_is_Some. rewrite <- (rows_from_length obligations 1 source_document).
      apply lookup_lt_is_Some. eexists. exact Hi. }
    assert (Hj' : is_Some (obligations !! j)).
    { apply lookup_lt_is_Some. rewrite <- (rows_from_length obligations 1 source_document).
      apply lookup_lt_is_Some. eexists. exact Hj. }
    destruct Hi' as [oi Hoi]. destruct Hj' as [oj Hoj].
    rewrite (rows_from_lookup _ 1 i source_document oi Hoi) in Hi.
    rewrite (rows_from_lookup _ 1 j source_document oj Hoj) in Hj.
    injection Hi as <-. injection Hj as <-.
    assert (Ei : forall n t o,
               ExcelExporter.make_row n t o source_document !! "ID"
               = Some (lit "OBL-" ++ ExcelExporter.format_03d n))
      by (intros; row_lookup).
    rewrite !Ei in Hid. injection Hid as Hid.
    apply value_of_inj_format in Hid. lia.
Qed.

(** X7. The records of the classifier always export: one row per record,
    in the same order, each row with the text and the keyword string of its
    record. *)
Theorem export_of_classified (sentences : list str) (source_document : str) :
  exists records rows,
    ObligationFinder.process_sentences sentences = Ok records
    /\ ExcelExporter.create_obligation_dataframe records source_document = Ok rows
    /\ length rows = length records
    /\ forall k record,
        records !! k = Some record ->
        exists row,
          rows !! k = Some row
          /\ row !! "Obligation Text" = record !! "text"
          /\ row !! "Keywords" = record !! "keywords"
          /\ row !! "Source Document" = Some source_document.
Proof.
  exists (flat_map survivors sentences),
         (rows_from 1 source_document (flat_map survivors sentences)).
  assert (Hall : forall record, In record (flat_map survivors sentences) ->
                                exists s, record = candidate_record s (found_in s)).
  { intros r Hr. apply in_flat_map in Hr. destruct Hr as (s & _ & Hr).
    apply survivors_inv in Hr. exists s. apply Hr. }
  split; [apply process_sentences_flat|]. split.
  { apply (rows_loop_rows _ 1 source_document []).
    intros r Hr. destruct (Hall r Hr) as [s ->].
    rewrite candidate_record_text. eexists. reflexivity. }
  split; [apply rows_from_length|].
  intros k record Hk.
  rewrite (rows_from_lookup _ 1 k source_document record Hk).
  eexists. split; [reflexivity|].
  destruct (Hall record) as [s ->].
  { apply list_elem_of_In. eapply list_elem_of_lookup_2. exact Hk. }
  unfold get. rewrite candidate_record_text, candidate_record_keywords.
  repeat split; row_lookup.
Qed.

(** * Further properties of the segmenter *)

Lemma tidy_from_lstrip (s : str) : tidy s -> Str.lstrip s = s.
Proof.
  unfold tidy. destruct s as [|c r]; simpl; [reflexivity|].
  destruct (Char.isspace c); [|reflexivity].
  rewrite andb_false_r. discriminate.
Qed.

Lemma tidy_from_ends (b : bool) (s : str) : tidy_from b s = true -> ends_nonspace s.
Proof.
  revert b. induction s as [|c r IH]; intros b H; [left; reflexivity|].
  right. simpl in H. destruct (Char.isspace c) eqn:Hc.
  - apply andb_prop in H. destruct H as [H Ht]. apply andb_prop in H.
    destruct H as [_ Hs]. destruct (IH false Ht) as [-> | (r' & d & -> & Hd)].
    + discriminate Hs.
    + exists (c :: r'), d. auto.
  - destruct (IH true H) as [-> | (r' & d & -> & Hd)].
    + exists [], c. auto.
    + exists (c :: r'), d. auto.
Qed.

Lemma ends_nonspace_rstrip (s : str) : ends_nonspace s -> Str.rstrip s = s.
Proof.
  intros [-> | (s' & d & -> & Hd)]; [reflexivity | apply rstrip_snoc; exact Hd].
Qed.

Lemma tidy_strip (s : str) : tidy s -> Str.strip s = s.
Proof.
  intros H. unfold Str.strip. rewrite (tidy_from_lstrip s H).
  apply ends_nonspace_rstrip. eapply tidy_from_ends. exact H.
Qed.

Lemma sub_ws_from_nonspace (repl : str) (s : str) :
  starts_nonspace s = true ->
  Re.sub_ws_from repl true s = Re.sub_ws_from repl false s.
Proof.
  destruct s as [|c r]; simpl; [discriminate|].
  destruct (Char.isspace c); [discriminate | reflexivity].
Qed.

Lemma tidy_sub_ws (b : bool) (s : str) :
  tidy_from b s = true -> Re.sub_ws_from (lit " ") false s = s.
Proof.
  revert b. induction s as [|c r IH]; intros b H; [reflexivity|].
  simpl in *. destruct (Char.isspace c).
  - apply andb_prop in H. destruct H as [H Ht]. apply andb_prop in H.
    destruct H as [H Hs]. apply andb_prop in H. destruct H as [Hc _].
    apply Ascii.eqb_eq in Hc. subst c.
    rewrite sub_ws_from_nonspace by exact Hs. rewrite (IH false Ht). reflexivity.
  - rewrite (IH true H). reflexivity.
Qed.

Lemma ends_nonspace_tail (c : ascii) (r : str) :
  ends_nonspace (c :: r) -> ends_nonspace r /\ (Char.isspace c = true -> r <> []).
Proof.
  intros [E | (s' & d & E & Hd)]; [discriminate E|].
  destruct s' as [|c' s']; simpl in E; injection E as -> ->.
  - split; [left; reflexivity|]. congruence.
  - split; [right; exists s', d; auto|]. intros _. destruct s'; discriminate.
Qed.

Lemma sub_ws_tidy (u : str) :
  ends_nonspace u ->
  (forall p, p = true \/ Re.opt_test Char.isspace (Re.head_char u) = false ->
             tidy_from p (Re.sub_ws_from (lit " ") false u) = true)
  /\ (u <> [] ->
      starts_nonspace (Re.sub_ws_from (lit " ") true u) = true
      /\ tidy_from false (Re.sub_ws_from (lit " ") true u) = true).
Proof.
  induction u as [|c r IH]; intros He.
  - split; [reflexivity | contradiction].
  - apply ends_nonspace_tail in He. destruct He as [Hr Hne].
    destruct (IH Hr) as [IH1 IH2].
    unfold lit in *. cbn [list_ascii_of_string] in *. simpl.
    destruct (Char.isspace c) eqn:Hc.
    + destruct (IH2 (Hne eq_refl)) as [Hs Ht]. split.
      * intros p [-> | H]; [|discriminate H]. simpl. rewrite Hs, Ht. reflexivity.
      * intros _. auto.
    + split.
      * intros p _. simpl. rewrite Hc. apply IH1. left. reflexivity.
      * intros _. simpl. rewrite Hc. split; [reflexivity|].
        apply IH1. left. reflexivity.
Qed.

Lemma lstrip_fixed_head (u : str) :
  Str.lstrip u = u -> Re.opt_test Char.isspace (Re.head_char u) = false.
Proof.
  destruct u as [|c r]; [reflexivity|]. simpl.
  destruct (Char.isspace c); [|reflexivity].
  intros E. exfalso. destruct (lstrip_split r) as [ws [E' _]].
  rewrite E in E'. apply (f_equal (@length ascii)) in E'.
  rewrite length_app in E'. simpl in E'. lia.
Qed.

Lemma lstrip_starts (s : str) :
  Str.lstrip s = [] \/ starts_nonspace (Str.lstrip s) = true.
Proof.
  induction s as [|c r IH]; simpl; [left; reflexivity|].
  destruct (Char.isspace c) eqn:Hc; [exact IH|].
  right. simpl. rewrite Hc. reflexivity.
Qed.

Lemma rstrip_ends (s : str) : ends_nonspace (Str.rstrip s).
Proof.
  unfold Str.rstrip. destruct (lstrip_starts (rev s)) as [-> | H].
  - left. reflexivity.
  - destruct (Str.lstrip (rev s)) as [|d x]; [discriminate H|].
    right. exists (rev x), d. simpl in *. split; [reflexivity|].
    destruct (Char.isspace d); [discriminate | reflexivity].
Qed.

Lemma normalize_tidy (text : str) : tidy (normalize text).
Proof.
  unfold tidy, normalize, Re.sub_ws.
  apply sub_ws_tidy.
  - apply rstrip_ends.
  - right. apply lstrip_fixed_head. unfold Str.strip.
    apply lstrip_rstrip, lstrip_idem.
Qed.

Lemma tidy_normalize (s : str) : tidy s -> normalize s = s.
Proof.
  intros H. unfold normalize. rewrite (tidy_strip s H).
  eapply tidy_sub_ws. exact H.
Qed.

Lemma lstrip_app (t a : str) :
  Str.lstrip (t ++ a)
  = match Str.lstrip t with [] => Str.lstrip a | _ => Str.lstrip t ++ a end.
Proof.
  induction t as [|c r IH]; simpl.
  - destruct (Str.lstrip a); reflexivity.
  - destruct (Char.isspace c); [exact IH | reflexivity].
Qed.

Lemma lstrip_all_space (ws : str) : all_space ws -> Str.lstrip ws = [].
Proof. induction 1 as [|c ws Hc _ IH]; simpl; [|rewrite Hc]; auto. Qed.

Lemma rstrip_app_space (t ws : str) :
  all_space ws -> Str.rstrip (t ++ ws) = Str.rstrip t.
Proof.
  intros H. unfold Str.rstrip. rewrite rev_app_distr, lstrip_app.
  rewrite lstrip_all_space by (apply List.Forall_rev; exact H).
  reflexivity.
Qed.

Lemma strip_spaces (before text after : str) :
  all_space before -> all_space after ->
  Str.strip (before ++ text ++ after) = Str.strip text.
Proof.
  intros Hb Ha. unfold Str.strip.
  rewrite lstrip_app, (lstrip_all_space before Hb), lstrip_app.
  destruct (Str.lstrip text) as [|c r] eqn:E.
  - rewrite (lstrip_all_space after Ha). reflexivity.
  - apply rstrip_app_space. exact Ha.
Qed.

(** X8. Segmentation does not depend on the layout of the whitespace: a
    text and its normalised form (ends stripped, runs of whitespace made one
    space) have the same sentences, normalising twice changes nothing,
    whitespace around the text is ignored, and a blank text has no
    sentence. *)
Theorem split_into_sentences_layout (text before after : str) :
  all_space before -> all_space after ->
  normalize (normalize text) = normalize text
  /\ PDFReader.split_into_sentences (normalize text)
     = PDFReader.split_into_sentences text
  /\ PDFReader.split_into_sentences (before ++ text ++ after)
     = PDFReader.split_into_sentences text
  /\ PDFReader.split_into_sentences before = [].
Proof.
  intros Hb Ha.
  assert (E : normalize (normalize text) = normalize text)
    by apply tidy_normalize, normalize_tidy.
  split; [exact E|]. split; [|split].
  - unfold PDFReader.split_into_sentences. fold (normalize (normalize text)).
    fold (normalize text). rewrite E. reflexivity.
  - unfold PDFReader.split_into_sentences.
    rewrite strip_spaces by assumption. reflexivity.
  - unfold PDFReader.split_into_sentences.
    replace (Str.strip before) with (@nil ascii); [reflexivity|].
    symmetry. unfold Str.strip. rewrite lstrip_all_space by exact Hb. reflexivity.
Qed.

Lemma tidy_from_prefix (b : bool) (x : str) (p : ascii) (z : str) :
  Char.isspace p = false ->
  tidy_from b (x ++ p :: z) = true -> tidy_from b (x ++ [p]) = true.
Proof.
  intros Hp. revert b. induction x as [|c x IH]; intros b; simpl.
  - rewrite Hp. reflexivity.
  - destruct (Char.isspace c); [|apply IH].
    intros H. apply andb_prop in H. destruct H as [H Ht].
    apply andb_prop in H. destruct H as [H Hs].
    rewrite H, (IH false Ht). simpl.
    destruct x; simpl in *; [rewrite Hp|rewrite Hs]; reflexivity.
Qed.

Lemma tidy_from_suffix (b : bool) (x : str) (p : ascii) (z : str) :
  Char.isspace p = false ->
  tidy_from b (x ++ p :: z) = true -> tidy_from true z = true.
Proof.
  intros Hp. revert b. induction x as [|c x IH]; intros b; simpl.
  - rewrite Hp. auto.
  - destruct (Char.isspace c); [|apply IH].
    intros H. apply andb_prop in H. destruct H as [_ Ht]. eapply IH. exact Ht.
Qed.

(** In a single-spaced text the whitespace of a boundary is one space. *)
Lemma tidy_break_space (x : str) (p : ascii) (w : str) (u : ascii) (y : str) :
  tidy (x ++ p :: w ++ u :: y) -> is_break p w u -> w = lit " ".
Proof.
  intros Ht (Hp & Hw & A & Hu).
  apply tidy_from_suffix in Ht; [|apply terminal_not_space; exact Hp].
  destruct A as [|c w' Hc A]; [contradiction|].
  simpl in Ht. rewrite Hc in Ht.
  apply andb_prop in Ht. destruct Ht as [Ht _].
  apply andb_prop in Ht. destruct Ht as [Ht Hs].
  apply andb_prop in Ht. destruct Ht as [Ec _].
  apply Ascii.eqb_eq in Ec. subst c.
  destruct A as [|c' w'' Hc' _]; [reflexivity|].
  simpl in Hs. rewrite Hc' in Hs. discriminate Hs.
Qed.

Lemma Segments_nonempty (s : str) (l : list str) : Segments s l -> l <> [].
Proof. destruct 1; discriminate. Qed.

Lemma Segments_no_break (s : str) (l : list str) :
  Segments s l -> Forall no_break l.
Proof.
  induction 1 as [s H | x p w u y rest Hb Hx _ IH].
  - constructor; [exact H | constructor].
  - constructor; assumption.
Qed.

Lemma Segments_tidy (s : str) (l : list str) :
  Segments s l -> tidy s -> Forall tidy l /\ Str.join (lit " ") l = s.
Proof.
  induction 1 as [s H | x p w u y rest Hb Hx Hs IH]; intros Ht.
  - split; [constructor; [exact Ht | constructor] | reflexivity].
  - pose proof (tidy_break_space x p w u y Ht Hb) as ->.
    destruct Hb as (Hp & _ & _ & Hu).
    assert (Ht1 : tidy (x ++ [p])).
    { eapply tidy_from_prefix; [apply terminal_not_space; exact Hp | exact Ht]. }
    assert (Ht2 : tidy (u :: y)).
    { unfold tidy. simpl. rewrite (AZ_not_space u Hu).
      apply (tidy_from_suffix false (x ++ p :: lit " ") u y);
        [apply AZ_not_space; exact Hu|].
      rewrite <- app_assoc. exact Ht. }
    destruct (IH Ht2) as [Hall Hj]. split; [constructor; assumption|].
    pose proof (Segments_nonempty _ _ Hs) as Hne.
    destruct rest as [|r rest]; [contradiction|].
    change (Str.join (lit " ") ((x ++ [p]) :: r :: rest))
      with ((x ++ [p]) ++ lit " " ++ Str.join (lit " ") (r :: rest)).
    rewrite Hj, <- app_assoc. reflexivity.
Qed.

Lemma kept_piece_tidy (piece : str) :
  tidy piece ->
  kept_piece piece = if (10 <? Str.len piece)%Z then [piece] else [].
Proof.
  intros H. unfold kept_piece. rewrite (tidy_strip piece H).
  destruct (Z.ltb_spec 10 (Str.len piece)) as [Hl|Hl];
    [|rewrite andb_false_r; reflexivity].
  destruct piece; [unfold Str.len in Hl; simpl in Hl; lia | reflexivity].
Qed.

Lemma flat_map_kept_tidy (pieces : list str) :
  Forall tidy pieces ->
  flat_map kept_piece pieces
  = List.filter (fun piece => (10 <? Str.len piece)%Z) pieces.
Proof.
  induction 1 as [|p ps Hp _ IH]; simpl; [reflexivity|].
  rewrite (kept_piece_tidy p Hp), IH.
  destruct (10 <? Str.len p)%Z; reflexivity.
Qed.

(** X9. The split loses nothing but the spaces at the cuts: the pieces of
    the normalised text, joined by single spaces, give the normalised text
    back. *)
Theorem split_join_round_trip (text : str) :
  Str.join (lit " ") (Re.split_sentences (normalize text)) = normalize text.
Proof.
  apply (Segments_tidy (normalize text)).
  - apply Segments_split.
  - apply normalize_tidy.
Qed.

(** X10. The sentences returned are exactly the pieces of the normalised
    text that are longer than 10 characters, in their order and as they
    are: stripping a piece never changes it, and none of them is empty. *)
Theorem split_into_sentences_pieces (text : str) :
  PDFReader.split_into_sentences text
  = List.filter (fun piece => (10 <? Str.len piece)%Z)
                (Re.split_sentences (normalize text))
  /\ Forall (fun piece => Str.strip piece = piece)
            (Re.split_sentences (normalize text)).
Proof.
  pose proof (Segments_tidy _ _ (Segments_split (normalize text))
                            (normalize_tidy text)) as [Hall _].
  split.
  - unfold PDFReader.split_into_sentences. fold (normalize text).
    rewrite keep_sentences_flat. simpl. apply flat_map_kept_tidy. exact Hall.
  - eapply List.Forall_impl; [|exact Hall]. apply tidy_strip.
Qed.

(** X11. A sentence that was returned cannot be cut further: segmenting it
    again gives that sentence alone. *)
Theorem split_into_sentences_stable (text sentence : str) :
  In sentence (PDFReader.split_into_sentences text) ->
  PDFReader.split_into_sentences sentence = [sentence].
Proof.
  pose proof (Segments_split (normalize text)) as Hseg.
  pose proof (Segments_tidy _ _ Hseg (normalize_tidy text)) as [Htidy _].
  pose proof (Segments_no_break _ _ Hseg) as Hnb.
  unfold PDFReader.split_into_sentences at 1. fold (normalize text).
  rewrite keep_sentences_flat, flat_map_kept_tidy by exact Htidy. simpl.
  intros H. apply List.filter_In in H. destruct H as [Hin Hlen].
  rewrite List.Forall_forall in Htidy, Hnb.
  specialize (Htidy sentence Hin). specialize (Hnb sentence Hin).
  unfold PDFReader.split_into_sentences. fold (normalize sentence).
  rewrite (tidy_normalize sentence Htidy).
  rewrite (split_sentences_whole sentence Hnb).
  rewrite keep_sentences_flat. simpl.
  rewrite (kept_piece_tidy sentence Htidy), Hlen. reflexivity.
Qed.

Lemma split_into_sentences_stable_witness :
  PDFReader.split_into_sentences (lit "This is sentence two!")
  = [lit "This is sentence two!"].
Proof.
  apply (split_into_sentences_stable
           (lit "This is sentence one. This is sentence two! Is this sentence three?")).
  vm_compute. right. left. reflexivity.
Defined.

Lemma split_into_sentences_layout_witness :
  normalize (normalize (lit "One  sentence here.   And another one."))
  = normalize (lit "One  sentence here.   And another one.")
  /\ PDFReader.split_into_sentences
       (normalize (lit "One  sentence here.   And another one."))
     = PDFReader.split_into_sentences (lit "One  sentence here.   And another one.")
  /\ PDFReader.split_into_sentences
       (lit "  " ++ lit "One  sentence here.   And another one." ++ lit " ")
     = PDFReader.split_into_sentences (lit "One  sentence here.   And another one.")
  /\ PDFReader.split_into_sentences (lit "  ") = [].
Proof.
  apply split_into_sentences_layout.
  - repeat constructor.
  - repeat constructor.
Defined.

(** * Properties of the summary report *)

Lemma startswith_comma (c : ascii) (r : str) :
  Str.startswith (c :: r) (lit ", ") = true -> c = ","%char.
Proof.
  unfold lit. cbn [list_ascii_of_string Str.startswith].
  intros H. apply andb_prop in H. destruct H as [H _].
  apply Ascii.eqb_eq in H. auto.
Qed.

Lemma split_from_no_comma (p t cur : str) :
  ~ In ","%char p ->
  Str.split_from (lit ", ") 0 cur (p ++ t)
  = Str.split_from (lit ", ") 0 (rev p ++ cur) t.
Proof.
  revert cur. induction p as [|c p IH]; intros cur Hn; [reflexivity|].
  change ((c :: p) ++ t) with (c :: (p ++ t)). cbn [Str.split_from].
  destruct (Str.startswith (c :: p ++ t) (lit ", ")) eqn:E.
  - apply startswith_comma in E. subst c. exfalso. apply Hn. left. reflexivity.
  - rewrite IH by (intros H; apply Hn; right; exact H).
    simpl. rewrite <- app_assoc. reflexivity.
Qed.

Lemma split_from_separator (t cur : str) :
  Str.split_from (lit ", ") 0 cur (lit ", " ++ t)
  = rev cur :: Str.split_from (lit ", ") 0 [] t.
Proof. destruct t; reflexivity. Qed.

(** Joining with [', '] and splitting at [', '] are inverse on words
    without a comma. *)
Lemma split_join (parts : list str) :
  parts <> [] -> Forall (fun p => ~ In ","%char p) parts ->
  Str.split (Str.join (lit ", ") parts) (lit ", ") = parts.
Proof.
  intros Hne Hall. unfold Str.split.
  induction Hall as [|p ps Hp Hps IH]; [contradiction|].
  destruct ps as [|q ps].
  - simpl Str.join. rewrite <- (app_nil_r p) at 1.
    rewrite split_from_no_comma by exact Hp. simpl.
    rewrite app_nil_r, rev_involutive. reflexivity.
  - change (Str.join (lit ", ") (p :: q :: ps))
      with (p ++ lit ", " ++ Str.join (lit ", ") (q :: ps)).
    rewrite split_from_no_comma by exact Hp.
    rewrite split_from_separator, app_nil_r, rev_involutive.
    f_equal. apply IH. discriminate.
Qed.

Lemma keywords_no_comma (keyword : str) :
  In keyword ObligationFinder.OBLIGATION_KEYWORDS ->
  ~ In ","%char keyword /\ Str.strip keyword = keyword /\ keyword <> [].
Proof.
  simpl. intros [<- | [<- | [<- | [<- | []]]]];
    (split; [|split; [reflexivity | discriminate]]);
    vm_compute; intros H;
    repeat (destruct H as [H | H]; [discriminate H|]); exact H.
Qed.

Lemma found_in_NoDup (sentence : str) : List.NoDup (found_in sentence).
Proof.
  unfold found_in. apply List.NoDup_filter.
  repeat (apply List.NoDup_cons); try apply List.NoDup_nil; simpl; intros H;
    repeat (destruct H as [H | H]; [discriminate H|]); exact H.
Qed.

(** X12. The keyword string of a record of the classifier splits back, at
    [', '], into the keywords that were matched: none is lost, none is
    added, and their order is the order of the keyword set.  The matched
    keywords are those of the set that occur in the lower-cased sentence
    with no word character directly before or after. *)
Theorem keywords_split_round_trip (sentences : list str) (records : list dict)
        (record : dict) :
  ObligationFinder.process_sentences sentences = Ok records ->
  In record records ->
  exists sentence found,
    In sentence sentences
    /\ record !! "keywords" = Some (Str.join (lit ", ") found)
    /\ Str.split (Str.join (lit ", ") found) (lit ", ") = found
    /\ sublist found ObligationFinder.OBLIGATION_KEYWORDS
    /\ forall keyword,
        In keyword found
        <-> In keyword ObligationFinder.OBLIGATION_KEYWORDS
            /\ occurs_whole keyword (Str.lower sentence).
Proof.
  rewrite process_sentences_flat. intros [= <-] Hin.
  apply in_flat_map in Hin. destruct Hin as (s & Hs & Hr).
  apply survivors_inv in Hr. destruct Hr as (-> & Hne & _).
  exists s, (found_in s). split; [exact Hs|].
  split; [apply candidate_record_keywords|]. split.
  { apply split_join; [exact Hne|].
    eapply List.Forall_impl; [|apply found_in_keywords].
    intros k Hk. apply keywords_no_comma. exact Hk. }
  split; [apply filter_sublist_bool|].
  intros k. unfold found_in. rewrite List.filter_In. split.
  - intros [Hk H]. split; [exact Hk|].
    apply keyword_in_occurs; [apply keywords_wordy; exact Hk | exact H].
  - intros [Hk H]. split; [exact Hk|].
    apply keyword_in_occurs; [apply keywords_wordy; exact Hk | exact H].
Qed.

Lemma keywords_split_round_trip_witness :
  exists sentence found,
    In sentence [lit "Access is required and logging is mandatory here."]
    /\ candidate_record (lit "Access is required and logging is mandatory here.")
                        [lit "required"; lit "mandatory"] !! "keywords"
       = Some (Str.join (lit ", ") found)
    /\ Str.split (Str.join (lit ", ") found) (lit ", ") = found
    /\ sublist found ObligationFinder.OBLIGATION_KEYWORDS
    /\ forall keyword,
        In keyword found
        <-> In keyword ObligationFinder.OBLIGATION_KEYWORDS
            /\ occurs_whole keyword (Str.lower sentence).
Proof.
  apply (keywords_split_round_trip
           [lit "Access is required and logging is mandatory here."]
           [candidate_record (lit "Access is required and logging is mandatory here.")
                             [lit "required"; lit "mandatory"]]).
  - vm_compute. reflexivity.
  - left. reflexivity.
Defined.

Lemma count_keywords_lookup (keywords : list str) (counts : gmap str Z) (k : str) :
  List.NoDup keywords ->
  Forall (fun kw => Str.strip kw = kw /\ kw <> []) keywords ->
  ExcelExporter.count_keywords keywords counts !! k
  = if bool_decide (k ∈ keywords)
    then Some (default 0%Z (counts !! k) + 1)%Z
    else counts !! k.
Proof.
  intros Hnd Hall. revert counts.
  induction Hall as [|kw rest [Hs Hne] _ IH]; intros counts.
  - cbn [ExcelExporter.count_keywords].
    rewrite bool_decide_eq_false_2 by apply not_elem_of_nil. reflexivity.
  - apply List.NoDup_cons_iff in Hnd. destruct Hnd as [Hnot Hnd].
    cbn [ExcelExporter.count_keywords]. rewrite Hs.
    destruct kw as [|c kw]; [contradiction|]. cbn [length Nat.eqb negb].
    rewrite (IH Hnd). destruct (decide (k = c :: kw)) as [->|Hk].
    + rewrite (bool_decide_eq_false_2 ((c :: kw) ∈ rest))
        by (rewrite list_elem_of_In; exact Hnot).
      rewrite (bool_decide_eq_true_2 ((c :: kw) ∈ (c :: kw) :: rest))
        by apply list_elem_of_here.
      rewrite lookup_insert_eq. destruct (counts !! (c :: kw)); reflexivity.
    + rewrite lookup_insert_ne by congruence.
      assert (E : bool_decide (k ∈ (c :: kw) :: rest) = bool_decide (k ∈ rest)).
      { apply bool_decide_ext. rewrite elem_of_cons.
        split; [intros [H|H]; congruence | auto]. }
      rewrite E. reflexivity.
Qed.

Lemma mentions_found (sentence : str) (k : str) :
  mentions k (candidate_record sentence (found_in sentence))
  = bool_decide (k ∈ found_in sentence).
Proof.
  unfold mentions, get. rewrite candidate_record_text.
  destruct (bool_decide (k ∈ ObligationFinder.OBLIGATION_KEYWORDS)) eqn:Hk; simpl.
  - apply bool_decide_eq_true_1 in Hk. apply list_elem_of_In in Hk.
    rewrite keyword_in_strip by (apply keywords_wordy; exact Hk).
    destruct (ObligationFinder.keyword_in k (Str.lower sentence)) eqn:E.
    + symmetry. apply bool_decide_eq_true_2. apply list_elem_of_In.
      unfold found_in. apply List.filter_In. auto.
    + symmetry. apply bool_decide_eq_false_2. rewrite list_elem_of_In.
      unfold found_in. rewrite List.filter_In. intros [_ H]. congruence.
  - apply bool_decide_eq_false_1 in Hk.
    symmetry. apply bool_decide_eq_false_2. rewrite list_elem_of_In.
    unfold found_in. rewrite List.filter_In.
    intros [H _]. apply Hk, list_elem_of_In, H.
Qed.

Lemma count_record_lookup (sentence : str) (counts : gmap str Z) (k : str) :
  found_in sentence <> [] ->
  ExcelExporter.count_keywords
    (Str.split (get (candidate_record sentence (found_in sentence)) "keywords" [])
               (lit ", ")) counts !! k
  = if mentions k (candidate_record sentence (found_in sentence))
    then Some (default 0%Z (counts !! k) + 1)%Z
    else counts !! k.
Proof.
  intros Hne. unfold get. rewrite candidate_record_keywords.
  rewrite split_join.
  - rewrite count_keywords_lookup.
    + rewrite mentions_found. reflexivity.
    + apply found_in_NoDup.
    + eapply List.Forall_impl; [|apply found_in_keywords].
      intros kw Hkw. apply keywords_no_comma. exact Hkw.
  - exact Hne.
  - eapply List.Forall_impl; [|apply found_in_keywords].
    intros kw Hkw. apply keywords_no_comma. exact Hkw.
Qed.

Lemma count_loop_lookup (records : list dict) (counts : gmap str Z) (k : str) :
  Forall (fun r => exists s, r = candidate_record s (found_in s)
                             /\ found_in s <> []) records ->
  ExcelExporter.count_loop records counts !! k
  = if (Z.of_nat (length (List.filter (mentions k) records)) =? 0)%Z
    then counts !! k
    else Some (default 0%Z (counts !! k)
               + Z.of_nat (length (List.filter (mentions k) records)))%Z.
Proof.
  intros Hall. revert counts.
  induction Hall as [|r rest (s & -> & Hne) _ IH]; intros counts; [reflexivity|].
  cbn [ExcelExporter.count_loop List.filter]. rewrite IH.
  rewrite (count_record_lookup s counts k Hne).
  set (n := length (List.filter (mentions k) rest)).
  destruct (mentions k (candidate_record s (found_in s))); cbn [length].
  - destruct (Z.eqb_spec (Z.of_nat n) 0) as [E|E];
      destruct (Z.eqb_spec (Z.of_nat (S n)) 0); try lia.
    + f_equal. lia.
    + simpl. f_equal. lia.
  - reflexivity.
Qed.

(** X13. The summary of the records of the classifier: the total is their
    number, and the keyword distribution gives, for every keyword, the
    number of records in whose lower-cased text the keyword occurs with no
    word character directly before or after; a keyword that occurs in none
    has no entry, and nothing but keywords of the set is counted. *)
Theorem create_summary_report_distribution (sentences : list str)
        (records : list dict) (source_document now : str) (k : str) :
  ObligationFinder.process_sentences sentences = Ok records ->
  let report :=
    ExcelExporter.create_summary_report records source_document now in
  let n := Z.of_nat (length (List.filter (mentions k) records)) in
  ExcelExporter.total_obligations report = Z.of_nat (length records)
  /\ ExcelExporter.keyword_distribution report !! k
     = (if (n =? 0)%Z then None else Some n)
  /\ forall record,
      In record records ->
      (mentions k record = true
       <-> In k ObligationFinder.OBLIGATION_KEYWORDS
           /\ exists text, record !! "text" = Some text
                           /\ occurs_whole k (Str.lower text)).
Proof.
  rewrite process_sentences_flat. intros [= <-]. cbv zeta.
  assert (Hall : Forall (fun r => exists s, r = candidate_record s (found_in s)
                                            /\ found_in s <> [])
                        (flat_map survivors sentences)).
  { apply List.Forall_forall. intros r Hr. apply in_flat_map in Hr.
    destruct Hr as (s & _ & Hr). apply survivors_inv in Hr.
    exists s. split; apply Hr. }
  split; [reflexivity|]. split.
  - unfold ExcelExporter.create_summary_report. cbn [ExcelExporter.keyword_distribution].
    rewrite (count_loop_lookup _ ∅ k Hall). rewrite lookup_empty. simpl.
    destruct (Z.of_nat _ =? 0)%Z; reflexivity.
  - intros record Hr. rewrite List.Forall_forall in Hall.
    destruct (Hall record Hr) as (s & -> & _).
    unfold mentions, get. rewrite candidate_record_text.
    rewrite andb_true_iff, bool_decide_eq_true, list_elem_of_In. split.
    + intros [Hk H]. split; [exact Hk|]. exists (Str.strip s).
      split; [reflexivity|].
      apply keyword_in_occurs; [apply keywords_wordy; exact Hk | exact H].
    + intros [Hk (text & [= <-] & H)]. split; [exact Hk|].
      apply keyword_in_occurs; [apply keywords_wordy; exact Hk | exact H].
Qed.

Lemma create_summary_report_distribution_witness :
  ExcelExporter.total_obligations
    (ExcelExporter.create_summary_report
       [candidate_record (lit "Users must comply with all security policies.")
                         [lit "must"];
        candidate_record (lit "All data shall be encrypted and must be logged.")
                         [lit "must"; lit "shall"]]
       (lit "a.pdf") (lit "now")) = 2%Z
  /\ ExcelExporter.keyword_distribution
       (ExcelExporter.create_summary_report
          [candidate_record (lit "Users must comply with all security policies.")
                            [lit "must"];
           candidate_record (lit "All data shall be encrypted and must be logged.")
                            [lit "must"; lit "shall"]]
          (lit "a.pdf") (lit "now")) !! lit "must" = Some 2%Z.
Proof.
  destruct (create_summary_report_distribution
              [lit "Users must comply with all security policies.";
               lit "This is just information.";
               lit "All data shall be encrypted and must be logged."]
              [candidate_record (lit "Users must comply with all security policies.")
                                [lit "must"];
               candidate_record (lit "All data shall be encrypted and must be logged.")
                                [lit "must"; lit "shall"]]
              (lit "a.pdf") (lit "now") (lit "must")) as (A & B & _).
  - vm_compute. reflexivity.
  - split; [exact A | exact B].
Defined.

Lemma split_no_comma (s : str) :
  ~ In ","%char s -> Str.split s (lit ", ") = [s].
Proof.
  intros H. unfold Str.split. rewrite <- (app_nil_r s) at 1.
  rewrite split_from_no_comma by exact H. simpl.
  rewrite app_nil_r, rev_involutive. reflexivity.
Qed.

Lemma all_space_strip (ws : str) : all_space ws -> Str.strip ws = [].
Proof. intros H. unfold Str.strip. rewrite lstrip_all_space by exact H. reflexivity. Qed.

Lemma all_space_no_comma (ws : str) : all_space ws -> ~ In ","%char ws.
Proof.
  intros H Hin. unfold all_space in H. rewrite List.Forall_forall in H.
  specialize (H _ Hin). discriminate H.
Qed.

(** X14. A record without a [keywords] entry, or with a blank one, is
    counted in [total_obligations] and adds nothing to the keyword
    distribution; the report never reads the [text] of a record. *)
Theorem create_summary_report_blank (record : dict) (records : list dict)
        (source_document now : str) :
  (record !! "keywords" = None
   \/ exists ws, record !! "keywords" = Some ws /\ all_space ws) ->
  ExcelExporter.keyword_distribution
    (ExcelExporter.create_summary_report (record :: records) source_document now)
  = ExcelExporter.keyword_distribution
      (ExcelExporter.create_summary_report records source_document now)
  /\ ExcelExporter.total_obligations
       (ExcelExporter.create_summary_report (record :: records) source_document now)
     = (1 + ExcelExporter.total_obligations
              (ExcelExporter.create_summary_report records source_document now))%Z.
Proof.
  intros H. split.
  - unfold ExcelExporter.create_summary_report.
    cbn [ExcelExporter.keyword_distribution ExcelExporter.count_loop].
    f_equal. unfold get.
    destruct H as [-> | (ws & -> & Hws)].
    + reflexivity.
    + rewrite split_no_comma by (apply all_space_no_comma; exact Hws).
      cbn [ExcelExporter.count_keywords].
      rewrite (all_space_strip ws Hws). reflexivity.
  - unfold ExcelExporter.create_summary_report.
    cbn [ExcelExporter.total_obligations length]. lia.
Qed.

Lemma create_summary_report_blank_witness :
  ExcelExporter.keyword_distribution
    (ExcelExporter.create_summary_report
       [{[ "text" := lit "Users must comply" ]};
        candidate_record (lit "Data shall be encrypted") [lit "shall"]]
       (lit "a.pdf") (lit "now"))
  = ExcelExporter.keyword_distribution
      (ExcelExporter.create_summary_report
         [candidate_record (lit "Data shall be encrypted") [lit "shall"]]
         (lit "a.pdf") (lit "now"))
  /\ ExcelExporter.total_obligations
       (ExcelExporter.create_summary_report
          [{[ "text" := lit "Users must comply" ]};
           candidate_record (lit "Data shall be encrypted") [lit "shall"]]
          (lit "a.pdf") (lit "now"))
     = (1 + ExcelExporter.total_obligations
              (ExcelExporter.create_summary_report
                 [candidate_record (lit "Data shall be encrypted") [lit "shall"]]
                 (lit "a.pdf") (lit "now")))%Z.
Proof.
  apply create_summary_report_blank. left. vm_compute. reflexivity.
Defined.

(** * Properties of the output file name *)

Lemma after_last_absent (c : ascii) (p : str) :
  ~ In c p -> OsPath.after_last c p = 0.
Proof.
  induction p as [|d r IH]; intros H; simpl; [reflexivity|].
  rewrite IH by (intros Hr; apply H; right; exact Hr).
  destruct (Ascii.eqb_spec d c) as [->|_]; [|reflexivity].
  exfalso. apply H. left. reflexivity.
Qed.

Lemma after_last_app (c : ascii) (x y : str) :
  ~ In c y -> OsPath.after_last c (x ++ y) = OsPath.after_last c x.
Proof.
  intros H. induction x as [|d x IH]; simpl.
  - apply after_last_absent. exact H.
  - rewrite IH. reflexivity.
Qed.

Lemma after_last_here (c : ascii) (x y : str) :
  ~ In c y -> OsPath.after_last c (x ++ c :: y) = S (length x).
Proof.
  intros H. induction x as [|d x IH]; simpl.
  - rewrite after_last_absent by exact H. rewrite Ascii.eqb_refl. reflexivity.
  - rewrite IH. reflexivity.
Qed.

Lemma after_last_le (c : ascii) (p : str) : OsPath.after_last c p <= length p.
Proof.
  induction p as [|d r IH]; simpl; [lia|].
  destruct (OsPath.after_last c r); [destruct (Ascii.eqb d c)|]; simpl; lia.
Qed.

Lemma basename_no_sep (p : str) : ~ In "/"%char (OsPath.basename p).
Proof.
  unfold OsPath.basename. induction p as [|d r IH]; simpl; [auto|].
  destruct (OsPath.after_last "/" r) as [|k] eqn:E.
  - simpl in IH. destruct (Ascii.eqb_spec d "/"%char) as [->|Hd]; simpl.
    + exact IH.
    + intros [H | H]; [congruence | exact (IH H)].
  - exact IH.
Qed.

Lemma basename_plain (name : str) :
  ~ In "/"%char name -> OsPath.basename name = name.
Proof.
  intros H. unfold OsPath.basename. rewrite after_last_absent by exact H.
  reflexivity.
Qed.

Lemma skipn_length_app {A : Type} (x y : list A) : skipn (length x) (x ++ y) = y.
Proof. induction x as [|a x IH]; simpl; [reflexivity | exact IH]. Qed.

Lemma firstn_length_app {A : Type} (x y : list A) : firstn (length x) (x ++ y) = x.
Proof. induction x as [|a x IH]; simpl; [reflexivity | rewrite IH; reflexivity]. Qed.

Lemma basename_after_sep (dir name : str) :
  ~ In "/"%char name -> OsPath.basename (dir ++ "/"%char :: name) = name.
Proof.
  intros H. unfold OsPath.basename. rewrite after_last_here by exact H.
  replace (dir ++ "/"%char :: name) with ((dir ++ ["/"%char]) ++ name)
    by (rewrite <- app_assoc; reflexivity).
  replace (S (length dir)) with (length (dir ++ ["/"%char]))
    by (rewrite length_app; simpl; lia).
  apply skipn_length_app.
Qed.

Lemma splitext_root_prefix (p : str) :
  exists rest, p = fst (OsPath.splitext p) ++ rest.
Proof.
  unfold OsPath.splitext.
  destruct (OsPath.after_last "/" p <? OsPath.after_last "." p)%nat;
    [|exists []; simpl; rewrite app_nil_r; reflexivity].
  destruct (existsb _ _); [|exists []; simpl; rewrite app_nil_r; reflexivity].
  exists (skipn (OsPath.after_last "." p - 1) p). simpl.
  symmetry. apply firstn_skipn.
Qed.

Lemma splitext_name_ext (name ext : str) :
  ~ In "/"%char name -> ~ In "/"%char ext -> ~ In "."%char ext ->
  (exists c, In c name /\ c <> "."%char) ->
  OsPath.splitext (name ++ "."%char :: ext) = (name, "."%char :: ext).
Proof.
  intros Hn He Hd (c & Hc & Hcd). unfold OsPath.splitext.
  rewrite (after_last_absent "/"%char).
  2:{ intros H. apply in_app_or in H. destruct H as [H | [H | H]];
        [exact (Hn H) | discriminate H | exact (He H)]. }
  rewrite after_last_here by exact Hd.
  change (0 <? S (length name))%nat with true. cbv iota.
  replace (S (length name) - 1 - 0) with (length name) by lia.
  replace (S (length name) - 1) with (length name) by lia.
  change (skipn 0 (name ++ "."%char :: ext)) with (name ++ "."%char :: ext).
  rewrite firstn_length_app, skipn_length_app.
  replace (existsb _ _) with true; [reflexivity|].
  symmetry. apply existsb_exists. exists c. split; [exact Hc|].
  destruct (Ascii.eqb_spec c "."%char); [contradiction | reflexivity].
Qed.

Lemma endswith_sep (dir : str) :
  Str.endswith dir (lit "/") = true -> exists d, dir = d ++ ["/"%char].
Proof.
  unfold Str.endswith. simpl. destruct (rev dir) as [|c r] eqn:E; [discriminate|].
  intros H. apply andb_prop in H. destruct H as [H _].
  apply Ascii.eqb_eq in H. subst c. exists (rev r).
  apply (f_equal (@rev ascii)) in E. rewrite rev_involutive in E. exact E.
Qed.

Lemma startswith_sep (c : ascii) (r : str) :
  Str.startswith (c :: r) (lit "/") = Ascii.eqb "/"%char c.
Proof.
  unfold lit. cbn [list_ascii_of_string Str.startswith].
  destruct r; apply andb_true_r.
Qed.

Lemma startswith_sep_false (file : str) :
  ~ In "/"%char file -> Str.startswith file (lit "/") = false.
Proof.
  intros H. destruct file as [|c r]; [reflexivity|].
  rewrite startswith_sep.
  destruct (Ascii.eqb_spec "/"%char c) as [<-|_]; [|reflexivity].
  exfalso. apply H. left. reflexivity.
Qed.

Lemma basename_join (dir file : str) :
  ~ In "/"%char file -> OsPath.basename (OsPath.join dir file) = file.
Proof.
  intros H. unfold OsPath.join.
  rewrite (startswith_sep_false file H). destruct dir as [|d0 dir'].
  - cbn [length Nat.eqb orb app]. apply basename_plain. exact H.
  - cbn [length Nat.eqb orb].
    destruct (Str.endswith (d0 :: dir') (lit "/")) eqn:E.
    + apply endswith_sep in E. destruct E as [d ->].
      rewrite <- app_assoc. apply basename_after_sep. exact H.
    + apply basename_after_sep. exact H.
Qed.

Lemma join_app (dir a b : str) :
  a <> [] -> OsPath.join dir (a ++ b) = OsPath.join dir a ++ b.
Proof.
  intros Ha. destruct a as [|c a]; [contradiction|]. unfold OsPath.join.
  change ((c :: a) ++ b) with (c :: (a ++ b)).
  rewrite !startswith_sep.
  destruct (Ascii.eqb "/"%char c); [reflexivity|].
  destruct (_ || _); rewrite <- ?app_assoc; reflexivity.
Qed.

Lemma startswith_app (prefix rest : str) :
  Str.startswith (prefix ++ rest) prefix = true.
Proof.
  induction prefix as [|c prefix IH]; simpl.
  - destruct rest; reflexivity.
  - rewrite Ascii.eqb_refl. exact IH.
Qed.

Lemma endswith_app (front suffix : str) :
  Str.endswith (front ++ suffix) suffix = true.
Proof. unfold Str.endswith. rewrite rev_app_distr. apply startswith_app. Qed.

Lemma stem_no_sep (source : str) :
  ~ In "/"%char (fst (OsPath.splitext (OsPath.basename source))).
Proof.
  destruct (splitext_root_prefix (OsPath.basename source)) as [rest E].
  intros H. apply (basename_no_sep source). rewrite E.
  apply in_or_app. left. exact H.
Qed.

(** X15. The name of the output file, for every source, directory and
    time stamp: it is the output directory joined with the stem of the
    source, ["_obligations_"], the time stamp and [".xlsx"]; the stem has no
    slash, so the file is placed in the output directory itself whatever
    directory the source came from. *)
Theorem generate_output_filename_shape (source_document output_dir timestamp : str) :
  exists stem,
    ~ In "/"%char stem
    /\ ExcelExporter.generate_output_filename source_document output_dir timestamp
       = OsPath.join output_dir (stem ++ lit "_obligations_")
         ++ timestamp ++ lit ".xlsx"
    /\ Str.endswith
         (ExcelExporter.generate_output_filename source_document output_dir timestamp)
         (lit ".xlsx") = true
    /\ (~ In "/"%char timestamp ->
        OsPath.basename
          (ExcelExporter.generate_output_filename source_document output_dir timestamp)
        = stem ++ lit "_obligations_" ++ timestamp ++ lit ".xlsx").
Proof.
  exists (fst (OsPath.splitext (OsPath.basename source_document))).
  pose proof (stem_no_sep source_document) as Hstem.
  set (stem := fst (OsPath.splitext (OsPath.basename source_document))) in *.
  assert (E : ExcelExporter.generate_output_filename source_document output_dir timestamp
              = OsPath.join output_dir (stem ++ lit "_obligations_")
                ++ timestamp ++ lit ".xlsx").
  { unfold ExcelExporter.generate_output_filename. fold stem. cbv zeta.
    rewrite (app_assoc stem). apply join_app.
    destruct stem; discriminate. }
  split; [exact Hstem|]. split; [exact E|]. split.
  - rewrite E, app_assoc. apply endswith_app.
  - intros Hts. unfold ExcelExporter.generate_output_filename. fold stem. cbv zeta.
    apply basename_join. intros H.
    apply in_app_or in H. destruct H as [H | H]; [exact (Hstem H)|].
    apply in_app_or in H. destruct H as [H | H].
    + vm_compute in H. repeat (destruct H as [H | H]; [discriminate H|]). exact H.
    + apply in_app_or in H. destruct H as [H | H]; [exact (Hts H)|].
      vm_compute in H. repeat (destruct H as [H | H]; [discriminate H|]). exact H.
Qed.

(** X16. For a source [name.ext], alone or in any directory, where the
    name has a character that is not a dot and the extension has no dot, the
    stem is the name: the file is [name_obligations_<time stamp>.xlsx] in
    the output directory, and the directory of the source plays no part. *)
Theorem generate_output_filename_stem (source_dir name ext output_dir timestamp : str) :
  ~ In "/"%char name -> ~ In "/"%char ext -> ~ In "."%char ext ->
  (exists c, In c name /\ c <> "."%char) ->
  ExcelExporter.generate_output_filename
    (source_dir ++ "/"%char :: name ++ "."%char :: ext) output_dir timestamp
  = OsPath.join output_dir (name ++ lit "_obligations_" ++ timestamp ++ lit ".xlsx")
  /\ ExcelExporter.generate_output_filename
       (name ++ "."%char :: ext) output_dir timestamp
     = OsPath.join output_dir (name ++ lit "_obligations_" ++ timestamp ++ lit ".xlsx").
Proof.
  intros Hn He Hd Hc.
  assert (Hne : ~ In "/"%char (name ++ "."%char :: ext)).
  { intros H. apply in_app_or in H. destruct H as [H | [H | H]];
      [exact (Hn H) | discriminate H | exact (He H)]. }
  unfold ExcelExporter.generate_output_filename.
  rewrite (basename_after_sep source_dir _ Hne), (basename_plain _ Hne).
  rewrite (splitext_name_ext name ext Hn He Hd Hc). split; reflexivity.
Qed.

Lemma generate_output_filename_stem_witness :
  ExcelExporter.generate_output_filename
    (lit "data/documents" ++ "/"%char :: lit "sample.v2" ++ "."%char :: lit "pdf")
    (lit "output") (lit "20250101_120000")
  = OsPath.join (lit "output")
                (lit "sample.v2" ++ lit "_obligations_" ++ lit "20250101_120000"
                     ++ lit ".xlsx")
  /\ ExcelExporter.generate_output_filename
       (lit "sample.v2" ++ "."%char :: lit "pdf")
       (lit "output") (lit "20250101_120000")
     = OsPath.join (lit "output")
                   (lit "sample.v2" ++ lit "_obligations_" ++ lit "20250101_120000"
                        ++ lit ".xlsx").
Proof.
  apply generate_output_filename_stem.
  - vm_compute. intros H. repeat (destruct H as [H | H]; [discriminate H|]). exact H.
  - vm_compute. intros H. repeat (destruct H as [H | H]; [discriminate H|]). exact H.
  - vm_compute. intros H. repeat (destruct H as [H | H]; [discriminate H|]). exact H.
  - exists "s"%char. split; [left; reflexivity | discriminate].
Defined.

Lemma file_name_no_sep (stem timestamp : str) :
  ~ In "/"%char stem -> ~ In "/"%char timestamp ->
  ~ In "/"%char (stem ++ lit "_obligations_" ++ timestamp ++ lit ".xlsx").
Proof.
  intros Hs Ht H.
  apply in_app_or in H. destruct H as [H | H]; [exact (Hs H)|].
  apply in_app_or in H. destruct H as [H | H].
  - vm_compute in H. repeat (destruct H as [H | H]; [discriminate H|]). exact H.
  - apply in_app_or in H. destruct H as [H | H]; [exact (Ht H)|].
    vm_compute in H. repeat (destruct H as [H | H]; [discriminate H|]). exact H.
Qed.

Lemma rstrip_sep_snoc (s : str) (c : ascii) :
  c <> "/"%char -> OsPath.rstrip_sep (s ++ [c]) = s ++ [c].
Proof.
  intros Hc. unfold OsPath.rstrip_sep. rewrite rev_app_distr. simpl.
  destruct (Ascii.eqb_spec c "/"%char); [contradiction|].
  simpl. rewrite rev_involutive. reflexivity.
Qed.

Lemma rstrip_sep_slash (s : str) :
  OsPath.rstrip_sep (s ++ ["/"%char]) = OsPath.rstrip_sep s.
Proof. unfold OsPath.rstrip_sep. rewrite rev_app_distr. reflexivity. Qed.

Lemma dirname_head (head file : str) :
  ~ In "/"%char file ->
  OsPath.dirname ((head ++ ["/"%char]) ++ file)
  = if forallb (fun c => Ascii.eqb c "/"%char) (head ++ ["/"%char])
    then head ++ ["/"%char]
    else OsPath.rstrip_sep (head ++ ["/"%char]).
Proof.
  intros H. unfold OsPath.dirname. rewrite <- app_assoc.
  change (["/"%char] ++ file) with ("/"%char :: file).
  rewrite after_last_here by exact H.
  replace (head ++ "/"%char :: file) with ((head ++ ["/"%char]) ++ file)
    by (rewrite <- app_assoc; reflexivity).
  replace (S (length head)) with (length (head ++ ["/"%char]))
    by (rewrite length_app; simpl; lia).
  rewrite firstn_length_app.
  replace (length (head ++ ["/"%char]) =? 0)%nat with false
    by (rewrite length_app; simpl; symmetry; apply Nat.eqb_neq; lia).
  simpl. destruct (forallb _ _); reflexivity.
Qed.

Lemma endswith_sep_last (d : str) (c : ascii) :
  Str.endswith (d ++ [c]) (lit "/") = Ascii.eqb "/"%char c.
Proof.
  unfold Str.endswith. rewrite rev_app_distr.
  change (rev [c] ++ rev d) with (c :: rev d).
  change (rev (lit "/")) with (lit "/"). apply startswith_sep.
Qed.

(** X17. The directory the export creates before it writes, the
    [dirname] of the generated path: it is the empty path when the output
    directory is the empty string, and the output directory itself when that
    does not end with a slash. *)
Theorem generate_output_filename_dirname (source_document output_dir timestamp : str) :
  ~ In "/"%char timestamp ->
  (output_dir = [] ->
   OsPath.dirname
     (ExcelExporter.generate_output_filename source_document output_dir timestamp)
   = [])
  /\ (forall d c, output_dir = d ++ [c] -> c <> "/"%char ->
      OsPath.dirname
        (ExcelExporter.generate_output_filename source_document output_dir timestamp)
      = output_dir).
Proof.
  intros Hts. unfold ExcelExporter.generate_output_filename. cbv zeta.
  pose proof (file_name_no_sep _ timestamp (stem_no_sep source_document) Hts) as Hf.
  set (file := _ ++ lit "_obligations_" ++ timestamp ++ lit ".xlsx") in *.
  split.
  - intros ->. unfold OsPath.join. rewrite (startswith_sep_false file Hf).
    cbn [length Nat.eqb orb app]. unfold OsPath.dirname.
    rewrite (after_last_absent _ _ Hf). reflexivity.
  - intros d c -> Hc. unfold OsPath.join. rewrite (startswith_sep_false file Hf).
    rewrite endswith_sep_last.
    destruct (Ascii.eqb_spec "/"%char c) as [E|_]; [congruence|].
    replace (length (d ++ [c]) =? 0)%nat with false
      by (rewrite length_app; simpl; symmetry; apply Nat.eqb_neq; lia).
    cbn [orb].
    replace ((d ++ [c]) ++ lit "/" ++ file)
      with (((d ++ [c]) ++ ["/"%char]) ++ file)
      by (rewrite <- !app_assoc; reflexivity).
    rewrite dirname_head by exact Hf.
    rewrite !forallb_app. simpl.
    destruct (Ascii.eqb_spec c "/"%char); [contradiction|].
    rewrite andb_false_r. simpl.
    rewrite rstrip_sep_slash. apply rstrip_sep_snoc. exact Hc.
Qed.

Lemma generate_output_filename_dirname_witness :
  OsPath.dirname
    (ExcelExporter.generate_output_filename (lit "docs/policy.pdf") (lit "output")
                                            (lit "20250101_120000"))
  = lit "output".
Proof.
  apply (proj2 (generate_output_filename_dirname
                  (lit "docs/policy.pdf") (lit "output") (lit "20250101_120000")
                  ltac:(vm_compute; intros H;
                        repeat (destruct H as [H | H]; [discriminate H|]); exact H))
               (lit "outpu") "t"%char).
  - reflexivity.
  - discriminate.
Defined.

(** * Properties of the text extraction *)

Lemma page_loop_app (texts : list str) (text : str) :
  PDFReader.page_loop texts text
  = text ++ concat (map (fun page_text => page_text ++ ["010"%char]) texts).
Proof.
  revert text. induction texts as [|p ps IH]; intros text; simpl.
  - rewrite app_nil_r. reflexivity.
  - rewrite IH, <- !app_assoc. reflexivity.
Qed.

Lemma concat_pages_join (texts : list str) :
  texts <> [] ->
  concat (map (fun page_text => page_text ++ ["010"%char]) texts)
  = Str.join ["010"%char] texts ++ ["010"%char].
Proof.
  induction texts as [|p ps IH]; [contradiction|]. intros _.
  destruct ps as [|q ps].
  - simpl. rewrite app_nil_r. reflexivity.
  - change (Str.join ["010"%char] (p :: q :: ps))
      with (p ++ ["010"%char] ++ Str.join ["010"%char] (q :: ps)).
    cbn [map concat]. cbn [map concat] in IH.
    rewrite IH by discriminate. rewrite <- !app_assoc. reflexivity.
Qed.

Lemma isspace_squash (c : ascii) : Char.isspace (squash c) = Char.isspace c.
Proof.
  unfold squash. destruct (Char.isspace c) eqn:E; [reflexivity | exact E].
Qed.

Lemma lstrip_squash (s : str) :
  Str.lstrip (map squash s) = map squash (Str.lstrip s).
Proof.
  induction s as [|c r IH]; [reflexivity|]. simpl.
  rewrite isspace_squash. destruct (Char.isspace c); [exact IH | reflexivity].
Qed.

Lemma strip_squash (s : str) :
  Str.strip (map squash s) = map squash (Str.strip s).
Proof.
  unfold Str.strip, Str.rstrip.
  rewrite lstrip_squash, <- map_rev, lstrip_squash, map_rev. reflexivity.
Qed.

Lemma sub_ws_squash (b : bool) (s : str) :
  Re.sub_ws_from (lit " ") b (map squash s) = Re.sub_ws_from (lit " ") b s.
Proof.
  revert b. induction s as [|c r IH]; intros b; [reflexivity|].
  cbn [map Re.sub_ws_from]. rewrite isspace_squash.
  destruct (Char.isspace c) eqn:E.
  - destruct b; rewrite IH; reflexivity.
  - rewrite IH. unfold squash. rewrite E. reflexivity.
Qed.

Lemma normalize_squash (s : str) : normalize (map squash s) = normalize s.
Proof.
  unfold normalize, Re.sub_ws. rewrite strip_squash. apply sub_ws_squash.
Qed.

Lemma process_pdf_join (pdf_path : str) (texts : list str) :
  PDFReader.process_pdf pdf_path (PDFReader.Pages texts)
  = inr (PDFReader.split_into_sentences (Str.join ["010"%char] texts)).
Proof.
  unfold PDFReader.process_pdf, PDFReader.extract_text_from_pdf.
  f_equal. unfold PDFReader.split_into_sentences. rewrite strip_idem.
  rewrite page_loop_app. cbn [app].
  destruct texts as [|t ts]; [reflexivity|].
  rewrite concat_pages_join by discriminate.
  rewrite <- (app_nil_l (Str.join _ _ ++ _)).
  rewrite strip_spaces; [reflexivity | constructor |].
  constructor; [reflexivity | constructor].
Qed.

(** X18. The sentences of a document are those of the texts of its pages
    joined by line breaks: a page break counts as whitespace, exactly like
    a space, so a sentence may run over it, and a missing file gives no
    sentence but the exception of the reader. *)
Theorem process_pdf_pages (pdf_path : str) (texts : list str) (first second : str) :
  PDFReader.process_pdf pdf_path (PDFReader.Pages texts)
  = inr (PDFReader.split_into_sentences (Str.join ["010"%char] texts))
  /\ PDFReader.process_pdf pdf_path (PDFReader.Pages [first; second])
     = inr (PDFReader.split_into_sentences (first ++ lit " " ++ second))
  /\ PDFReader.process_pdf pdf_path PDFReader.NotFound
     = inl (PDFReader.FileNotFoundError (lit "PDF file not found: " ++ pdf_path)).
Proof.
  split; [apply process_pdf_join|]. split; [|reflexivity].
  rewrite process_pdf_join. f_equal. unfold PDFReader.split_into_sentences.
  fold (normalize (Str.join ["010"%char] [first; second])).
  fold (normalize (first ++ lit " " ++ second)).
  rewrite <- (normalize_squash (Str.join _ _)),
          <- (normalize_squash (first ++ lit " " ++ second)).
  change (Str.join ["010"%char] [first; second])
    with (first ++ ["010"%char] ++ second).
  rewrite !map_app. reflexivity.
Qed.

(** * Properties of the whole run *)

Lemma classified_rows (sentences : list str) (source_document : str) :
  ExcelExporter.create_obligation_dataframe (flat_map survivors sentences)
                                            source_document
  = Ok (rows_from 1 source_document (flat_map survivors sentences)).
Proof.
  apply (rows_loop_rows _ 1 source_document []).
  intros r Hr. apply in_flat_map in Hr. destruct Hr as (s & _ & Hr).
  apply survivors_inv in Hr. destruct Hr as (-> & _).
  rewrite candidate_record_text. eexists. reflexivity.
Qed.

(** X19. A run of [process_document] fails only where the reader or the
    writer fails; the classifier and the rows of the export never do.  With
    the texts of the pages read and the file written, it returns the records
    of the classifier on the sentences of the document, the path made from
    the base name of the document, and a summary with the numbers of
    sentences and of obligations.  Every failure is returned, not raised:
    the error is the message of the exception after
    ["Error processing document: "], and the last line printed is that error
    after ["ERROR: "]. *)
Theorem process_document_outcome (pdf_path output_dir : str)
        (file : PDFReader.reading) (timestamp now : str)
        (write : str -> str -> list dict -> option str) :
  let result :=
    ComplianceAssistant.process_document pdf_path output_dir file timestamp now
                                         write in
  match file with
  | PDFReader.NotFound =>
      snd result
      = ComplianceAssistant.Failure
          (lit "Error processing document: " ++ lit "PDF file not found: "
               ++ pdf_path)
  | PDFReader.Unreadable message =>
      snd result
      = ComplianceAssistant.Failure
          (lit "Error processing document: " ++ lit "Error reading PDF file: "
               ++ message)
  | PDFReader.Pages texts =>
      let sentences :=
        PDFReader.split_into_sentences (Str.join ["010"%char] texts) in
      let source := OsPath.basename pdf_path in
      let path :=
        ExcelExporter.generate_output_filename source output_dir timestamp in
      exists obligations rows,
        ObligationFinder.process_sentences sentences = Ok obligations
        /\ ExcelExporter.create_obligation_dataframe obligations source = Ok rows
        /\ length rows = length obligations
        /\ match write (OsPath.dirname path) path rows with
           | Some message =>
               snd result
               = ComplianceAssistant.Failure
                   (lit "Error processing document: " ++ message)
           | None =>
               exists summary,
                 snd result = ComplianceAssistant.Success summary obligations path
                 /\ ComplianceAssistant.total_sentences summary
                    = Z.of_nat (length sentences)
                 /\ ComplianceAssistant.excel_output_path summary = path
                 /\ ExcelExporter.total_obligations
                      (ComplianceAssistant.report summary)
                    = Z.of_nat (length obligations)
                 /\ ExcelExporter.source_document
                      (ComplianceAssistant.report summary) = source
           end
  end
  /\ forall error,
      snd result = ComplianceAssistant.Failure error ->
      (exists message, error = lit "Error processing document: " ++ message)
      /\ exists printed, fst result = printed ++ [lit "ERROR: " ++ error].
Proof.
  cbv zeta. split.
  - destruct file as [|message|texts]; [reflexivity | reflexivity |].
    exists (flat_map survivors
                     (PDFReader.split_into_sentences (Str.join ["010"%char] texts))),
           (rows_from 1 (OsPath.basename pdf_path)
                      (flat_map survivors
                         (PDFReader.split_into_sentences
                            (Str.join ["010"%char] texts)))).
    split; [apply process_sentences_flat|].
    split; [apply classified_rows|].
    split; [apply rows_from_length|].
    unfold ComplianceAssistant.process_document.
    rewrite process_pdf_join, process_sentences_flat.
    unfold ExcelExporter.export_to_excel. rewrite classified_rows.
    destruct (write _ _ _) as [message|].
    + reflexivity.
    + eexists. split; [reflexivity|]. repeat split.
  - intros error. unfold ComplianceAssistant.process_document.
    destruct (PDFReader.process_pdf pdf_path file) as [e|sentences].
    { intros [= <-]. split; eexists; reflexivity. }
    destruct (ObligationFinder.process_sentences sentences) as [obligations|e].
    2:{ intros [= <-]. split; eexists; reflexivity. }
    destruct (ExcelExporter.export_to_excel _ _ _ _) as [e|excel_path].
    { intros [= <-]. split; eexists; reflexivity. }
    discriminate.
Qed.

Lemma process_document_outcome_witness :
  snd (ComplianceAssistant.process_document
         (lit "missing.pdf") (lit "output") PDFReader.NotFound
         (lit "20250101_120000") (lit "2025-01-01T12:00:00")
         (fun _ _ _ => None))
  = ComplianceAssistant.Failure
      (lit "Error processing document: " ++ lit "PDF file not found: "
           ++ lit "missing.pdf")
  /\ exists printed,
      fst (ComplianceAssistant.process_document
             (lit "missing.pdf") (lit "output") PDFReader.NotFound
             (lit "20250101_120000") (lit "2025-01-01T12:00:00")
             (fun _ _ _ => None))
      = printed
        ++ [lit "ERROR: "
                ++ (lit "Error processing document: " ++ lit "PDF file not found: "
                        ++ lit "missing.pdf")].
Proof.
  destruct (process_document_outcome
              (lit "missing.pdf") (lit "output") PDFReader.NotFound
              (lit "20250101_120000") (lit "2025-01-01T12:00:00")
              (fun _ _ _ => None)) as [A B].
  split; [exact A|]. apply (B _ A).
Defined.

Lemma create_obligation_dataframe_identifiers_witness :
  length (rows_from 1 (lit "test.pdf")
            [candidate_record (lit "Users must comply") [lit "must"];
             candidate_record (lit "Data shall be encrypted") [lit "shall"]])
  = length [candidate_record (lit "Users must comply") [lit "must"];
            candidate_record (lit "Data shall be encrypted") [lit "shall"]]
  /\ forall i j row_i row_j,
      rows_from 1 (lit "test.pdf")
        [candidate_record (lit "Users must comply") [lit "must"];
         candidate_record (lit "Data shall be encrypted") [lit "shall"]] !! i
      = Some row_i ->
      rows_from 1 (lit "test.pdf")
        [candidate_record (lit "Users must comply") [lit "must"];
         candidate_record (lit "Data shall be encrypted") [lit "shall"]] !! j
      = Some row_j ->
      row_i !! "ID" = row_j !! "ID" -> i = j.
Proof.
  apply (proj2 (create_obligation_dataframe_identifiers
                  [candidate_record (lit "Users must comply") [lit "must"];
                   candidate_record (lit "Data shall be encrypted") [lit "shall"]]
                  (lit "test.pdf"))).
  vm_compute. reflexivity.
Defined.
